(** * Fanvue auto-responder: message deduplication and reply dispatch

    A shallow embedding of the per-account responder
    ([src/fanvue_responder.py], class [EnhancedFanvueAutoResponder]) and of
    the account monitor loop ([src/main.py], [src/multi_account_manager.py]),
    with the properties of the design document checked against it.

    Conventions of the embedding.
    - A Python [str] is the list of its Unicode code points ([pystr]);
      comparison is Python's: lexicographic on code points.
    - A message is the record of the four fields the code reads with
      [dict.get(key, "")]; a missing key is the empty string, as in the code.
    - [self.last_message_timestamps] is a [gmap], [self.processed_messages]
      a [gset].
    - Network calls are answered by an abstract [World]; every call the code
      makes is appended to a log together with its answer. *)

From Stdlib Require Import String Ascii DecimalString DecimalNat NArith ZArith List Sorted Lia.
From stdpp Require Import gmap list sorting.
From Equations Require Import Equations.

Set Default Proof Using "Type".
Open Scope string_scope.
Open Scope list_scope.
Open Scope stdpp_scope.

(* ===================================================================== *)
(** * Python strings *)
(* ===================================================================== *)

Module PyStr.

Abbreviation pystr := (list N).

(** An ASCII literal as a Python string. *)
Definition str (s : string) : pystr :=
  map N_of_ascii (list_ascii_of_string s).

(** Python's [<], [<=] and [==] on [str]: lexicographic on code points. *)
Fixpoint compare (a b : pystr) : comparison :=
  match a, b with
  | [], [] => Eq
  | [], _ :: _ => Lt
  | _ :: _, [] => Gt
  | x :: a', y :: b' =>
      match N.compare x y with
      | Eq => compare a' b'
      | c => c
      end
  end.

Definition leb (a b : pystr) : bool :=
  match compare a b with Gt => false | _ => true end.

Definition ltb (a b : pystr) : bool :=
  match compare a b with Lt => true | _ => false end.

Definition eqb (a b : pystr) : bool := bool_decide (a = b).

(** [bool(s)]: a string is truthy when it is not empty. *)
Definition truthy (s : pystr) : bool :=
  match s with [] => false | _ :: _ => true end.

(** [str.isspace] on one code point (the Unicode white-space table of
    CPython). *)
Definition isspace (c : N) : bool :=
  ((9 <=? c) && (c <=? 13) || (28 <=? c) && (c <=? 32)
   || (c =? 133) || (c =? 160) || (c =? 5760)
   || (8192 <=? c) && (c <=? 8202)
   || (c =? 8232) || (c =? 8233) || (c =? 8239) || (c =? 8287)
   || (c =? 12288))%N.

Fixpoint lstrip (s : pystr) : pystr :=
  match s with
  | [] => []
  | c :: s' => if isspace c then lstrip s' else s
  end.

Definition rstrip (s : pystr) : pystr := rev (lstrip (rev s)).

(** [s.strip()] *)
Definition strip (s : pystr) : pystr := rstrip (lstrip s).

(** [sep.join(parts)] *)
Fixpoint join (sep : pystr) (parts : list pystr) : pystr :=
  match parts with
  | [] => []
  | [p] => p
  | p :: rest => p ++ sep ++ join sep rest
  end.

End PyStr.

Export PyStr.

(* ===================================================================== *)
(** * Python list primitives used by the responder *)
(* ===================================================================== *)

Section PyList.
Context {A : Type}.
Variable key : A -> pystr.

(** One step of a stable insertion: [x] goes in front of the first element
    whose key is not smaller than its own. *)
Fixpoint insert_by_key (x : A) (l : list A) : list A :=
  match l with
  | [] => [x]
  | y :: l' =>
      if leb (key x) (key y) then x :: y :: l'
      else y :: insert_by_key x l'
  end.

(** [sorted(l, key=key)] and [l.sort(key=key)]: ascending and stable. *)
Fixpoint py_sorted (l : list A) : list A :=
  match l with
  | [] => []
  | x :: l' => insert_by_key x (py_sorted l')
  end.

(** [l[-n:]] *)
Definition last_n (n : nat) (l : list A) : list A :=
  drop (length l - n) l.
End PyList.

(** [max(l)] on strings, [None] standing for the [ValueError] of an empty
    argument.  Python keeps the first of several maxima. *)
Definition py_max (l : list pystr) : option pystr :=
  match l with
  | [] => None
  | x :: l' => Some (fold_left (fun acc y => if ltb acc y then y else acc) l' x)
  end.

(* ===================================================================== *)
(** * Messages and responder state *)
(* ===================================================================== *)

(** A chat message as the responder reads it:
    [uuid] is [message.get("uuid", "")],
    [sender_uuid] is [message.get("sender", {}).get("uuid", "")],
    [sentAt] is [message.get("sentAt", "")],
    [text] is [message.get("text", "")]. *)
Record message : Type := Message {
  uuid : pystr;
  sender_uuid : pystr;
  sentAt : pystr;
  text : pystr
}.

#[global] Instance message_eq_dec : EqDecision message.
Proof. solve_decision. Defined.

(** The two tracking fields of [EnhancedFanvueAutoResponder]. *)
Record responder : Type := Responder {
  last_message_timestamps : gmap pystr pystr;
  processed_messages : gset pystr
}.

(** A responder with no stored state: what [__init__] builds when no state
    file exists. *)
Definition fresh_responder : responder :=
  {| last_message_timestamps := ∅; processed_messages := ∅ |}.

(** [self.last_message_timestamps.get(user_uuid, "")] *)
Definition last_timestamp (self : responder) (user_uuid : pystr) : pystr :=
  default [] (last_message_timestamps self !! user_uuid).

(* ===================================================================== *)
(** * cleanup_old_processed_messages *)
(* ===================================================================== *)

Definition max_processed : nat := 1000.

(** [cleanup_old_processed_messages].  [iteration_order] is the value of
    [list(self.processed_messages)]: the elements of the set in the order the
    Python set iterates them, which is the order of its hash table and not
    the order of insertion. *)
Definition cleanup_old_processed_messages
    (iteration_order : list pystr) (self : responder) : responder :=
  if (max_processed <? size (processed_messages self))%nat then
    {| last_message_timestamps := last_message_timestamps self;
       processed_messages := list_to_set (last_n max_processed iteration_order) |}
  else self.

(* ===================================================================== *)
(** * check_for_unanswered_messages *)
(* ===================================================================== *)

Section Resolution.
(** [my_uuid] is [current_user.get("uuid", "")], [user_uuid] is
    [subscriber["uuid"]]. *)
Variables my_uuid user_uuid : pystr.

(** The test of the collecting loop: true when the message is appended to
    [new_subscriber_messages], false when the loop [continue]s. *)
Definition is_new_subscriber_message
    (self : responder) (last_processed_timestamp : pystr) (m : message) : bool :=
  let message_text := strip (text m) in
  if eqb (sender_uuid m) my_uuid || negb (truthy message_text)
     || bool_decide (uuid m ∈ processed_messages self)
  then false
  else if truthy last_processed_timestamp
          && leb (sentAt m) last_processed_timestamp
  then false
  else true.

(** [messages[-1].get("sender", {}).get("uuid", "") == my_uuid], guarded by
    [if messages:]. *)
Definition most_recent_is_ours (messages : list message) : bool :=
  match last messages with
  | Some most_recent_message => eqb (sender_uuid most_recent_message) my_uuid
  | None => false
  end.

(** [check_for_unanswered_messages], from the point where
    [get_chat_messages(user_uuid, limit=20)] has returned [fetched].
    The result is the returned list together with the responder after the
    call. *)
Definition check_for_unanswered_messages
    (fetched : list message) (self : responder) : list message * responder :=
  match fetched with
  | [] => ([], self)
  | _ :: _ =>
      let messages := py_sorted sentAt fetched in
      if most_recent_is_ours messages then ([], self)
      else
        let last_processed_timestamp := last_timestamp self user_uuid in
        let new_subscriber_messages :=
          List.filter (is_new_subscriber_message self last_processed_timestamp)
                      messages in
        let '(unanswered_messages, processed) :=
          match last (py_sorted sentAt new_subscriber_messages) with
          | Some latest_new_message =>
              ([latest_new_message],
               {[ uuid latest_new_message ]} ∪ processed_messages self)
          | None => ([], processed_messages self)
          end in
        let timestamps :=
          match py_max (map sentAt messages) with
          | Some newest_timestamp =>
              <[ user_uuid := newest_timestamp ]> (last_message_timestamps self)
          | None => last_message_timestamps self
          end in
        (unanswered_messages,
         {| last_message_timestamps := timestamps;
            processed_messages := processed |})
  end.
End Resolution.

(* ===================================================================== *)
(** * build_conversation_context *)
(* ===================================================================== *)

Definition nl : pystr := [10%N].
Definition dquote : pystr := [34%N].

Definition start_of_conversation : pystr :=
  str "This is the start of your conversation.".

Section Context.
(** [my_uuid] is [current_user.get("uuid", "")]. *)
Variable my_uuid : pystr.
Variable user_handle : pystr.

(** The body of the [for msg in recent_messages] loop: the line appended
    for [msg], or [None] when the loop [continue]s on an empty text. *)
Definition conversation_line (msg : message) : option pystr :=
  let text := strip (text msg) in
  if negb (truthy text) then None
  else if eqb (sender_uuid msg) my_uuid then Some (str "You: " ++ text)
  else Some (user_handle ++ str ": " ++ text).

(** [sorted_messages[-20:] if len(sorted_messages) > 20 else sorted_messages] *)
Definition recent_messages (chat_history : list message) : list message :=
  let sorted_messages := py_sorted sentAt chat_history in
  if (20 <? length sorted_messages)%nat then last_n 20 sorted_messages
  else sorted_messages.

Definition conversation_lines (chat_history : list message) : list pystr :=
  omap conversation_line (recent_messages chat_history).

(** [build_conversation_context], from the point where [get_current_user]
    has answered. *)
Definition build_conversation_context (chat_history : list message) : pystr :=
  match chat_history with
  | [] => start_of_conversation
  | _ :: _ =>
      match conversation_lines chat_history with
      | [] => start_of_conversation
      | lines => str "Conversation history:" ++ nl ++ join nl lines
      end
  end.
End Context.

(* ===================================================================== *)
(** * The outside world: chat API, account database, generation backends *)
(* ===================================================================== *)

(** Exceptions the code distinguishes: [requests.exceptions.HTTPError] with
    its [response.status_code], and every other [Exception]. *)
Inductive exn : Type :=
| HTTPError (status_code : Z)
| OtherException (what : pystr).

Inductive res (A : Type) : Type :=
| Ret (a : A)
| Raise (e : exn).
Arguments Ret {A} a.
Arguments Raise {A} e.

(** [subscriber["uuid"]] and [subscriber.get("handle", "Unknown")]. *)
Record subscriber : Type := Subscriber {
  sub_uuid : pystr;
  sub_handle : pystr
}.

(** The two fields of [FanvueAccount] that reply generation reads; [None]
    and the empty string are both falsy and both stand as the empty string. *)
Record account : Type := Account {
  llm : pystr;
  system_prompt : pystr
}.

(** The JSON object fetched for a completed Fal AI request:
    [final_result.get("error")] (empty when absent) and
    [final_result["output"]] ([None] when the key is missing). *)
Record fal_result : Type := FalResultOf {
  fal_error : pystr;
  fal_output : option pystr
}.

(** Every interaction of the responder with its environment.  The index is
    the type of the answer.
    - [GetCurrentUser]: [get_current_user().get("uuid", "")];
    - [GetSubscribers]: [get_subscribers()];
    - [GetChatMessages]: [get_chat_messages(user_uuid, limit)];
    - [PostMessage]: the [requests.post] of [send_message] followed by
      [raise_for_status];
    - [Sleep]: [asyncio.sleep];
    - [GetAccountById]: [db_manager.get_fanvue_account_by_id(account.id)]
      (the [DatabaseManager] of [src/database.py] defines no such method, so
      its answer, an exception included, is left to the environment);
    - [FalSubmit]: the queue submission, up to [submit_result["request_id"]];
    - [FalStatus]: one status poll, up to [status_result["status"]];
    - [FalResult]: the fetch of the final result;
    - [OpenAIChat]: the chat-completion request, answered by the contents of
      [result["choices"]];
    - [SaveState]: [save_state()] writing the tracking fields. *)
Inductive call : Type -> Type :=
| GetCurrentUser : call pystr
| GetSubscribers : call (list subscriber)
| GetChatMessages (user_uuid : pystr) (limit : Z) : call (list message)
| PostMessage (user_uuid text : pystr) : call (res unit)
| Sleep (seconds : Z) : call unit
| GetAccountById : call (res (option account))
| FalSubmit (user_prompt system_prompt model : pystr) : call (res pystr)
| FalStatus (request_id : pystr) : call (res pystr)
| FalResult (request_id : pystr) : call (res fal_result)
| OpenAIChat (user_prompt system_prompt : pystr) : call (res (list (option pystr)))
| SaveState (data : responder) : call unit.

(** One entry of the log: a call and the answer it got. *)
Record event : Type := Event {
  ev_type : Type;
  ev_call : call ev_type;
  ev_answer : ev_type
}.
Arguments Event {ev_type} ev_call ev_answer.

Section Machine.
Context {World : Type}.

(** How the environment answers a call, and what it becomes. *)
Variable respond : forall A : Type, call A -> World -> A * World.

(** The state threaded through the responder's methods. *)
Record machine : Type := Machine {
  self : responder;
  world : World;
  log : list event
}.

Definition M (A : Type) : Type := machine -> A * machine.

Definition ret {A} (a : A) : M A := fun s => (a, s).

Definition bind {A B} (c : M A) (k : A -> M B) : M B :=
  fun s => let '(a, s') := c s in k a s'.

Notation "'let*' x ':=' c 'in' k" := (bind c (fun x => k))
  (at level 10, x pattern, c at level 100, k at level 200).

Definition perform {A} (c : call A) : M A :=
  fun s =>
    let '(a, w) := respond A c (world s) in
    (a, {| self := self s; world := w; log := log s ++ [Event c a] |}).

Definition get_self : M responder := fun s => (self s, s).

Definition put_self (r : responder) : M unit :=
  fun s => (tt, {| self := r; world := world s; log := log s |}).

(** ** send_message *)

Definition max_retries : nat := 3.

(** The [while retry_count < max_retries] loop of [send_message], entered
    with the given [retry_count]. *)
Equations? send_message_from (user_uuid text : pystr) (retry_count : nat)
    (s : machine) : bool * machine by wf (max_retries - retry_count) lt :=
  send_message_from user_uuid text retry_count s
    with lt_dec retry_count max_retries := {
    | right _ := (false, s)
    | left _ with perform (PostMessage user_uuid text) s := {
        | (Ret _, s1) := (true, s1)
        | (Raise (OtherException _), s1) := (false, s1)
        | (Raise (HTTPError status_code), s1) with Z.eq_dec status_code 429%Z := {
            | right _ := (false, s1)
            | left _ with perform (Sleep 60%Z) s1 := {
                | (_, s2) := send_message_from user_uuid text (S retry_count) s2 } } } }.
Proof. all: unfold max_retries in *; lia. Qed.

Definition send_message (user_uuid text : pystr) : M bool :=
  send_message_from user_uuid text 0.

(** ** Reply generation *)

(** [self.account] as cached at construction. *)
Variable self_account : account.

Definition default_model : pystr := str "google/gemini-2.0-flash-001".

Definition get_default_system_prompt : pystr :=
  join nl
    [ str "You are responding to messages from subscribers on Fanvue (a creator platform).";
      [];
      str "Generate friendly, engaging, and personalized responses that:";
      str "- Acknowledge their message";
      str "- Show genuine interest in them  ";
      str "- Keep the conversation going";
      str "- Maintain a warm but professional tone";
      str "- Are concise (1-3 sentences)";
      [];
      str "Be authentic, flirty when appropriate, and make each subscriber feel special." ].

(** Python's [a or b] and [a if a else b] on strings. *)
Definition or_else (a b : pystr) : pystr := if truthy a then a else b.

(** [self.system_prompt] *)
Definition self_system_prompt : pystr :=
  or_else (system_prompt self_account) get_default_system_prompt.

(** The reply returned by the [except Exception] clause of
    [generate_response_with_llm]. *)
Definition generic_acknowledgement (user_handle : pystr) : pystr :=
  str "Thank you for your message, " ++ user_handle
  ++ str "! I appreciate you reaching out. How are you doing today? "
  ++ [128149%N].

Definition max_wait_time : nat := 60.
Definition poll_interval : nat := 2.

(** The branch of the polling loop taken on status [COMPLETED]. *)
Definition fal_fetch_result (request_id : pystr) : M (res pystr) :=
  let* result_response := perform (FalResult request_id) in
  match result_response with
  | Raise e => ret (Raise e)
  | Ret final_result =>
      if truthy (fal_error final_result)
      then ret (Raise (OtherException (str "Fal AI error: " ++ fal_error final_result)))
      else match fal_output final_result with
           | Some output => ret (Ret (strip output))
           | None => ret (Raise (OtherException (str "KeyError: output")))
           end
  end.

(** The [while waited_time < max_wait_time] loop of
    [generate_response_with_fal_ai], entered with the given
    [waited_time]. *)
Equations? fal_poll_from (request_id : pystr) (waited_time : nat)
    (s : machine) : res pystr * machine by wf (max_wait_time - waited_time) lt :=
  fal_poll_from request_id waited_time s
    with lt_dec waited_time max_wait_time := {
    | right _ := (Raise (OtherException (str "Fal AI request timed out")), s)
    | left _ with perform (FalStatus request_id) s := {
        | (Raise e, s1) := (Raise e, s1)
        | (Ret status, s1) with eqb status (str "COMPLETED") := {
            | true := fal_fetch_result request_id s1
            | false with eqb status (str "FAILED") := {
                | true := (Raise (OtherException (str "Fal AI request failed")), s1)
                | false with perform (Sleep (Z.of_nat poll_interval)) s1 := {
                    | (_, s2) :=
                        fal_poll_from request_id (waited_time + poll_interval) s2 } } } } }.
Proof. all: unfold max_wait_time, poll_interval in *; lia. Qed.

(** [generate_response_with_fal_ai]; its [except] clause logs and
    re-raises, so an exception leaves as it came. *)
Definition generate_response_with_fal_ai
    (user_prompt system_prompt model : pystr) : M (res pystr) :=
  let* submit_response := perform (FalSubmit user_prompt system_prompt model) in
  match submit_response with
  | Raise e => ret (Raise e)
  | Ret request_id => fal_poll_from request_id 0
  end.

(** [generate_response_with_openai] *)
Definition generate_response_with_openai
    (user_prompt system_prompt : pystr) : M (res pystr) :=
  let* response := perform (OpenAIChat user_prompt system_prompt) in
  match response with
  | Raise e => ret (Raise e)
  | Ret [] =>
      ret (Raise (OtherException (str "No response content from stheno-nsfw API")))
  | Ret (Some content :: _) => ret (Ret (strip content))
  | Ret (None :: _) => ret (Raise (OtherException (str "KeyError: content")))
  end.

Definition prompt_with_context (context user_handle user_message : pystr) : pystr :=
  context ++ nl ++ nl
  ++ user_handle ++ str "'s latest message: " ++ dquote ++ user_message ++ dquote
  ++ nl ++ nl
  ++ str "Please respond naturally as if continuing this conversation:".

Definition prompt_without_context (user_handle user_message : pystr) : pystr :=
  str "This is the start of your conversation with " ++ user_handle ++ str "."
  ++ nl ++ nl
  ++ user_handle ++ str " just sent: " ++ dquote ++ user_message ++ dquote
  ++ nl ++ nl
  ++ str "Please respond in a friendly, engaging way:".

(** The body of the [try] block of [generate_response_with_llm]. *)
Definition generate_response_attempt
    (user_message user_handle context : pystr) : M (res pystr) :=
  let* lookup := perform GetAccountById in
  match lookup with
  | Raise e => ret (Raise e)
  | Ret latest_account =>
      let '(model, current_system_prompt) :=
        match latest_account with
        | Some latest =>
            (or_else (llm latest) default_model,
             or_else (system_prompt latest) get_default_system_prompt)
        | None =>
            (or_else (llm self_account) default_model, self_system_prompt)
        end in
      let user_prompt :=
        if truthy context && negb (eqb context start_of_conversation)
        then prompt_with_context context user_handle user_message
        else prompt_without_context user_handle user_message in
      if eqb model (str "stheno-nsfw")
      then generate_response_with_openai user_prompt current_system_prompt
      else generate_response_with_fal_ai user_prompt current_system_prompt model
  end.

(** [generate_response_with_llm]: the attempt, and the [except Exception]
    clause around it. *)
Definition generate_response_with_llm
    (user_message user_handle context : pystr) : M pystr :=
  let* attempt := generate_response_attempt user_message user_handle context in
  match attempt with
  | Ret response => ret response
  | Raise _ => ret (generic_acknowledgement user_handle)
  end.

(** ** One monitoring cycle *)

(** [build_conversation_context] with its call of [get_current_user]. *)
Definition build_conversation_context_io
    (chat_history : list message) (user_handle : pystr) : M pystr :=
  match chat_history with
  | [] => ret start_of_conversation
  | _ :: _ =>
      let* my_uuid := perform GetCurrentUser in
      ret (build_conversation_context my_uuid user_handle chat_history)
  end.

(** [check_for_unanswered_messages] with its two fetches. *)
Definition check_for_unanswered_messages_io (sub : subscriber) : M (list message) :=
  let* messages := perform (GetChatMessages (sub_uuid sub) 20%Z) in
  match messages with
  | [] => ret []
  | _ :: _ =>
      let* my_uuid := perform GetCurrentUser in
      let* me := get_self in
      let '(unanswered_messages, me') :=
        check_for_unanswered_messages my_uuid (sub_uuid sub) messages me in
      let* _ := put_self me' in
      ret unanswered_messages
  end.

(** The body of the [for message in new_messages] loop. *)
Definition respond_to_message
    (sub : subscriber) (chat_history : list message) (msg : message) : M unit :=
  let message_text := text msg in
  if negb (truthy message_text) then ret tt
  else
    let* conversation_context :=
      build_conversation_context_io chat_history (sub_handle sub) in
    let* response_text :=
      generate_response_with_llm message_text (sub_handle sub) conversation_context in
    let* _ := send_message (sub_uuid sub) response_text in
    let* _ := perform (Sleep 1%Z) in
    ret tt.

Fixpoint for_each {A} (body : A -> M unit) (l : list A) : M unit :=
  match l with
  | [] => ret tt
  | x :: l' => let* _ := body x in for_each body l'
  end.

(** [respond_to_messages] *)
Definition respond_to_messages (sub : subscriber) (new_messages : list message) : M unit :=
  let* chat_history := perform (GetChatMessages (sub_uuid sub) 50%Z) in
  for_each (respond_to_message sub chat_history) new_messages.

(** The [for subscriber in subscribers] loop of [monitor_single_cycle].
    Every method called in its body catches its own exceptions and returns,
    so the [except Exception: continue] of the loop has nothing to catch
    here. *)
Fixpoint check_each_subscriber (subscribers : list subscriber)
    (unanswered_message_count : nat) : M nat :=
  match subscribers with
  | [] => ret unanswered_message_count
  | sub :: rest =>
      let* unanswered_messages := check_for_unanswered_messages_io sub in
      match unanswered_messages with
      | [] => check_each_subscriber rest unanswered_message_count
      | _ :: _ =>
          let* _ := respond_to_messages sub unanswered_messages in
          check_each_subscriber rest
            (unanswered_message_count + length unanswered_messages)
      end
  end.

(** [monitor_single_cycle] *)
Definition monitor_single_cycle : M nat :=
  let* subscribers := perform GetSubscribers in
  match subscribers with
  | [] => ret 0
  | _ :: _ =>
      let* unanswered_message_count := check_each_subscriber subscribers 0 in
      let* me := get_self in
      let* _ := perform (SaveState me) in
      ret unanswered_message_count
  end.
End Machine.

Arguments machine World : clear implicits.
Arguments Machine {World} self world log.

(* ===================================================================== *)
(** * monitor_account_continuously *)
(* ===================================================================== *)

Module AccountMonitor.

(** What one pass through the [try] of the monitoring loop does:
    [monitor_single_cycle()] and the sleep after it return, with the
    number of messages processed, or an exception reaches the handler
    before the counter is touched. *)
Inductive cycle_outcome : Type :=
| Returned (message_count : nat)
| Raised.

Definition max_consecutive_errors : nat := 5.

(** The state of the loop: the counter, whether the loop has left through
    [break], and how many cycles were started. *)
Record monitor : Type := Monitor {
  consecutive_errors : nat;
  stopped : bool;
  cycles_run : nat
}.

Definition initial : monitor :=
  {| consecutive_errors := 0; stopped := false; cycles_run := 0 |}.

(** One iteration of the [while not self.shutdown_event.is_set()] loop. *)
Definition monitor_cycle (o : cycle_outcome) (m : monitor) : monitor :=
  match o with
  | Returned message_count =>
      {| consecutive_errors :=
           if (0 <? message_count)%nat then 0 else consecutive_errors m;
         stopped := false;
         cycles_run := S (cycles_run m) |}
  | Raised =>
      let errors := S (consecutive_errors m) in
      {| consecutive_errors := errors;
         stopped := (max_consecutive_errors <=? errors)%nat;
         cycles_run := S (cycles_run m) |}
  end.

(** [monitor_account_continuously], once the responder is created.  The list
    gives the outcome of each cycle that would run until the shutdown event
    is set; the loop consumes it until it is exhausted or [break] is
    reached. *)
Fixpoint monitor_from (outcomes : list cycle_outcome) (m : monitor) : monitor :=
  match outcomes with
  | [] => m
  | o :: rest =>
      let m' := monitor_cycle o m in
      if stopped m' then m' else monitor_from rest m'
  end.

Definition monitor_account_continuously (outcomes : list cycle_outcome) : monitor :=
  monitor_from outcomes initial.

End AccountMonitor.

(* ===================================================================== *)
(** * Reference definitions and scenario data *)
(* ===================================================================== *)

(** The design document's conversation turns: the maximal runs of
    consecutive messages from one sender.  This follows the document's
    glossary, not the code, and serves to compare the two. *)
Fixpoint turns (l : list message) : list (list message) :=
  match l with
  | [] => []
  | m :: l' =>
      match turns l' with
      | (m' :: turn) :: rest =>
          if eqb (sender_uuid m) (sender_uuid m')
          then (m :: m' :: turn) :: rest
          else [m] :: (m' :: turn) :: rest
      | _ => [[m]]
      end
  end.

(** The context the design document describes: the rendering of the
    messages of the last 20 turns.  It differs from
    [build_conversation_context] only in the cap. *)
Definition context_of_last_20_turns
    (my_uuid user_handle : pystr) (chat_history : list message) : pystr :=
  match omap (conversation_line my_uuid user_handle)
          (concat (last_n 20 (turns (py_sorted sentAt chat_history)))) with
  | [] => start_of_conversation
  | lines => str "Conversation history:" ++ nl ++ join nl lines
  end.

(** [str(n)] *)
Definition decimal (n : nat) : pystr :=
  str (NilEmpty.string_of_uint (Nat.to_uint n)).

(** A burst of [n] messages from one subscriber, one per minute from 10:00
    (n at most 60). *)
Definition burst (n : nat) : list message :=
  map (fun k =>
         Message (decimal k) (str "sub")
           (str "10:" ++ (if (k <? 10)%nat then str "0" else []) ++ decimal k)
           (str "message " ++ decimal k))
      (seq 0 n).

(** The responder after a fresh start and one resolution pass for each of
    [n] subscribers, every one of whom has sent a single message. *)
Definition after_one_message_each (n : nat) : responder :=
  fold_left
    (fun self k =>
       snd (check_for_unanswered_messages (str "op") (str "sub-" ++ decimal k)
              [ Message (str "msg-" ++ decimal k) (str "sub-" ++ decimal k)
                  (str "10:00") (str "hi") ]
              self))
    (seq 0 n) fresh_responder.

(** The speaker a context line is labelled with. *)
Definition speaker_label (my_uuid user_handle : pystr) (msg : message) : pystr :=
  if eqb (sender_uuid msg) my_uuid then str "You" else user_handle.

(** ** Reading the log *)

(** The events a method appended to the log. *)
Definition new_events (before after : list event) : list event :=
  drop (length before) after.

(** One rate-limited attempt of [send_message]: the request answered with
    status 429, and the cool-down that follows it. *)
Definition rate_limited_attempt (user_uuid text : pystr) : list event :=
  [ Event (PostMessage user_uuid text) (Raise (HTTPError 429));
    Event (Sleep 60) tt ].

(** The subscribers whose conversation was fetched for resolution: the
    [limit=20] fetches of [check_for_unanswered_messages], in order. *)
Definition checked_subscriber (ev : event) : option pystr :=
  match ev_call ev with
  | GetChatMessages user_uuid limit =>
      if (limit =? 20)%Z then Some user_uuid else None
  | _ => None
  end.

Definition checked_subscribers (evs : list event) : list pystr :=
  omap checked_subscriber evs.

(** An answer by which a backend of reply generation reports a failure: an
    exception from the account look-up, from the Fal AI submission, a status
    poll or the result fetch, the status [FAILED], a result carrying an error
    or no output, an exception from the chat-completion request or a
    completion without content. *)
Definition failure_answer {A : Type} (c : call A) : A -> bool :=
  match c in call T return T -> bool with
  | GetAccountById => fun a => match a with Raise _ => true | Ret _ => false end
  | FalSubmit _ _ _ => fun a => match a with Raise _ => true | Ret _ => false end
  | FalStatus _ => fun a =>
      match a with Raise _ => true | Ret status => eqb status (str "FAILED") end
  | FalResult _ => fun a =>
      match a with
      | Raise _ => true
      | Ret final_result =>
          truthy (fal_error final_result)
          || match fal_output final_result with None => true | Some _ => false end
      end
  | OpenAIChat _ _ => fun a =>
      match a with
      | Raise _ => true
      | Ret [] => true
      | Ret (None :: _) => true
      | Ret (Some _ :: _) => false
      end
  | _ => fun _ => false
  end.

Definition failure_event (ev : event) : bool :=
  failure_answer (ev_call ev) (ev_answer ev).

(** A status poll answered with a status that is neither [COMPLETED] nor
    [FAILED]. *)
Definition pending_answer {A : Type} (c : call A) : A -> bool :=
  match c in call T return T -> bool with
  | FalStatus _ => fun a =>
      match a with
      | Ret status =>
          negb (eqb status (str "COMPLETED")) && negb (eqb status (str "FAILED"))
      | Raise _ => false
      end
  | _ => fun _ => false
  end.

Definition pending_poll (ev : event) : bool :=
  pending_answer (ev_call ev) (ev_answer ev).

(** The polls needed to wait out [max_wait_time]: 30. *)
Definition polls_until_timeout : nat := max_wait_time / poll_interval.

(** The generation backend failed: some answer reports a failure, or the
    request was still pending after the last poll the time-out allows. *)
Definition backend_failed (evs : list event) : bool :=
  existsb failure_event evs
  || (polls_until_timeout <=? length (List.filter pending_poll evs))%nat.

(** [extends c P]: run from any state, [c] appends to the log a list of
    events that, together with the result of [c], satisfies [P]. *)
Definition extends {World A : Type} (c : machine World -> A * machine World)
    (P : A -> list event -> Prop) : Prop :=
  forall s, exists evs, log (snd (c s)) = log s ++ evs /\ P (fst (c s)) evs.

(** An event other than a fetch for resolution. *)
Definition quiet_event (ev : event) : Prop := checked_subscriber ev = None.

(** [quietly c]: [c] fetches no conversation for resolution. *)
Definition quietly {World A : Type} (c : machine World -> A * machine World) : Prop :=
  extends c (fun _ evs => Forall quiet_event evs).

(** What the log shows of one [send_message user_uuid text] that made
    [retries] rate-limited attempts before [final]. *)
Definition send_log (user_uuid text : pystr) (retries : nat) (final : list event)
    : list event :=
  concat (replicate retries (rate_limited_attempt user_uuid text)) ++ final.

(** The attempts to send that the log shows: recipient and outcome. *)
Definition post_attempt (ev : event) : option (pystr * res unit) :=
  match ev_call ev in call T return T -> option (pystr * res unit) with
  | PostMessage user_uuid _ => fun outcome => Some (user_uuid, outcome)
  | _ => fun _ => None
  end (ev_answer ev).

(** A generation attempt that returned a reply shows no failure and fewer
    pending polls than the time-out allows, counted from [waited_time]. *)
Definition sound (waited_time : nat) (r : res pystr) (evs : list event) : Prop :=
  match r with
  | Ret _ =>
      Forall (fun ev => failure_event ev = false) evs
      /\ waited_time + poll_interval * length (List.filter pending_poll evs)
         < max_wait_time
  | Raise _ => True
  end.

(** ** Two scripted environments *)

Definition alice : subscriber := Subscriber (str "alice-id") (str "alice").
Definition bob : subscriber := Subscriber (str "bob-id") (str "bob").

(** An environment in which every send to alice is rate-limited, and the
    account look-up raises (as it does with the [DatabaseManager] of
    [src/database.py], which has no [get_fanvue_account_by_id]). *)
Definition rate_limiting_world (A : Type) (c : call A) (w : unit) : A * unit :=
  (match c in call T return T with
   | GetCurrentUser => str "op"
   | GetSubscribers => [alice; bob]
   | GetChatMessages user_uuid _ =>
       [ Message (str "m-" ++ user_uuid) user_uuid (str "10:00") (str "hi") ]
   | PostMessage user_uuid _ =>
       if eqb user_uuid (str "alice-id") then Raise (HTTPError 429) else Ret tt
   | Sleep _ => tt
   | GetAccountById => Raise (OtherException (str "AttributeError"))
   | FalSubmit _ _ _ => Ret (str "request-1")
   | FalStatus _ => Ret (str "COMPLETED")
   | FalResult _ => Ret (FalResultOf [] (Some (str "Hello!")))
   | OpenAIChat _ _ => Ret [Some (str "Hello!")]
   | SaveState _ => tt
   end, w).

(** An environment in which the account look-up finds nothing and the Fal AI
    request never completes. *)
Definition stalled_world (A : Type) (c : call A) (w : unit) : A * unit :=
  (match c in call T return T with
   | GetCurrentUser => str "op"
   | GetSubscribers => [alice]
   | GetChatMessages user_uuid _ =>
       [ Message (str "m-" ++ user_uuid) user_uuid (str "10:00") (str "hi") ]
   | PostMessage _ _ => Ret tt
   | Sleep _ => tt
   | GetAccountById => Ret None
   | FalSubmit _ _ _ => Ret (str "request-1")
   | FalStatus _ => Ret (str "IN_PROGRESS")
   | FalResult _ => Ret (FalResultOf [] (Some (str "Hello!")))
   | OpenAIChat _ _ => Ret [Some (str "Hello!")]
   | SaveState _ => tt
   end, w).

Definition start (self : responder) : machine unit :=
  {| self := self; world := tt; log := [] |}.

Definition no_account : account := {| llm := []; system_prompt := [] |}.

(** The relation the sort establishes between neighbours. *)
Definition key_le {A : Type} (key : A -> pystr) (x y : A) : Prop :=
  leb (key x) (key y) = true.

(* ===================================================================== *)
(** * The state file: load_state, save_state and the constructor *)
(* ===================================================================== *)

(** The JSON object of [message_state_<account>.json]: the values under
    ['last_timestamps'] and ['processed_messages'], [None] for a missing
    key. *)
Record state_file : Type := StateFile {
  last_timestamps : option (gmap pystr pystr);
  file_processed_messages : option (list pystr)
}.

(** What [load_state] finds: no file, a file that [json.load] rejects, or a
    JSON object. *)
Inductive file_read : Type :=
| NoFile
| Unreadable
| Loaded (data : state_file).

(** [save_state]: the object written.  [iteration_order] is the value of
    [list(self.processed_messages)]. *)
Definition save_state (iteration_order : list pystr) (self : responder) : state_file :=
  {| last_timestamps := Some (last_message_timestamps self);
     file_processed_messages := Some iteration_order |}.

(** [load_state]: without a file nothing is assigned; an unreadable file
    raises before the first assignment and the exception is swallowed. *)
Definition load_state (read : file_read) (self : responder) : responder :=
  match read with
  | NoFile | Unreadable => self
  | Loaded data =>
      {| last_message_timestamps := default ∅ (last_timestamps data);
         processed_messages :=
           list_to_set (default [] (file_processed_messages data)) |}
  end.

(** The tracking fields after [__init__]: empty, then [load_state], then
    [cleanup_old_processed_messages].  [iteration_order] is the order in
    which the loaded set iterates. *)
Definition init (read : file_read) (iteration_order : list pystr) : responder :=
  cleanup_old_processed_messages iteration_order (load_state read fresh_responder).

(* ===================================================================== *)
(** * The chat API underneath: get_subscribers and get_chat_messages *)
(* ===================================================================== *)

Module Transport.

(** One answer to [GET /subscribers?page=p]: [data.get("data", [])] and
    [data.get("pagination", {}).get("hasMore", False)]. *)
Record subscribers_page : Type := SubscribersPage {
  page_data : list subscriber;
  has_more : bool
}.

(** What a fetching loop does on the way: a request for a page, a sleep. *)
Inductive step : Type :=
| Requested (page : nat)
| Slept (seconds : Z).

(** The [while True] loop of [get_subscribers], entered with [page] and
    [all_subscribers].  [answers] are the answers to its successive
    requests: [Ret] for a page that passed [raise_for_status] and parsed,
    [Raise] for an exception.  The result is [None] when the loop is still
    running after the last answer given; an exception that leaves the loop
    is caught by the outer [except] and turned into the empty list. *)
Fixpoint get_subscribers_from (answers : list (res subscribers_page)) (page : nat)
    (all_subscribers : list subscriber) : option (list subscriber) * list step :=
  match answers with
  | [] => (None, [])
  | Ret data :: rest =>
      let all_subscribers := all_subscribers ++ page_data data in
      if has_more data then
        let '(result, steps) := get_subscribers_from rest (S page) all_subscribers in
        (result, Requested page :: steps)
      else (Some all_subscribers, [Requested page])
  | Raise (HTTPError status_code) :: rest =>
      if (status_code =? 429)%Z then
        let '(result, steps) := get_subscribers_from rest page all_subscribers in
        (result, Requested page :: Slept 60 :: steps)
      else (Some [], [Requested page])
  | Raise (OtherException _) :: rest => (Some [], [Requested page])
  end.

(** [get_subscribers] *)
Definition get_subscribers (answers : list (res subscribers_page))
    : option (list subscriber) * list step :=
  get_subscribers_from answers 1 [].

(** The [while retry_count < max_retries] loop of [get_chat_messages]; an
    answer is [data.get("data", [])] or an exception.  The request is always
    for page 1. *)
Fixpoint get_chat_messages_from (answers : list (res (list message)))
    (retry_count : nat) : option (list message) * list step :=
  if (retry_count <? max_retries)%nat then
    match answers with
    | [] => (None, [])
    | Ret data :: _ => (Some data, [Requested 1])
    | Raise (HTTPError status_code) :: rest =>
        if (status_code =? 429)%Z then
          let '(result, steps) := get_chat_messages_from rest (S retry_count) in
          (result, Requested 1 :: Slept 60 :: steps)
        else (Some [], [Requested 1])
    | Raise (OtherException _) :: _ => (Some [], [Requested 1])
    end
  else (Some [], []).

(** [get_chat_messages] *)
Definition get_chat_messages (answers : list (res (list message)))
    : option (list message) * list step :=
  get_chat_messages_from answers 0.

(** The requests among the steps, and the seconds slept. *)
Definition requested (steps : list step) : list nat :=
  omap (fun st => match st with Requested page => Some page | Slept _ => None end) steps.

Definition slept (steps : list step) : list Z :=
  omap (fun st => match st with Slept seconds => Some seconds | Requested _ => None end) steps.

(** An answer that reports rate limiting. *)
Definition rate_limited {A : Type} (answer : res A) : bool :=
  match answer with
  | Raise (HTTPError status_code) => (status_code =? 429)%Z
  | _ => false
  end.

(** The steps without the retried requests: every request that is followed
    by a sleep is dropped together with that sleep. *)
Fixpoint without_retries (steps : list step) : list step :=
  match steps with
  | [] => []
  | Requested _ :: Slept _ :: rest => without_retries rest
  | st :: rest => st :: without_retries rest
  end.

(** Every sleep lasts 60 seconds and stands between two requests for the
    same page (or after the last request made). *)
Fixpoint each_retry_repeats (steps : list step) : Prop :=
  match steps with
  | [] => True
  | Requested page :: Slept seconds :: rest =>
      seconds = 60%Z
      /\ match rest with
         | [] => True
         | next :: _ => next = Requested page
         end
      /\ each_retry_repeats rest
  | Requested _ :: rest => each_retry_repeats rest
  | Slept _ :: _ => False
  end.

End Transport.

(* ===================================================================== *)
(** * The manager's task table: start, refresh, and a monitor's exit *)
(* ===================================================================== *)

Module Manager.

(** [self.running_tasks], by its keys (the account ids), together with what
    the manager did: the accounts it created a monitor task for, in order,
    and the ids whose task it cancelled. *)
Record tasks : Type := Tasks {
  running_tasks : gset pystr;
  created : list pystr;
  cancelled : gset pystr
}.

Definition no_tasks : tasks :=
  {| running_tasks := ∅; created := []; cancelled := ∅ |}.

(** [load_accounts_from_database]: what the database call returned, or the
    empty list when it raised. *)
Definition load_accounts_from_database (fetched : res (list pystr)) : list pystr :=
  match fetched with
  | Ret accounts => accounts
  | Raise _ => []
  end.

(** The [for account in accounts] loop of [start_monitoring_all_accounts];
    [accounts] are the ids of the accounts loaded. *)
Definition start_monitoring_all_accounts (accounts : list pystr) (t : tasks) : tasks :=
  {| running_tasks := list_to_set accounts ∪ running_tasks t;
     created := created t ++ accounts;
     cancelled := cancelled t |}.

(** One pass of [periodic_account_refresh] after its sleep, with the ids of
    the accounts loaded from the database.  Both sets of ids are computed
    before the first task is created. *)
Definition periodic_account_refresh (current_accounts : list pystr) (t : tasks) : tasks :=
  let current_account_ids : gset pystr := list_to_set current_accounts in
  let running_account_ids := running_tasks t in
  let new_account_ids := current_account_ids ∖ running_account_ids in
  let started :=
    List.filter (fun id => bool_decide (id ∈ new_account_ids)) current_accounts in
  let running := list_to_set started ∪ running_tasks t in
  let removed_account_ids := running_account_ids ∖ current_account_ids in
  {| running_tasks := running;
     created := created t ++ started;
     cancelled := cancelled t ∪ (removed_account_ids ∩ running) |}.

(** How [monitor_account_continuously] ended: [create_responder_for_account]
    gave no responder and the monitor returned before its [try]; or it
    entered the [try] and left it (the loop ended, the task was cancelled or
    an exception reached the outer handler), which runs the [finally]
    clause. *)
Inductive monitor_end : Type :=
| NoResponder
| LeftTry.

(** What the end of the monitor of [account_id] does to the table: the
    [finally] clause deletes its entry, the early return leaves it where it
    is. *)
Definition monitor_exit (how : monitor_end) (account_id : pystr) (t : tasks) : tasks :=
  match how with
  | NoResponder => t
  | LeftTry =>
      {| running_tasks := running_tasks t ∖ {[ account_id ]};
         created := created t;
         cancelled := cancelled t |}
  end.

End Manager.

(* ===================================================================== *)
(** * The resolver of fanvue_responder_enhanced.py *)
(* ===================================================================== *)

Module Enhanced.

Section Resolution.
Variables my_uuid user_uuid : pystr.

(** The inner [for j in range(i + 1, len(messages))] loop: some later
    message is ours and strictly newer. *)
Definition is_answered (m : message) (later : list message) : bool :=
  existsb (fun later_message =>
             eqb (sender_uuid later_message) my_uuid
             && ltb (sentAt m) (sentAt later_message))
          later.

(** The [for i, message in enumerate(messages)] loop over what is left of
    the sorted messages; the set of processed ids grows as the loop goes. *)
Fixpoint scan (messages : list message) (processed : gset pystr)
    : list message * gset pystr :=
  match messages with
  | [] => ([], processed)
  | m :: later =>
      if eqb (sender_uuid m) my_uuid || bool_decide (uuid m ∈ processed)
      then scan later processed
      else if is_answered m later then scan later processed
      else
        let '(unanswered_messages, processed') :=
          scan later ({[ uuid m ]} ∪ processed) in
        (m :: unanswered_messages, processed')
  end.

(** [check_for_unanswered_messages] of the enhanced responder, from the
    point where [get_chat_messages(user_uuid, limit=20)] has returned
    [fetched]. *)
Definition check_for_unanswered_messages
    (fetched : list message) (self : responder) : list message * responder :=
  match fetched with
  | [] => ([], self)
  | _ :: _ =>
      let messages := py_sorted sentAt fetched in
      let '(unanswered_messages, processed) :=
        scan messages (processed_messages self) in
      let timestamps :=
        match py_max (map sentAt messages) with
        | Some newest_timestamp =>
            <[ user_uuid := newest_timestamp ]> (last_message_timestamps self)
        | None => last_message_timestamps self
        end in
      (unanswered_messages,
       {| last_message_timestamps := timestamps;
          processed_messages := processed |})
  end.
End Resolution.

End Enhanced.

(* ===================================================================== *)
(** * More ways to read the log *)
(* ===================================================================== *)

(** The states handed to [save_state]. *)
Definition saved_state (ev : event) : option responder :=
  match ev_call ev with
  | SaveState data => Some data
  | _ => None
  end.

(** The text a backend delivered: the output of a Fal AI result without
    error, or the content of the first chat-completion choice. *)
Definition delivered_answer {A : Type} (c : call A) : A -> option pystr :=
  match c in call T return T -> option pystr with
  | FalResult _ => fun a =>
      match a with
      | Ret final_result =>
          if truthy (fal_error final_result) then None else fal_output final_result
      | Raise _ => None
      end
  | OpenAIChat _ _ => fun a =>
      match a with
      | Ret (Some content :: _) => Some content
      | _ => None
      end
  | _ => fun _ => None
  end.

Definition delivered (ev : event) : option pystr :=
  delivered_answer (ev_call ev) (ev_answer ev).

(** The status polls and the seconds slept that the log shows. *)
Definition status_poll (ev : event) : bool :=
  match ev_call ev with FalStatus _ => true | _ => false end.

Definition seconds_slept (ev : event) : Z :=
  match ev_call ev with Sleep seconds => seconds | _ => 0%Z end.

Definition total_sleep (evs : list event) : Z :=
  fold_right Z.add 0%Z (map seconds_slept evs).

Definition polls (evs : list event) : nat :=
  length (List.filter status_poll evs).

(** What the log of a generation attempt shows, whatever its result: the
    polls fit into the time-out counted from [waited_time], and every poll
    is followed by at most one sleep of [poll_interval] seconds.  A reply is
    the stripped text of the one answer delivered; an exception comes with a
    failing answer or with the time-out used up. *)
Definition faithful (waited_time : nat) (r : res pystr) (evs : list event) : Prop :=
  (polls evs = 0 \/ waited_time + poll_interval * polls evs <= S max_wait_time)
  /\ (total_sleep evs <= Z.of_nat (poll_interval * polls evs))%Z
  /\ match r with
     | Ret reply =>
         exists output, omap delivered evs = [output] /\ reply = strip output
     | Raise _ =>
         existsb failure_event evs = true
         \/ max_wait_time
            <= waited_time + poll_interval * length (List.filter pending_poll evs)
     end.

(** An event that neither writes the state file nor posts a message. *)
Definition silent_event (ev : event) : Prop :=
  saved_state ev = None /\ post_attempt ev = None.

(** [silently c]: [c] saves no state and posts no message. *)
Definition silently {World A : Type} (c : machine World -> A * machine World) : Prop :=
  extends c (fun _ evs => Forall silent_event evs).

(** An event that does not write the state file and posts, if it posts, to
    one of [recipients]. *)
Definition posted_to (recipients : list pystr) (ev : event) : Prop :=
  saved_state ev = None
  /\ match post_attempt ev with
     | Some (recipient, _) => recipient ∈ recipients
     | None => True
     end.

(** A log without saves whose posts, at most [bound] of them, go to
    [recipients]. *)
Definition dispatches (recipients : list pystr) (bound : nat) (evs : list event)
    : Prop :=
  Forall (posted_to recipients) evs /\ length (omap post_attempt evs) <= bound.

(** The messages that [respond_to_messages] does not skip: those with a
    text. *)
Definition with_text (new_messages : list message) : list message :=
  List.filter (fun m => truthy (text m)) new_messages.

(** [keeps_self c]: [c] leaves the responder's fields as they are. *)
Definition keeps_self {World A : Type} (c : machine World -> A * machine World)
    : Prop :=
  forall s, self (snd (c s)) = self s.

(** The text of a post, and the requests to a generation backend. *)
Definition posted_text (ev : event) : option pystr :=
  match ev_call ev with
  | PostMessage _ text => Some text
  | _ => None
  end.

Definition backend_request (ev : event) : bool :=
  match ev_call ev with
  | FalSubmit _ _ _ | FalStatus _ | FalResult _ | OpenAIChat _ _ => true
  | _ => false
  end.

(** An event that asks no generation backend and posts, if it posts,
    [text]. *)
Definition carries (text : pystr) (ev : event) : Prop :=
  backend_request ev = false
  /\ match posted_text ev with
     | Some posted => posted = text
     | None => True
     end.

(** [emits P c]: every event [c] appends to the log satisfies [P]. *)
Definition emits {World A : Type} (P : event -> Prop)
    (c : machine World -> A * machine World) : Prop :=
  extends c (fun _ evs => Forall P evs).

(** The account look-up raises whenever it is made.  So it does with the
    [DatabaseManager] of [src/database.py], which defines no
    [get_fanvue_account_by_id]: the call raises [AttributeError]. *)
Definition lookup_raises {World : Type}
    (respond : forall A : Type, call A -> World -> A * World) : Prop :=
  forall w, exists e, fst (respond _ GetAccountById w) = Raise e.

(** The number of exceptions among cycle outcomes. *)
Definition failures (outcomes : list AccountMonitor.cycle_outcome) : nat :=
  length (List.filter
            (fun o => match o with AccountMonitor.Raised => true | _ => false end)
            outcomes).



(* ===================================================================== *)
(** * The order on Python strings *)
(* ===================================================================== *)

Lemma compare_refl (a : pystr) : compare a a = Eq.
Proof.
  induction a as [|x a IH]; simpl; [reflexivity|].
  rewrite N.compare_refl. exact IH.
Qed.

Lemma compare_eq (a b : pystr) : compare a b = Eq -> a = b.
Proof.
  revert b. induction a as [|x a IH]; intros [|y b]; simpl; try discriminate.
  - reflexivity.
  - destruct (N.compare_spec x y) as [->| |]; try discriminate.
    intros H. f_equal. apply IH, H.
Qed.

Lemma compare_antisym (a b : pystr) : compare b a = CompOpp (compare a b).
Proof.
  revert b. induction a as [|x a IH]; intros [|y b]; simpl; try reflexivity.
  rewrite (N.compare_antisym x y).
  destruct (N.compare x y); simpl; auto.
Qed.

Lemma compare_lt_trans (a b c : pystr) :
  compare a b = Lt -> compare b c = Lt -> compare a c = Lt.
Proof.
  revert b c. induction a as [|x a IH]; intros [|y b] [|z c]; simpl;
    try discriminate; try reflexivity.
  destruct (N.compare_spec x y) as [Hxy|Hxy|Hxy],
           (N.compare_spec y z) as [Hyz|Hyz|Hyz];
    try discriminate; intros Hab Hbc.
  - subst. rewrite N.compare_refl. eauto.
  - subst. apply N.compare_lt_iff in Hyz. rewrite Hyz. reflexivity.
  - subst. apply N.compare_lt_iff in Hxy. rewrite Hxy. reflexivity.
  - assert (Hxz : (x < z)%N) by lia.
    apply N.compare_lt_iff in Hxz. rewrite Hxz. reflexivity.
Qed.

Lemma leb_refl (a : pystr) : leb a a = true.
Proof. unfold leb. rewrite compare_refl. reflexivity. Qed.

Lemma leb_nil_l (a : pystr) : leb [] a = true.
Proof. destruct a; reflexivity. Qed.

Lemma leb_nil_r (a : pystr) : leb a [] = true -> a = [].
Proof. destruct a; [reflexivity | discriminate]. Qed.

Lemma leb_total (a b : pystr) : leb a b = false -> leb b a = true.
Proof.
  unfold leb. rewrite (compare_antisym a b).
  destruct (compare a b); simpl; congruence.
Qed.

Lemma leb_trans (a b c : pystr) :
  leb a b = true -> leb b c = true -> leb a c = true.
Proof.
  unfold leb.
  destruct (compare a b) eqn:Hab; try discriminate;
    destruct (compare b c) eqn:Hbc; try discriminate; intros _ _.
  - apply compare_eq in Hab. subst. rewrite Hbc. reflexivity.
  - apply compare_eq in Hab. subst. rewrite Hbc. reflexivity.
  - apply compare_eq in Hbc. subst. rewrite Hab. reflexivity.
  - rewrite (compare_lt_trans a b c Hab Hbc). reflexivity.
Qed.

Lemma leb_antisym (a b : pystr) : leb a b = true -> leb b a = true -> a = b.
Proof.
  unfold leb. rewrite (compare_antisym a b).
  destruct (compare a b) eqn:H; simpl; try discriminate.
  intros _ _. apply compare_eq, H.
Qed.

Lemma ltb_leb (a b : pystr) : ltb a b = negb (leb b a).
Proof.
  unfold ltb, leb. rewrite (compare_antisym a b).
  destruct (compare a b); reflexivity.
Qed.

Lemma eqb_true (a b : pystr) : eqb a b = true <-> a = b.
Proof. unfold eqb. apply bool_decide_eq_true. Qed.

Lemma truthy_false (a : pystr) : truthy a = false <-> a = [].
Proof. destruct a; simpl; split; congruence. Qed.

(* ===================================================================== *)
(** * The sort is a stable ascending permutation *)
(* ===================================================================== *)

Section PyListFacts.
Context {A : Type}.
Variable key : A -> pystr.

Local Abbreviation key_le := (key_le key).

Lemma insert_by_key_perm (x : A) (l : list A) :
  insert_by_key key x l ≡ₚ x :: l.
Proof.
  induction l as [|y l IH]; simpl; [reflexivity|].
  destruct (leb (key x) (key y)); [reflexivity|].
  rewrite IH. apply Permutation_swap.
Qed.

Lemma py_sorted_perm (l : list A) : py_sorted key l ≡ₚ l.
Proof.
  induction l as [|x l IH]; simpl; [reflexivity|].
  rewrite insert_by_key_perm, IH. reflexivity.
Qed.

Lemma py_sorted_length (l : list A) : length (py_sorted key l) = length l.
Proof. apply Permutation_length, py_sorted_perm. Qed.

Lemma py_sorted_elem (x : A) (l : list A) : x ∈ py_sorted key l <-> x ∈ l.
Proof. rewrite (py_sorted_perm l). reflexivity. Qed.

Lemma py_sorted_nil_inv (l : list A) : py_sorted key l = [] -> l = [].
Proof.
  intros H. apply Permutation_nil_r. rewrite <- H.
  symmetry. apply py_sorted_perm.
Qed.

Lemma insert_by_key_sorted (x : A) (l : list A) :
  StronglySorted key_le l -> StronglySorted key_le (insert_by_key key x l).
Proof.
  induction 1 as [|y l Hl IH Hy]; simpl.
  - repeat constructor.
  - destruct (leb (key x) (key y)) eqn:Hxy.
    + constructor; [constructor; assumption|].
      constructor; [exact Hxy|].
      eapply Forall_impl; [exact Hy|].
      intros z Hz. unfold key_le in *. eapply leb_trans; eassumption.
    + constructor; [exact IH|].
      rewrite (insert_by_key_perm x l). constructor; [|exact Hy].
      apply leb_total, Hxy.
Qed.

Lemma py_sorted_sorted (l : list A) : StronglySorted key_le (py_sorted key l).
Proof.
  induction l as [|x l IH]; simpl; [constructor|].
  apply insert_by_key_sorted, IH.
Qed.

(** Stability: messages with the same key keep their fetch order. *)
Lemma insert_by_key_stable (k : pystr) (x : A) (l : list A) :
  StronglySorted key_le l ->
  List.filter (fun y => eqb (key y) k) (insert_by_key key x l)
  = List.filter (fun y => eqb (key y) k) (x :: l).
Proof.
  induction 1 as [|y l Hl IH Hy]; [reflexivity|].
  cbn [insert_by_key].
  destruct (leb (key x) (key y)) eqn:Hxy; [reflexivity|].
  cbn [List.filter] in *. rewrite IH.
  destruct (eqb (key x) k) eqn:Hx, (eqb (key y) k) eqn:Hyk; try reflexivity.
  apply eqb_true in Hx, Hyk. rewrite Hx, Hyk, leb_refl in Hxy. discriminate.
Qed.

Lemma py_sorted_stable (k : pystr) (l : list A) :
  List.filter (fun y => eqb (key y) k) (py_sorted key l)
  = List.filter (fun y => eqb (key y) k) l.
Proof.
  induction l as [|x l IH]; [reflexivity|].
  cbn [py_sorted]. rewrite insert_by_key_stable by apply py_sorted_sorted.
  cbn [List.filter]. rewrite IH. reflexivity.
Qed.

(** The last element of a sorted list carries the greatest key. *)
Lemma sorted_last_greatest (l : list A) (m : A) :
  StronglySorted key_le l -> last l = Some m ->
  forall x, x ∈ l -> key_le x m.
Proof.
  induction 1 as [|y l Hl IH Hy]; intros Hlast x Hx.
  - inversion Hx.
  - destruct l as [|z l'].
    + simpl in Hlast. injection Hlast as <-.
      apply list_elem_of_singleton in Hx. subst. apply leb_refl.
    + change (last (y :: z :: l')) with (last (z :: l')) in Hlast.
      apply elem_of_cons in Hx as [->|Hx].
      * rewrite Forall_forall in Hy. apply Hy.
        apply last_Some_elem_of, Hlast.
      * apply IH; assumption.
Qed.

Lemma last_py_sorted_latest (l : list A) (m : A) :
  last (py_sorted key l) = Some m ->
  m ∈ l /\ forall x, x ∈ l -> key_le x m.
Proof.
  intros Hlast. split.
  - apply py_sorted_elem. apply last_Some_elem_of, Hlast.
  - intros x Hx. eapply sorted_last_greatest; eauto using py_sorted_sorted.
    apply py_sorted_elem, Hx.
Qed.
End PyListFacts.

Lemma filter_none {A} (f : A -> bool) (l : list A) :
  (forall x, x ∈ l -> f x = false) -> List.filter f l = [].
Proof.
  induction l as [|x l IH]; intros H; [reflexivity|]. simpl.
  rewrite (H x) by left. apply IH. intros y Hy. apply H. right. exact Hy.
Qed.

Lemma py_max_fold_ge (l : list pystr) (x : pystr) :
  let M := fold_left (fun acc y => if ltb acc y then y else acc) l x in
  leb x M = true /\ (forall y, y ∈ l -> leb y M = true) /\ (M = x \/ M ∈ l).
Proof.
  revert x. induction l as [|z l IH]; intros x; simpl.
  - split; [apply leb_refl|]. split; [intros y Hy; inversion Hy | left; reflexivity].
  - specialize (IH (if ltb x z then z else x)). simpl in IH.
    destruct IH as (H1 & H2 & H3).
    set (M := fold_left _ l _) in *.
    assert (Hx : leb x (if ltb x z then z else x) = true
                 /\ leb z (if ltb x z then z else x) = true).
    { rewrite ltb_leb. destruct (leb z x) eqn:Hzx; simpl.
      - split; [apply leb_refl | exact Hzx].
      - split; [apply leb_total, Hzx | apply leb_refl]. }
    destruct Hx as [Hx Hz].
    split; [eapply leb_trans; eassumption|]. split.
    + intros y Hy. apply elem_of_cons in Hy as [->|Hy]; [|apply H2, Hy].
      eapply leb_trans; eassumption.
    + destruct H3 as [H3|H3].
      * rewrite H3. destruct (ltb x z); [right; left | left; reflexivity].
      * right. right. exact H3.
Qed.

(** [max] returns an element of its argument that bounds all of them. *)
Lemma py_max_spec (l : list pystr) (M : pystr) :
  py_max l = Some M -> M ∈ l /\ forall y, y ∈ l -> leb y M = true.
Proof.
  destruct l as [|x l]; simpl; [discriminate|].
  intros [= <-]. destruct (py_max_fold_ge l x) as (H1 & H2 & H3). split.
  - destruct H3 as [->|H3]; [left | right; exact H3].
  - intros y Hy. apply elem_of_cons in Hy as [->|Hy]; auto.
Qed.

Lemma py_max_is_Some (l : list pystr) : l <> [] -> exists M, py_max l = Some M.
Proof. destruct l; [congruence | simpl; eauto]. Qed.

(* ===================================================================== *)
(** * Resolution of unanswered messages *)
(* ===================================================================== *)

Section ResolutionFacts.
Variables my_uuid user_uuid : pystr.

Local Abbreviation check := (check_for_unanswered_messages my_uuid user_uuid).
Local Abbreviation ours := (most_recent_is_ours my_uuid).

(** The two early returns. *)
Lemma check_early_return (fetched : list message) (self : responder) :
  fetched = [] \/ ours (py_sorted sentAt fetched) = true ->
  check fetched self = ([], self).
Proof.
  intros [->|H]; [reflexivity|].
  destruct fetched as [|m fetched]; [reflexivity|].
  unfold check_for_unanswered_messages. rewrite H. reflexivity.
Qed.

(** Past the early returns the stored timestamp becomes the greatest
    [sentAt] of the view. *)
Lemma check_updates_timestamp (fetched : list message) (self : responder) :
  fetched <> [] -> ours (py_sorted sentAt fetched) = false ->
  exists newest_timestamp,
    py_max (map sentAt (py_sorted sentAt fetched)) = Some newest_timestamp
    /\ last_message_timestamps (snd (check fetched self))
       = <[ user_uuid := newest_timestamp ]> (last_message_timestamps self).
Proof.
  intros Hne Hours.
  destruct (py_max_is_Some (map sentAt (py_sorted sentAt fetched)))
    as [M HM].
  { intros H. apply map_eq_nil, py_sorted_nil_inv in H. contradiction. }
  exists M. split; [exact HM|].
  destruct fetched as [|m fetched]; [contradiction|].
  unfold check_for_unanswered_messages. rewrite Hours, HM.
  destruct (last _); reflexivity.
Qed.

Lemma check_timestamp_after (fetched : list message) (self : responder)
    (newest_timestamp : pystr) :
  fetched <> [] -> ours (py_sorted sentAt fetched) = false ->
  py_max (map sentAt (py_sorted sentAt fetched)) = Some newest_timestamp ->
  last_timestamp (snd (check fetched self)) user_uuid = newest_timestamp.
Proof.
  intros Hne Hours HM.
  destruct (check_updates_timestamp fetched self Hne Hours) as (M & HM' & Hts).
  unfold last_timestamp. rewrite Hts, lookup_insert_eq. simpl. congruence.
Qed.

(** The newest timestamp bounds every message of the view. *)
Lemma newest_timestamp_bounds (fetched : list message) (newest_timestamp : pystr) :
  py_max (map sentAt (py_sorted sentAt fetched)) = Some newest_timestamp ->
  forall m, m ∈ fetched -> leb (sentAt m) newest_timestamp = true.
Proof.
  intros HM m Hm. apply py_max_spec in HM as [_ HM]. apply HM.
  apply list_elem_of_fmap. exists m. split; [reflexivity|].
  apply py_sorted_elem, Hm.
Qed.

(** What a pass does to the set of processed ids: nothing is removed and
    at most the id of the returned message is added. *)
Lemma check_processed (fetched : list message) (self : responder) :
  let '(unanswered, self') := check fetched self in
  match unanswered with
  | [] => processed_messages self' = processed_messages self
  | latest :: _ =>
      processed_messages self' = {[ uuid latest ]} ∪ processed_messages self
  end.
Proof.
  destruct fetched as [|m fetched]; [reflexivity|].
  unfold check_for_unanswered_messages.
  destruct (ours _); [reflexivity|].
  destruct (last _); reflexivity.
Qed.

(** The returned list holds at most one message. *)
Lemma check_at_most_one (fetched : list message) (self : responder) :
  length (fst (check fetched self)) <= 1.
Proof.
  destruct fetched as [|m fetched]; simpl; [lia|].
  unfold check_for_unanswered_messages.
  destruct (ours _); simpl; [lia|].
  destruct (last _); simpl; lia.
Qed.
End ResolutionFacts.

(* ===================================================================== *)
(** * Properties of resolution *)
(* ===================================================================== *)

(** C1, as stated: resolving twice on the same history yields no target the
    second time.  It fails on a history whose messages all lack a sent-at
    timestamp: the stored timestamp becomes the empty string, which switches
    the timestamp filter off, and the second run picks the message that the
    first run passed over. *)
Lemma resolution_not_idempotent_without_timestamps :
  let fetched := [ Message (str "1") (str "sub") [] (str "hi");
                   Message (str "2") (str "sub") [] (str "yo") ] in
  let first := check_for_unanswered_messages (str "op") (str "sub") fetched
                 fresh_responder in
  fst first = [ Message (str "2") (str "sub") [] (str "yo") ]
  /\ fst (check_for_unanswered_messages (str "op") (str "sub") fetched (snd first))
     = [ Message (str "1") (str "sub") [] (str "hi") ]
  /\ fst (check_for_unanswered_messages (str "op") (str "sub") fetched (snd first))
     <> [].
Proof. vm_compute. repeat split; discriminate. Qed.

(** C1, amended: on every history in which some message carries a non-empty
    sent-at timestamp, and for every conversation state, a second resolution
    on the same history with the updated state yields no target. *)
Theorem resolution_idempotent
    (my_uuid user_uuid : pystr) (fetched : list message) (self : responder) :
  existsb (fun m => truthy (sentAt m)) fetched = true ->
  let updated := snd (check_for_unanswered_messages my_uuid user_uuid fetched self) in
  fst (check_for_unanswered_messages my_uuid user_uuid fetched updated) = [].
Proof.
  intros Hts updated.
  destruct (most_recent_is_ours my_uuid (py_sorted sentAt fetched)) eqn:Hours.
  { rewrite check_early_return by (right; exact Hours). reflexivity. }
  apply existsb_exists in Hts as (m0 & Hm0 & Htruthy).
  apply list_elem_of_In in Hm0.
  assert (Hne : fetched <> []) by (intros ->; inversion Hm0).
  destruct (check_updates_timestamp my_uuid user_uuid fetched self Hne Hours)
    as (M & HM & _).
  pose proof (check_timestamp_after my_uuid user_uuid fetched self M Hne Hours HM)
    as Hstored.
  fold updated in Hstored.
  pose proof (newest_timestamp_bounds fetched M HM) as Hbound.
  assert (HMtruthy : truthy M = true).
  { destruct M as [|c M]; [|reflexivity].
    apply Hbound, leb_nil_r in Hm0. rewrite Hm0 in Htruthy. discriminate. }
  destruct fetched as [|m fetched']; [contradiction|].
  set (fetched := m :: fetched') in *.
  unfold check_for_unanswered_messages. fold fetched. rewrite Hours, Hstored.
  assert (Hnone : List.filter (is_new_subscriber_message my_uuid updated M)
                    (py_sorted sentAt fetched) = []).
  { apply filter_none. intros x Hx. apply py_sorted_elem in Hx.
    unfold is_new_subscriber_message.
    rewrite HMtruthy, (Hbound x Hx). simpl.
    destruct (_ || _ || _); reflexivity. }
  rewrite Hnone. simpl. destruct (py_max _); reflexivity.
Qed.

Lemma resolution_idempotent_witness :
  let fetched := [ Message (str "1") (str "sub") (str "10:00") (str "hi");
                   Message (str "2") (str "sub") (str "10:02") (str "yo") ] in
  existsb (fun m => truthy (sentAt m)) fetched = true
  /\ fst (check_for_unanswered_messages (str "op") (str "sub") fetched
            (snd (check_for_unanswered_messages (str "op") (str "sub") fetched
                    fresh_responder))) = [].
Proof.
  split; [reflexivity|].
  apply (resolution_idempotent (str "op") (str "sub")). reflexivity.
Defined.

(** C2: when the last message of the history sorted ascending by sent-at
    timestamp was sent by the operator, resolution returns no target,
    whatever came earlier and whatever the conversation state. *)
Theorem operator_last_yields_no_target
    (my_uuid user_uuid : pystr) (fetched : list message) (self : responder)
    (most_recent : message) :
  last (py_sorted sentAt fetched) = Some most_recent ->
  sender_uuid most_recent = my_uuid ->
  fst (check_for_unanswered_messages my_uuid user_uuid fetched self) = [].
Proof.
  intros Hlast Hsender.
  rewrite check_early_return; [reflexivity|]. right.
  unfold most_recent_is_ours. rewrite Hlast. apply eqb_true, Hsender.
Qed.

Lemma operator_last_yields_no_target_witness :
  let fetched := [ Message (str "2") (str "op") (str "10:01") (str "hello");
                   Message (str "1") (str "sub") (str "10:00") (str "hi") ] in
  last (py_sorted sentAt fetched)
    = Some (Message (str "2") (str "op") (str "10:01") (str "hello"))
  /\ fst (check_for_unanswered_messages (str "op") (str "sub") fetched
            fresh_responder) = [].
Proof.
  split; [reflexivity|].
  apply (operator_last_yields_no_target (str "op") (str "sub") _ _
           (Message (str "2") (str "op") (str "10:01") (str "hello")));
    reflexivity.
Defined.

(** C5, as stated: the stored timestamp never decreases between two
    consecutive calls with arbitrary views.  It fails when the second view
    holds only messages older than the stored timestamp: the code stores the
    greatest sent-at of the current view without comparing it with the
    stored one. *)
Lemma last_timestamp_can_decrease :
  let after_first :=
    snd (check_for_unanswered_messages (str "op") (str "sub")
           [ Message (str "1") (str "sub") (str "10:00") (str "hi") ]
           fresh_responder) in
  let after_second :=
    snd (check_for_unanswered_messages (str "op") (str "sub")
           [ Message (str "2") (str "sub") (str "09:00") (str "yo") ]
           after_first) in
  last_timestamp after_first (str "sub") = str "10:00"
  /\ last_timestamp after_second (str "sub") = str "09:00"
  /\ leb (last_timestamp after_first (str "sub"))
         (last_timestamp after_second (str "sub")) = false.
Proof. vm_compute. repeat split. Qed.

(** C5, amended: across two consecutive calls the stored timestamp does not
    decrease whenever the second call returns early (empty view, or the
    operator's message last) or the second view holds a message sent no
    earlier than the stored timestamp. *)
Theorem last_timestamp_monotone
    (my_uuid user_uuid : pystr) (view1 view2 : list message) (self : responder) :
  let after_first :=
    snd (check_for_unanswered_messages my_uuid user_uuid view1 self) in
  let after_second :=
    snd (check_for_unanswered_messages my_uuid user_uuid view2 after_first) in
  view2 = []
  \/ most_recent_is_ours my_uuid (py_sorted sentAt view2) = true
  \/ existsb (fun m => leb (last_timestamp after_first user_uuid) (sentAt m))
       view2 = true ->
  leb (last_timestamp after_first user_uuid)
      (last_timestamp after_second user_uuid) = true.
Proof.
  intros after_first after_second H. subst after_second.
  destruct (decide (view2 = [])) as [Hnil|Hne].
  { rewrite check_early_return by (left; exact Hnil). apply leb_refl. }
  destruct (most_recent_is_ours my_uuid (py_sorted sentAt view2)) eqn:Hours.
  { rewrite check_early_return by (right; exact Hours). apply leb_refl. }
  destruct H as [H|[H|H]]; [contradiction | discriminate |].
  apply existsb_exists in H as (m & Hm & Hle). apply list_elem_of_In in Hm.
  destruct (check_updates_timestamp my_uuid user_uuid view2 after_first Hne Hours)
    as (M & HM & _).
  rewrite (check_timestamp_after my_uuid user_uuid view2 after_first M Hne Hours HM).
  eapply leb_trans; [exact Hle|].
  eapply newest_timestamp_bounds; eassumption.
Qed.

Lemma last_timestamp_monotone_witness :
  let view1 := [ Message (str "1") (str "sub") (str "10:00") (str "hi") ] in
  let view2 := [ Message (str "1") (str "sub") (str "10:00") (str "hi");
                 Message (str "3") (str "sub") (str "10:02") (str "you there?") ] in
  let after_first :=
    snd (check_for_unanswered_messages (str "op") (str "sub") view1 fresh_responder) in
  let after_second :=
    snd (check_for_unanswered_messages (str "op") (str "sub") view2 after_first) in
  existsb (fun m => leb (last_timestamp after_first (str "sub")) (sentAt m))
    view2 = true
  /\ leb (last_timestamp after_first (str "sub"))
         (last_timestamp after_second (str "sub")) = true.
Proof.
  split; [vm_compute; reflexivity|].
  apply (last_timestamp_monotone (str "op") (str "sub")).
  right. right. vm_compute. reflexivity.
Defined.

(** C8: the single subscriber message 1, "hi", sent at 10:00, resolved
    against the empty state, is returned as the target; afterwards the stored
    timestamp is 10:00 and the set of processed ids is {1}. *)
Theorem scenario_first_message (my_uuid : pystr) :
  my_uuid <> str "sub" ->
  check_for_unanswered_messages my_uuid (str "sub")
    [ Message (str "1") (str "sub") (str "10:00") (str "hi") ] fresh_responder
  = ([ Message (str "1") (str "sub") (str "10:00") (str "hi") ],
     {| last_message_timestamps := {[ str "sub" := str "10:00" ]};
        processed_messages := {[ str "1" ]} |}).
Proof.
  intros Hne.
  assert (Hsender : eqb (str "sub") my_uuid = false).
  { apply bool_decide_eq_false. congruence. }
  unfold check_for_unanswered_messages, most_recent_is_ours.
  cbn [py_sorted insert_by_key last sender_uuid]. rewrite Hsender.
  unfold is_new_subscriber_message. cbn [List.filter sender_uuid].
  rewrite Hsender. vm_compute. reflexivity.
Qed.

Lemma scenario_first_message_witness :
  str "op" <> str "sub"
  /\ check_for_unanswered_messages (str "op") (str "sub")
       [ Message (str "1") (str "sub") (str "10:00") (str "hi") ] fresh_responder
     = ([ Message (str "1") (str "sub") (str "10:00") (str "hi") ],
        {| last_message_timestamps := {[ str "sub" := str "10:00" ]};
           processed_messages := {[ str "1" ]} |}).
Proof.
  split; [discriminate|].
  apply (scenario_first_message (str "op")). discriminate.
Defined.

(** The two scenarios that follow it in the design document: the operator
    replies at 10:01, and resolution against the state reached yields no
    target; the subscriber writes again at 10:02, and resolution yields
    message 3 only. *)
Example scenario_operator_replied :
  let after_first :=
    snd (check_for_unanswered_messages (str "op") (str "sub")
           [ Message (str "1") (str "sub") (str "10:00") (str "hi") ]
           fresh_responder) in
  check_for_unanswered_messages (str "op") (str "sub")
    [ Message (str "1") (str "sub") (str "10:00") (str "hi");
      Message (str "2") (str "op") (str "10:01") (str "hello") ]
    after_first
  = ([], after_first).
Proof. vm_compute. reflexivity. Qed.

Example scenario_subscriber_wrote_again :
  let after_first :=
    snd (check_for_unanswered_messages (str "op") (str "sub")
           [ Message (str "1") (str "sub") (str "10:00") (str "hi") ]
           fresh_responder) in
  check_for_unanswered_messages (str "op") (str "sub")
    [ Message (str "1") (str "sub") (str "10:00") (str "hi");
      Message (str "2") (str "op") (str "10:01") (str "hello");
      Message (str "3") (str "sub") (str "10:02") (str "you there?") ]
    after_first
  = ([ Message (str "3") (str "sub") (str "10:02") (str "you there?") ],
     {| last_message_timestamps := {[ str "sub" := str "10:02" ]};
        processed_messages := {[ str "1"; str "3" ]} |}).
Proof. vm_compute. reflexivity. Qed.

(** C10: when resolution returns because the fetched view is empty or
    because the chronologically last message is the operator's, it returns no
    target and the responder is unchanged: neither the stored timestamps nor
    the set of processed ids is touched. *)
Theorem early_return_leaves_state
    (my_uuid user_uuid : pystr) (fetched : list message) (self : responder) :
  fetched = [] \/ most_recent_is_ours my_uuid (py_sorted sentAt fetched) = true ->
  check_for_unanswered_messages my_uuid user_uuid fetched self = ([], self).
Proof. apply check_early_return. Qed.

Lemma early_return_leaves_state_witness :
  let fetched := [ Message (str "2") (str "op") (str "10:01") (str "hello");
                   Message (str "1") (str "sub") (str "10:00") (str "hi") ] in
  let self := {| last_message_timestamps := {[ str "sub" := str "09:00" ]};
                 processed_messages := {[ str "0" ]} |} in
  most_recent_is_ours (str "op") (py_sorted sentAt fetched) = true
  /\ check_for_unanswered_messages (str "op") (str "sub") fetched self = ([], self).
Proof.
  split; [reflexivity|].
  apply (early_return_leaves_state (str "op") (str "sub")).
  right. reflexivity.
Defined.

(* ===================================================================== *)
(** * The bound on the set of processed ids *)
(* ===================================================================== *)

Lemma last_n_length {A} (n : nat) (l : list A) : length (last_n n l) <= n.
Proof. unfold last_n. rewrite length_drop. lia. Qed.

Lemma cleanup_bounded (iteration_order : list pystr) (self : responder) :
  iteration_order ≡ₚ elements (processed_messages self) ->
  size (processed_messages (cleanup_old_processed_messages iteration_order self))
  <= max_processed.
Proof.
  intros Hperm. unfold cleanup_old_processed_messages.
  destruct (Nat.ltb_spec max_processed (size (processed_messages self)));
    simpl; [|lia].
  rewrite size_list_to_set.
  - apply last_n_length.
  - assert (Hnodup : NoDup iteration_order)
      by (rewrite Hperm; apply NoDup_elements).
    unfold last_n. exact (sublist_NoDup _ _ Hnodup (sublist_drop _ _)).
Qed.

Lemma cleanup_subset (iteration_order : list pystr) (self : responder) :
  iteration_order ≡ₚ elements (processed_messages self) ->
  processed_messages (cleanup_old_processed_messages iteration_order self)
  ⊆ processed_messages self.
Proof.
  intros Hperm. unfold cleanup_old_processed_messages.
  destruct (_ <? _)%nat; simpl; [|reflexivity].
  intros x Hx. apply elem_of_list_to_set in Hx.
  apply (subseteq_drop _ iteration_order) in Hx.
  rewrite Hperm in Hx. apply elem_of_elements, Hx.
Qed.

Lemma check_grows_by_at_most_one
    (my_uuid user_uuid : pystr) (fetched : list message) (self : responder) :
  let resolved := snd (check_for_unanswered_messages my_uuid user_uuid fetched self) in
  processed_messages self ⊆ processed_messages resolved
  /\ size (processed_messages resolved) <= S (size (processed_messages self)).
Proof.
  pose proof (check_processed my_uuid user_uuid fetched self) as H.
  destruct (check_for_unanswered_messages _ _ _ _) as [unanswered resolved].
  simpl. destruct unanswered as [|latest ?]; rewrite H.
  - split; [reflexivity | lia].
  - split; [apply union_subseteq_r|].
    rewrite size_union_alt, size_singleton.
    assert (size (processed_messages self ∖ {[uuid latest]})
            <= size (processed_messages self)); [|lia].
    apply subseteq_size, subseteq_difference_l. reflexivity.
Qed.

(** [str] and [decimal] are injective. *)
Lemma str_inj (s t : string) : str s = str t -> s = t.
Proof.
  unfold str. intros H.
  rewrite <- (string_of_list_ascii_of_string s),
          <- (string_of_list_ascii_of_string t).
  f_equal. revert H.
  generalize (list_ascii_of_string s) (list_ascii_of_string t).
  induction l as [|a l IH]; intros [|b l']; simpl; try discriminate;
    [reflexivity|].
  intros [= Hab Hl]. f_equal; [|apply IH, Hl].
  rewrite <- (ascii_N_embedding a), <- (ascii_N_embedding b), Hab. reflexivity.
Qed.

Lemma decimal_inj (j k : nat) : decimal j = decimal k -> j = k.
Proof.
  unfold decimal. intros H. apply str_inj in H.
  assert (Hu : Nat.to_uint j = Nat.to_uint k).
  { apply (f_equal NilEmpty.uint_of_string) in H.
    rewrite !NilEmpty.usu in H. congruence. }
  apply DecimalNat.Unsigned.to_uint_inj, Hu.
Qed.

(** One pass of [after_one_message_each]: subscriber [k], unknown so far,
    has sent message [k], unseen so far. *)
Lemma one_new_message_pass (k : nat) (self : responder) :
  last_message_timestamps self !! (str "sub-" ++ decimal k) = None ->
  str "msg-" ++ decimal k ∉ processed_messages self ->
  snd (check_for_unanswered_messages (str "op") (str "sub-" ++ decimal k)
         [ Message (str "msg-" ++ decimal k) (str "sub-" ++ decimal k)
             (str "10:00") (str "hi") ] self)
  = {| last_message_timestamps :=
         <[ str "sub-" ++ decimal k := str "10:00" ]> (last_message_timestamps self);
       processed_messages := {[ str "msg-" ++ decimal k ]} ∪ processed_messages self |}.
Proof.
  intros Hts Hid.
  assert (Hsender : eqb (str "sub-" ++ decimal k) (str "op") = false)
    by (apply bool_decide_eq_false; discriminate).
  generalize dependent (str "sub-" ++ decimal k). intros user.
  generalize dependent (str "msg-" ++ decimal k). intros id Hid Hts Hsender.
  unfold check_for_unanswered_messages, most_recent_is_ours.
  cbn [py_sorted insert_by_key last sender_uuid]. rewrite Hsender.
  unfold is_new_subscriber_message, last_timestamp.
  cbn [List.filter sender_uuid uuid text sentAt].
  rewrite Hsender, Hts, (bool_decide_eq_false_2 _ Hid). reflexivity.
Qed.

Lemma after_one_message_each_state (n : nat) :
  processed_messages (after_one_message_each n)
  = list_to_set (map (fun k => str "msg-" ++ decimal k) (seq 0 n))
  /\ forall k, n <= k ->
       last_message_timestamps (after_one_message_each n)
         !! (str "sub-" ++ decimal k) = None.
Proof.
  induction n as [|n [IHp IHt]]; [split; [reflexivity | intros; apply lookup_empty]|].
  unfold after_one_message_each in *.
  rewrite seq_S, fold_left_app. cbn [fold_left Nat.add].
  set (self := fold_left _ (seq 0 n) fresh_responder) in *.
  rewrite one_new_message_pass.
  - cbn [processed_messages last_message_timestamps]. split.
    + rewrite IHp, map_app, list_to_set_app_L. simpl.
      rewrite union_empty_r_L. apply (comm_L (∪)).
    + intros k Hk. rewrite lookup_insert_ne; [apply IHt; lia|].
      intros H. apply app_inv_head, decimal_inj in H. lia.
  - apply IHt. lia.
  - rewrite IHp, elem_of_list_to_set, list_elem_of_fmap.
    intros (j & Hj & Hin). apply app_inv_head, decimal_inj in Hj. subst j.
    apply elem_of_seq in Hin. lia.
Qed.

Lemma after_one_message_each_size (n : nat) :
  size (processed_messages (after_one_message_each n)) = n.
Proof.
  rewrite (proj1 (after_one_message_each_state n)), size_list_to_set.
  - rewrite length_map, length_seq. reflexivity.
  - apply NoDup_fmap_2; [|apply NoDup_seq].
    intros j k H. apply app_inv_head, decimal_inj in H. exact H.
Qed.

(** C4, as stated: after any number of resolution passes the set of
    processed ids holds at most 1000 entries.  It fails: resolution only
    ever adds ids, and the clean-up runs in the constructor alone.  After a
    fresh start and one pass for each of 1001 subscribers with one new
    message each, the set holds 1001 ids. *)
Lemma processed_messages_exceed_bound :
  size (processed_messages (after_one_message_each 1001)) = 1001
  /\ ~ size (processed_messages (after_one_message_each 1001)) <= max_processed.
Proof.
  rewrite after_one_message_each_size.
  split; [reflexivity | unfold max_processed; lia].
Qed.

(** C4, amended: the clean-up run when a responder is constructed leaves at
    most 1000 ids, all of them taken from the loaded set, and leaves a set of
    at most 1000 ids as it is; a resolution pass evicts nothing: it keeps
    every id and adds at most one. *)
Theorem processed_messages_bounded_at_construction
    (iteration_order : list pystr) (loaded : responder)
    (my_uuid user_uuid : pystr) (fetched : list message) (self : responder) :
  iteration_order ≡ₚ elements (processed_messages loaded) ->
  let cleaned := cleanup_old_processed_messages iteration_order loaded in
  let resolved := snd (check_for_unanswered_messages my_uuid user_uuid fetched self) in
  size (processed_messages cleaned) <= max_processed
  /\ processed_messages cleaned ⊆ processed_messages loaded
  /\ (size (processed_messages loaded) <= max_processed -> cleaned = loaded)
  /\ processed_messages self ⊆ processed_messages resolved
  /\ size (processed_messages resolved) <= S (size (processed_messages self)).
Proof.
  intros Hperm cleaned resolved.
  split; [apply cleanup_bounded, Hperm|].
  split; [apply cleanup_subset, Hperm|].
  split; [|apply check_grows_by_at_most_one].
  intros Hsmall. subst cleaned. unfold cleanup_old_processed_messages.
  destruct (Nat.ltb_spec max_processed (size (processed_messages loaded)));
    [lia | reflexivity].
Qed.

Lemma processed_messages_bounded_at_construction_witness :
  let loaded := after_one_message_each 1001 in
  let iteration_order := elements (processed_messages loaded) in
  iteration_order ≡ₚ elements (processed_messages loaded)
  /\ size (processed_messages
             (cleanup_old_processed_messages iteration_order loaded))
     <= max_processed.
Proof.
  split; [reflexivity|].
  apply (processed_messages_bounded_at_construction
           (elements (processed_messages (after_one_message_each 1001)))
           (after_one_message_each 1001) [] [] [] fresh_responder).
  reflexivity.
Defined.

(* ===================================================================== *)
(** * The conversation context *)
(* ===================================================================== *)

Lemma last_n_short {A} (n : nat) (l : list A) : length l <= n -> last_n n l = l.
Proof.
  intros H. unfold last_n. replace (length l - n) with 0 by lia. reflexivity.
Qed.

Lemma recent_messages_last_20 (chat_history : list message) :
  recent_messages chat_history = last_n 20 (py_sorted sentAt chat_history).
Proof.
  unfold recent_messages.
  destruct (Nat.ltb_spec 20 (length (py_sorted sentAt chat_history)));
    [reflexivity|].
  symmetry. apply last_n_short. assumption.
Qed.

Lemma conversation_lines_render (my_uuid user_handle : pystr) (l : list message) :
  omap (conversation_line my_uuid user_handle) l
  = map (fun m => speaker_label my_uuid user_handle m ++ str ": " ++ strip (text m))
        (List.filter (fun m => truthy (strip (text m))) l).
Proof.
  induction l as [|m l IH]; [reflexivity|].
  change (omap (conversation_line my_uuid user_handle) (m :: l))
    with (match conversation_line my_uuid user_handle m with
          | Some line => line :: omap (conversation_line my_uuid user_handle) l
          | None => omap (conversation_line my_uuid user_handle) l
          end).
  cbn [List.filter]. unfold conversation_line at 1.
  destruct (truthy (strip (text m))); cbn [negb map]; [|exact IH].
  rewrite <- IH. unfold speaker_label.
  destruct (eqb (sender_uuid m) my_uuid); reflexivity.
Qed.

Lemma strongly_sorted_sublist {A} (R : A -> A -> Prop) (l1 l2 : list A) :
  l1 `sublist_of` l2 -> StronglySorted R l2 -> StronglySorted R l1.
Proof.
  induction 1 as [|x l1 l2 Hsub IH|x l1 l2 Hsub IH]; intros Hs.
  - constructor.
  - apply StronglySorted_inv in Hs as [Hs Hx]. constructor; [auto|].
    rewrite Forall_forall in *. intros y Hy. apply Hx.
    eapply elem_of_sublist; eassumption.
  - apply StronglySorted_inv in Hs as [Hs _]. auto.
Qed.

Lemma list_filter_sublist {A} (f : A -> bool) (l : list A) :
  List.filter f l `sublist_of` l.
Proof.
  induction l as [|x l IH]; simpl; [constructor|].
  destruct (f x); [apply sublist_skip | apply sublist_cons]; exact IH.
Qed.

(** C9, as stated: the context is capped at the last 20 conversation turns.
    It fails on a burst of 21 messages from one subscriber, which is a single
    turn: the code renders the last 20 messages and drops the oldest, where
    a cap on turns would render all 21. *)
Lemma context_not_capped_at_turns :
  length (turns (py_sorted sentAt (burst 21))) = 1
  /\ length (conversation_lines (str "op") (str "alice") (burst 21)) = 20
  /\ build_conversation_context (str "op") (str "alice") (burst 21)
     <> context_of_last_20_turns (str "op") (str "alice") (burst 21).
Proof.
  split; [vm_compute; reflexivity|]. split; [vm_compute; reflexivity|].
  intros H. apply (f_equal length) in H. vm_compute in H. discriminate.
Qed.

(** C9, amended: for every chat history the context is rendered from the
    last 20 messages of the history sorted by sent-at timestamp, leaving out
    those whose text is blank: at most 20 lines, oldest first, each labelled
    with its speaker (You for the operator, the subscriber's handle
    otherwise); with no line to render the context is the fixed
    start-of-conversation sentence. *)
Theorem context_rendered_from_last_20_messages
    (my_uuid user_handle : pystr) (chat_history : list message) :
  let rendered :=
    List.filter (fun m => truthy (strip (text m)))
      (last_n 20 (py_sorted sentAt chat_history)) in
  let lines :=
    map (fun m => speaker_label my_uuid user_handle m ++ str ": " ++ strip (text m))
        rendered in
  conversation_lines my_uuid user_handle chat_history = lines
  /\ length rendered <= 20
  /\ StronglySorted (key_le sentAt) rendered
  /\ build_conversation_context my_uuid user_handle chat_history
     = match lines with
       | [] => start_of_conversation
       | _ :: _ => str "Conversation history:" ++ nl ++ join nl lines
       end.
Proof.
  intros rendered lines.
  assert (Hlines : conversation_lines my_uuid user_handle chat_history = lines).
  { unfold conversation_lines. rewrite recent_messages_last_20.
    apply conversation_lines_render. }
  split; [exact Hlines|]. split; [|split].
  - etransitivity; [apply sublist_length, list_filter_sublist|].
    apply last_n_length.
  - eapply strongly_sorted_sublist; [apply list_filter_sublist|].
    eapply strongly_sorted_sublist; [apply sublist_drop|].
    apply py_sorted_sorted.
  - unfold build_conversation_context. rewrite Hlines.
    destruct chat_history as [|m h]; [reflexivity|].
    destruct lines; reflexivity.
Qed.

(* ===================================================================== *)
(** * The account monitor *)
(* ===================================================================== *)

Module AccountMonitorFacts.
Import AccountMonitor.

(** Five exceptions in a row, counted from zero, stop the monitor, and no
    later cycle runs. *)
Lemma five_failures_stop (later : list cycle_outcome) (m : monitor) :
  consecutive_errors m = 0 ->
  monitor_from (Raised :: Raised :: Raised :: Raised :: Raised :: later) m
  = {| consecutive_errors := 5; stopped := true; cycles_run := 5 + cycles_run m |}.
Proof. intros H. simpl. rewrite H. reflexivity. Qed.

(** A cycle that processed at least one message resets the counter. *)
Lemma success_with_messages_resets (message_count : nat) (m : monitor) :
  0 < message_count ->
  consecutive_errors (monitor_cycle (Returned message_count) m) = 0.
Proof. intros H. simpl. destruct message_count; [lia | reflexivity]. Qed.

(** A cycle that processed no message leaves the counter as it was. *)
Lemma success_without_messages_keeps_counter (m : monitor) :
  consecutive_errors (monitor_cycle (Returned 0) m) = consecutive_errors m.
Proof. reflexivity. Qed.








(** Cycles that all return, as those of the repository's responders do
    (their [monitor_single_cycle] ends in [except Exception: return 0]),
    leave the counter at zero and never stop the monitor. *)
Lemma returning_cycles_never_stop (counts : list nat) :
  monitor_account_continuously (map Returned counts)
  = {| consecutive_errors := 0; stopped := false; cycles_run := length counts |}.
Proof.
  unfold monitor_account_continuously, initial.
  assert (H : forall r,
            monitor_from (map Returned counts)
              {| consecutive_errors := 0; stopped := false; cycles_run := r |}
            = {| consecutive_errors := 0; stopped := false;
                 cycles_run := r + length counts |}).
  { induction counts as [|n counts IH]; intros r.
    - cbn [map monitor_from length]. rewrite Nat.add_0_r. reflexivity.
    - cbn [map monitor_from monitor_cycle stopped consecutive_errors cycles_run].
      replace (if (0 <? n)%nat then 0 else 0) with 0 by (destruct n; reflexivity).
      rewrite IH. cbn [length]. f_equal. lia. }
  apply (H 0).
Qed.

End AccountMonitorFacts.

(* ===================================================================== *)
(** * Dispatch and the monitoring cycle *)
(* ===================================================================== *)

Section MachineFacts.
Context {World : Type}.
Variable respond : forall A : Type, call A -> World -> A * World.
Variable self_account : account.

Lemma perform_inv {A} (c : call A) (s s1 : machine World) (a : A) :
  perform respond c s = (a, s1) ->
  self s1 = self s /\ log s1 = log s ++ [Event c a].
Proof.
  unfold perform. destruct (respond A c (world s)) as [a' w].
  intros [= <- <-]. split; reflexivity.
Qed.

(** Replace every [perform ... = (a, s1)] among the hypotheses by what it
    says about the responder and the log. *)
Ltac performed :=
  repeat match goal with
         | H : perform _ _ _ = (_, _) |- _ =>
             apply perform_inv in H; destruct H as [? ?]
         | u : unit |- _ => destruct u
         end.

(** The shape of the log of the sending loop entered at [retry_count]. *)
Lemma send_message_from_shape (user_uuid reply : pystr) (retry_count : nat)
    (s : machine World) :
  retry_count <= max_retries ->
  let run := send_message_from respond user_uuid reply retry_count s in
  self (snd run) = self s
  /\ exists (retries : nat) (final : list event),
       log (snd run) = log s ++ send_log user_uuid reply retries final
       /\ ((retry_count + retries = max_retries /\ final = [] /\ fst run = false)
           \/ (retry_count + retries < max_retries
               /\ final = [Event (PostMessage user_uuid reply) (Ret tt)]
               /\ fst run = true)
           \/ (retry_count + retries < max_retries
               /\ (exists e, e <> HTTPError 429
                     /\ final = [Event (PostMessage user_uuid reply) (Raise e)])
               /\ fst run = false)).
Proof.
  intros Hle. cbv zeta.
  funelim (send_message_from respond user_uuid reply retry_count s);
    cbn [fst snd]; performed.
  - (* the retries are used up *)
    split; [reflexivity|]. exists 0, []. split.
    + unfold send_log. simpl. rewrite app_nil_r. reflexivity.
    + left. repeat split. unfold max_retries in *. lia.
  - (* the request succeeded *)
    split; [assumption|].
    exists 0. eexists. split; [unfold send_log; simpl; eassumption|]. right. left. repeat split. lia.
  - (* an exception other than an HTTP error: give up at once *)
    split; [assumption|].
    exists 0. eexists. split; [unfold send_log; simpl; eassumption|]. right. right. repeat split; [lia|].
    eexists. split; [|reflexivity]. discriminate.
  - (* an HTTP status other than 429: give up at once *)
    split; [assumption|].
    exists 0. eexists. split; [unfold send_log; simpl; eassumption|]. right. right. repeat split; [lia|].
    eexists. split; [|reflexivity]. congruence.
  - (* status 429: cool down and go round again *)
    subst status_code.
    match goal with
    | IH : _ -> _ /\ _ |- _ =>
        destruct IH as (Hself & retries & final & Hlog & Hcases); [lia|]
    end.
    split; [congruence|]. exists (S retries), final. split.
    + rewrite Hlog. unfold send_log, rate_limited_attempt.
      cbn [replicate concat].
      repeat match goal with H : log _ = _ |- _ => rewrite H; clear H end.
      rewrite <- !app_assoc. reflexivity.
    + destruct Hcases as [(?&?&?)|[(?&?&?)|(?&?&?)]];
        [left | right; left | right; right]; repeat split; auto; lia.
Qed.

(** ** Composing facts about the log *)

Lemma extends_ret {A} (a : A) (P : A -> list event -> Prop) :
  P a [] -> extends (World:=World) (ret a) P.
Proof. intros H s. exists []. rewrite app_nil_r. split; [reflexivity | exact H]. Qed.

Lemma extends_perform {A} (c : call A) (P : A -> list event -> Prop) :
  (forall a, P a [Event c a]) -> extends (perform respond c) P.
Proof.
  intros H s. destruct (perform respond c s) as [a s1] eqn:Hc.
  apply perform_inv in Hc as [_ Hlog]. exists [Event c a]. split; [exact Hlog | apply H].
Qed.

Lemma extends_bind {A B} (c : M A) (k : A -> M B)
    (P : A -> list event -> Prop) (Q : A -> B -> list event -> Prop)
    (R : B -> list event -> Prop) :
  extends c P -> (forall a, extends (k a) (Q a)) ->
  (forall a b e1 e2, P a e1 -> Q a b e2 -> R b (e1 ++ e2)) ->
  extends (World:=World) (bind c k) R.
Proof.
  intros Hc Hk HR s. unfold bind.
  destruct (Hc s) as (e1 & Hlog1 & HP). destruct (c s) as [a s1].
  destruct (Hk a s1) as (e2 & Hlog2 & HQ). exists (e1 ++ e2). split.
  - rewrite Hlog2. simpl in Hlog1. rewrite Hlog1, app_assoc. reflexivity.
  - eapply HR; eassumption.
Qed.

Lemma extends_mono {A} (c : M A) (P Q : A -> list event -> Prop) :
  (forall a evs, P a evs -> Q a evs) -> extends c P -> extends (World:=World) c Q.
Proof. intros H Hc s. destruct (Hc s) as (evs & ? & ?). eauto. Qed.

Lemma quietly_ret {A} (a : A) : quietly (World:=World) (ret a).
Proof. apply extends_ret. constructor. Qed.

Lemma quietly_perform {A} (c : call A) :
  (forall a, quiet_event (Event c a)) -> quietly (perform respond c).
Proof. intros H. apply extends_perform. intros a. repeat constructor. apply H. Qed.

Lemma quietly_bind {A B} (c : M A) (k : A -> M B) :
  quietly c -> (forall a, quietly (k a)) -> quietly (World:=World) (bind c k).
Proof.
  intros Hc Hk.
  apply (extends_bind c k (fun _ evs => Forall quiet_event evs)
           (fun _ _ evs => Forall quiet_event evs)); [exact Hc | exact Hk |].
  intros a b e1 e2 H1 H2. apply Forall_app. split; assumption.
Qed.

(** Discharge [quietly] goals along the structure of the code. *)
Ltac quiet :=
  repeat first
    [ solve [auto]
    | apply quietly_ret
    | apply quietly_perform; intros; reflexivity
    | apply quietly_bind; [|intros]
    | match goal with
      | |- quietly (match ?x with _ => _ end) => destruct x
      | |- quietly (if ?b then _ else _) => destruct b
      | |- quietly (let '(_, _) := ?x in _) => destruct x
      end ].

(** ** What a cycle fetches *)

Lemma checked_subscribers_app (e1 e2 : list event) :
  checked_subscribers (e1 ++ e2) = checked_subscribers e1 ++ checked_subscribers e2.
Proof. apply omap_app. Qed.

Lemma checked_subscribers_quiet (evs : list event) :
  Forall quiet_event evs -> checked_subscribers evs = [].
Proof.
  induction 1 as [|ev evs Hev _ IH]; [reflexivity|].
  unfold checked_subscribers in *. simpl. rewrite Hev. exact IH.
Qed.

Lemma send_message_from_quietly (user_uuid reply : pystr) (retry_count : nat) :
  quietly (send_message_from respond user_uuid reply retry_count).
Proof.
  intros s. funelim (send_message_from respond user_uuid reply retry_count s);
    cbn [fst snd]; performed;
    try (eexists; split; [eassumption | repeat constructor]).
  - exists []. rewrite app_nil_r. split; [reflexivity | constructor].
  - match goal with IH : exists _, _ |- _ => destruct IH as (evs & Hlog & Hq) end.
    eexists. split.
    + rewrite Hlog.
      repeat match goal with H : log _ = _ |- _ => rewrite H; clear H end.
      rewrite <- !app_assoc. reflexivity.
    + repeat constructor. exact Hq.
Qed.

Lemma send_message_quietly (user_uuid reply : pystr) :
  quietly (send_message respond user_uuid reply).
Proof. apply send_message_from_quietly. Qed.

Lemma fal_fetch_result_quietly (request_id : pystr) :
  quietly (fal_fetch_result respond request_id).
Proof. unfold fal_fetch_result. quiet. Qed.

Lemma fal_poll_from_quietly (request_id : pystr) (waited_time : nat) :
  quietly (fal_poll_from respond request_id waited_time).
Proof.
  intros s. funelim (fal_poll_from respond request_id waited_time s);
    cbn [fst snd]; performed;
    try (eexists; split; [eassumption | repeat constructor]).
  - exists []. rewrite app_nil_r. split; [reflexivity | constructor].
  - match goal with
    | H : log ?s1 = log ?s0 ++ _ |- context [fal_fetch_result _ _ ?s1] =>
        destruct (fal_fetch_result_quietly request_id s1) as (evs & Hlog & Hq);
        eexists; split; [rewrite Hlog, H, <- app_assoc; reflexivity|]
    end.
    repeat constructor. exact Hq.
  - match goal with IH : exists _, _ |- _ => destruct IH as (evs & Hlog & Hq) end.
    eexists. split.
    + rewrite Hlog.
      repeat match goal with H : log _ = _ |- _ => rewrite H; clear H end.
      rewrite <- !app_assoc. reflexivity.
    + repeat constructor. exact Hq.
Qed.

Lemma generate_response_with_llm_quietly (user_message user_handle context : pystr) :
  quietly (generate_response_with_llm respond self_account
             user_message user_handle context).
Proof.
  unfold generate_response_with_llm, generate_response_attempt,
    generate_response_with_openai, generate_response_with_fal_ai.
  pose proof fal_poll_from_quietly. quiet.
Qed.

Lemma respond_to_messages_quietly (sub : subscriber) (new_messages : list message) :
  quietly (respond_to_messages respond self_account sub new_messages).
Proof.
  unfold respond_to_messages. apply quietly_bind.
  { apply quietly_perform. intros; reflexivity. }
  intros chat_history.
  induction new_messages as [|msg rest IH]; cbn [for_each]; [apply quietly_ret|].
  apply quietly_bind; [|intros; exact IH].
  unfold respond_to_message, build_conversation_context_io.
  pose proof generate_response_with_llm_quietly.
  pose proof send_message_quietly. quiet.
Qed.

Lemma check_for_unanswered_messages_io_fetches (sub : subscriber) :
  extends (check_for_unanswered_messages_io respond sub)
    (fun _ evs => checked_subscribers evs = [sub_uuid sub]).
Proof.
  unfold check_for_unanswered_messages_io.
  eapply (extends_bind _ _ (fun _ evs => checked_subscribers evs = [sub_uuid sub])
            (fun _ _ evs => Forall quiet_event evs)).
  - apply extends_perform. reflexivity.
  - intros messages. change (quietly
      (match messages with
       | [] => ret []
       | _ :: _ =>
           bind (perform respond GetCurrentUser) (fun my_uuid =>
           bind get_self (fun me =>
           let '(unanswered_messages, me') :=
             check_for_unanswered_messages my_uuid (sub_uuid sub) messages me in
           bind (put_self me') (fun _ => ret unanswered_messages)))
       end)).
    assert (Hget : quietly (World:=World) get_self).
    { intros s. exists []. rewrite app_nil_r. split; [reflexivity | constructor]. }
    assert (Hput : forall r, quietly (World:=World) (put_self r)).
    { intros r s. exists []. rewrite app_nil_r. split; [reflexivity | constructor]. }
    quiet.
  - intros a b e1 e2 H1 H2. cbv beta in *.
    rewrite checked_subscribers_app, H1, (checked_subscribers_quiet e2 H2).
    reflexivity.
Qed.

Lemma check_each_subscriber_fetches (subscribers : list subscriber) (count : nat) :
  extends (check_each_subscriber respond self_account subscribers count)
    (fun _ evs => checked_subscribers evs = map sub_uuid subscribers).
Proof.
  revert count. induction subscribers as [|sub rest IH]; intros count;
    cbn [check_each_subscriber].
  { apply extends_ret. reflexivity. }
  eapply (extends_bind _ _ _ (fun _ _ evs => checked_subscribers evs = map sub_uuid rest)).
  - apply check_for_unanswered_messages_io_fetches.
  - intros [|m unanswered]; [apply IH|].
    eapply (extends_bind _ _ (fun _ evs => Forall quiet_event evs)
              (fun _ _ evs => checked_subscribers evs = map sub_uuid rest)).
    + apply respond_to_messages_quietly.
    + intros _. apply IH.
    + intros _ b e1 e2 H1 H2.
      rewrite checked_subscribers_app, (checked_subscribers_quiet e1 H1). exact H2.
  - intros a b e1 e2 H1 H2. cbv beta in *.
    rewrite checked_subscribers_app, H1, H2. reflexivity.
Qed.

Lemma monitor_single_cycle_fetches (s : machine World) :
  checked_subscribers
    (new_events (log s) (log (snd (monitor_single_cycle respond self_account s))))
  = map sub_uuid (fst (respond _ GetSubscribers (world s))).
Proof.
  unfold monitor_single_cycle, bind at 1.
  destruct (perform respond GetSubscribers s) as [subscribers s1] eqn:Hsubs.
  assert (Hfst : fst (respond _ GetSubscribers (world s)) = subscribers).
  { unfold perform in Hsubs. destruct (respond _ GetSubscribers (world s)).
    injection Hsubs as -> _. reflexivity. }
  apply perform_inv in Hsubs as [_ Hlog1]. rewrite Hfst.
  destruct subscribers as [|sub rest].
  { cbn [ret snd]. unfold new_events. rewrite Hlog1, drop_app_length. reflexivity. }
  unfold bind.
  destruct (check_each_subscriber_fetches (sub :: rest) 0 s1) as (evs & Hlog2 & Hchecked).
  destruct (check_each_subscriber respond self_account (sub :: rest) 0 s1)
    as [count s2]. cbn [fst snd] in *.
  unfold get_self. destruct (perform respond (SaveState (self s2)) s2) as [u s3] eqn:Hsave.
  apply perform_inv in Hsave as [_ Hlog3]. cbn [ret snd].
  unfold new_events. rewrite Hlog3, Hlog2, Hlog1, <- !app_assoc, drop_app_length.
  rewrite !checked_subscribers_app, Hchecked. cbn. f_equal. apply app_nil_r.
Qed.

Lemma send_log_attempts (user_uuid reply : pystr) (retries : nat) (final : list event) :
  length (omap post_attempt (send_log user_uuid reply retries final))
  = retries + length (omap post_attempt final).
Proof.
  unfold send_log. rewrite omap_app, length_app. f_equal.
  induction retries as [|n IH]; [reflexivity|].
  cbn [replicate concat]. rewrite omap_app, length_app, IH. reflexivity.
Qed.

(** C6: [send_message] makes at most 3 attempts; an attempt is repeated only
    after a rate-limit answer (status 429) and a cool-down of 60 seconds;
    any other error ends it at once with failure; three rate-limit answers
    end it with failure, returned and not raised; and the monitoring cycle
    goes on to check every subscriber of the list, whatever the sends
    before returned. *)
Theorem dispatch_retries_on_rate_limit_only
    (user_uuid reply : pystr) (s s0 : machine World) :
  let sent := send_message respond user_uuid reply s in
  let attempts := new_events (log s) (log (snd sent)) in
  let cycle := monitor_single_cycle respond self_account s0 in
  length (omap post_attempt attempts) <= max_retries
  /\ (exists (retries : nat) (final : list event),
        attempts = send_log user_uuid reply retries final
        /\ ((retries = max_retries /\ final = [] /\ fst sent = false)
            \/ (retries < max_retries
                /\ final = [Event (PostMessage user_uuid reply) (Ret tt)]
                /\ fst sent = true)
            \/ (retries < max_retries
                /\ (exists e, e <> HTTPError 429
                      /\ final = [Event (PostMessage user_uuid reply) (Raise e)])
                /\ fst sent = false)))
  /\ checked_subscribers (new_events (log s0) (log (snd cycle)))
     = map sub_uuid (fst (respond _ GetSubscribers (world s0))).
Proof.
  intros sent attempts cycle.
  destruct (send_message_from_shape user_uuid reply 0 s)
    as (_ & retries & final & Hlog & Hcases); [unfold max_retries; lia|].
  fold (send_message respond user_uuid reply s) in Hlog, Hcases.
  fold sent in Hlog, Hcases.
  assert (Hattempts : attempts = send_log user_uuid reply retries final).
  { unfold attempts, new_events. rewrite Hlog, drop_app_length. reflexivity. }
  cbn [Nat.add] in Hcases.
  split; [|split; [exists retries, final; split; [exact Hattempts | exact Hcases]|]].
  - rewrite Hattempts, send_log_attempts.
    unfold max_retries in *.
    destruct Hcases as [(-> & -> & _)|[(? & -> & _)|(? & (e & _ & ->) & _)]];
      simpl; lia.
  - apply monitor_single_cycle_fetches.
Qed.

(** ** Failures of the generation backends *)

Lemma fal_fetch_result_sound (request_id : pystr) :
  extends (fal_fetch_result respond request_id)
    (fun r evs =>
       match r with
       | Ret _ => Forall (fun ev => failure_event ev = false) evs
                  /\ List.filter pending_poll evs = []
       | Raise _ => True
       end).
Proof.
  intros s. unfold fal_fetch_result, bind.
  destruct (perform respond (FalResult request_id) s) as [r s1] eqn:Hr.
  performed. destruct r as [final_result|e]; cbn [ret fst snd].
  - destruct (truthy (fal_error final_result)) eqn:Herr;
      [eexists; split; [eassumption | exact I]|].
    destruct (fal_output final_result) as [output|] eqn:Hout;
      cbn [ret fst snd]; eexists; (split; [eassumption|]); [|exact I].
    split; [|reflexivity]. repeat constructor.
    unfold failure_event. cbn. rewrite Herr, Hout. reflexivity.
  - eexists; split; [eassumption | exact I].
Qed.

Lemma fal_poll_from_sound (request_id : pystr) (waited_time : nat) :
  extends (fal_poll_from respond request_id waited_time) (sound waited_time).
Proof.
  intros s. funelim (fal_poll_from respond request_id waited_time s);
    cbn [fst snd]; performed;
    try (eexists; split; [first [eassumption | symmetry; apply app_nil_r] | exact I]).
  - (* COMPLETED: the result is fetched *)
    match goal with
    | H : log ?s1 = log ?s0 ++ _ |- context [fal_fetch_result _ _ ?s1] =>
        destruct (fal_fetch_result_sound request_id s1) as (evs & Hlog & Hs);
        eexists; split; [rewrite Hlog, H, <- app_assoc; reflexivity|]
    end.
    destruct (fal_fetch_result respond request_id s1) as [[reply|e] s2];
      cbn [fst snd] in *; [|exact I].
    destruct Hs as [Hok Hpending].
    match goal with
    | H : eqb ?status (str "COMPLETED") = true |- _ =>
        apply eqb_true in H; subst status
    end.
    split.
    + constructor; [reflexivity | exact Hok].
    + cbn [app List.filter].
      match goal with
      | |- context [pending_poll ?ev] => change (pending_poll ev) with false
      end.
      cbv iota. rewrite Hpending.
      unfold max_wait_time, poll_interval in *. simpl. lia.
  - (* still pending: sleep, then poll again *)
    match goal with IH : exists _, _ |- _ => destruct IH as (evs & Hlog & Hs) end.
    eexists. split.
    + rewrite Hlog.
      repeat match goal with H : log _ = _ |- _ => rewrite H; clear H end.
      rewrite <- !app_assoc. reflexivity.
    + destruct (fal_poll_from respond request_id (waited_time + poll_interval) s2)
        as [[reply|e] s3]; cbn [fst snd sound] in *; [|exact I].
      destruct Hs as [Hok Hpending].
      assert (Hpoll : forall status,
                 eqb status (str "COMPLETED") = false ->
                 eqb status (str "FAILED") = false ->
                 failure_event (Event (FalStatus request_id) (Ret status)) = false
                 /\ pending_poll (Event (FalStatus request_id) (Ret status)) = true).
      { intros st Hc Hf. unfold failure_event, pending_poll.
        cbn [failure_answer pending_answer ev_call ev_answer].
        rewrite Hc, Hf. split; reflexivity. }
      match goal with
      | Hc : eqb ?st (str "COMPLETED") = false,
        Hf : eqb ?st (str "FAILED") = false |- _ =>
          destruct (Hpoll st Hc Hf) as [Hfailure Hp]
      end.
      split.
      * constructor; [exact Hfailure|]. constructor; [reflexivity | exact Hok].
      * cbn [app List.filter]. rewrite Hp.
        match goal with
        | |- context [pending_poll ?ev] => change (pending_poll ev) with false
        end.
        cbv iota. cbn [length]. unfold max_wait_time, poll_interval in *. lia.
Qed.

Lemma generate_response_with_openai_sound (user_prompt system_prompt : pystr) :
  extends (generate_response_with_openai respond user_prompt system_prompt) (sound 0).
Proof.
  intros s. unfold generate_response_with_openai, bind.
  destruct (perform respond (OpenAIChat user_prompt system_prompt) s)
    as [response s1] eqn:Hresponse.
  performed.
  destruct response as [[|[content|] choices]|e]; cbn [ret fst snd];
    eexists; (split; [eassumption|]); try exact I.
  split; [repeat constructor | unfold max_wait_time; simpl; lia].
Qed.

Lemma generate_response_with_fal_ai_sound (user_prompt system_prompt model : pystr) :
  extends (generate_response_with_fal_ai respond user_prompt system_prompt model)
    (sound 0).
Proof.
  unfold generate_response_with_fal_ai.
  apply (extends_bind _ _
           (fun submit evs => evs = [Event (FalSubmit user_prompt system_prompt model) submit])
           (fun submit r evs =>
              match submit, r with
              | Ret _, _ => sound 0 r evs
              | Raise _, Raise _ => True
              | Raise _, Ret _ => False
              end)).
  - apply extends_perform. reflexivity.
  - intros [request_id|e]; [apply fal_poll_from_sound | apply extends_ret; exact I].
  - intros [request_id|e] [reply|e'] e1 e2 -> H; try exact I; try contradiction.
    destruct H as [Hok Hpending]. split; [constructor; [reflexivity | exact Hok]|].
    exact Hpending.
Qed.

Lemma generate_response_attempt_sound (user_message user_handle context : pystr) :
  extends (generate_response_attempt respond self_account
             user_message user_handle context) (sound 0).
Proof.
  unfold generate_response_attempt.
  apply (extends_bind _ _
           (fun lookup evs => evs = [Event GetAccountById lookup])
           (fun lookup r evs =>
              match lookup, r with
              | Ret _, _ => sound 0 r evs
              | Raise _, Raise _ => True
              | Raise _, Ret _ => False
              end)).
  - apply extends_perform. reflexivity.
  - intros [latest_account|e]; [|apply extends_ret; exact I].
    destruct latest_account as [latest|]; cbv beta iota;
      match goal with
      | |- extends (if ?b then _ else _) _ => destruct b
      end;
      first [apply generate_response_with_openai_sound
            | apply generate_response_with_fal_ai_sound].
  - intros [latest_account|e] [reply|e'] e1 e2 -> H; try exact I; try contradiction.
    destruct H as [Hok Hpending]. split; [constructor; [reflexivity | exact Hok]|].
    exact Hpending.
Qed.

Lemma sound_not_failed (reply : pystr) (evs : list event) :
  sound 0 (Ret reply) evs -> backend_failed evs = false.
Proof.
  intros [Hok Hpending]. unfold backend_failed.
  apply orb_false_intro.
  - clear Hpending.
    induction Hok as [|ev evs Hev _ IH]; [reflexivity|]. simpl. rewrite Hev. exact IH.
  - apply Nat.leb_gt.
    change polls_until_timeout with 30.
    unfold max_wait_time, poll_interval in *. lia.
Qed.

(** C7: when a backend of reply generation fails (the account look-up, the
    submission, a poll or the result fetch raises, the status is FAILED, the
    result carries an error or no output, the request is still pending when
    the time-out is reached, or the chat completion fails),
    [generate_response_with_llm] returns the generic acknowledgement
    addressed to the subscriber's handle; the exception does not reach the
    caller. *)
Theorem generation_failure_yields_acknowledgement
    (user_message user_handle context : pystr) (s : machine World) :
  let run := generate_response_with_llm respond self_account
               user_message user_handle context s in
  backend_failed (new_events (log s) (log (snd run))) = true ->
  fst run
  = str "Thank you for your message, " ++ user_handle
    ++ str "! I appreciate you reaching out. How are you doing today? "
    ++ [128149%N].
Proof.
  intros run Hfailed. subst run. revert Hfailed.
  unfold generate_response_with_llm, bind.
  destruct (generate_response_attempt_sound user_message user_handle context s)
    as (evs & Hlog & Hsound).
  destruct (generate_response_attempt respond self_account
              user_message user_handle context s) as [[reply|e] s1];
    cbn [ret fst snd] in *; [|reflexivity].
  unfold new_events. rewrite Hlog, drop_app_length.
  rewrite (sound_not_failed reply evs Hsound). discriminate.
Qed.

End MachineFacts.

(** With every send to alice rate-limited, the cycle makes its three
    attempts for her, then serves bob, and counts both messages. *)
Example rate_limited_subscriber_does_not_hold_up_the_next :
  let cycle := monitor_single_cycle rate_limiting_world no_account
                 (start fresh_responder) in
  fst cycle = 2
  /\ omap post_attempt (log (snd cycle))
     = [ (str "alice-id", Raise (HTTPError 429));
         (str "alice-id", Raise (HTTPError 429));
         (str "alice-id", Raise (HTTPError 429));
         (str "bob-id", Ret tt) ]
  /\ checked_subscribers (log (snd cycle)) = [str "alice-id"; str "bob-id"].
Proof. vm_compute. repeat split. Qed.

Lemma generation_failure_yields_acknowledgement_witness :
  let run := generate_response_with_llm rate_limiting_world no_account
               (str "hi") (str "alice") [] (start fresh_responder) in
  backend_failed (new_events [] (log (snd run))) = true
  /\ fst run
     = str "Thank you for your message, " ++ str "alice"
       ++ str "! I appreciate you reaching out. How are you doing today? "
       ++ [128149%N].
Proof.
  split; [reflexivity|].
  apply (generation_failure_yields_acknowledgement rate_limiting_world no_account
           (str "hi") (str "alice") [] (start fresh_responder)).
  reflexivity.
Defined.

(** A request that never completes is polled 30 times, two seconds apart,
    and then answered with the generic acknowledgement. *)
Example stalled_generation_times_out :
  let run := generate_response_with_llm stalled_world no_account
               (str "hi") (str "alice") [] (start fresh_responder) in
  length (List.filter pending_poll (log (snd run))) = 30
  /\ existsb failure_event (log (snd run)) = false
  /\ backend_failed (log (snd run)) = true
  /\ fst run = generic_acknowledgement (str "alice").
Proof. vm_compute. repeat split. Qed.

(* ===================================================================== *)
(** * Further properties of resolution *)
(* ===================================================================== *)

Section TargetFacts.
Variables my_uuid user_uuid : pystr.

(** Past the early returns, the returned list is the latest of the new
    subscriber messages, if there is one. *)
Lemma check_returns_latest_new (fetched : list message) (self : responder) :
  fetched <> [] ->
  most_recent_is_ours my_uuid (py_sorted sentAt fetched) = false ->
  fst (check_for_unanswered_messages my_uuid user_uuid fetched self)
  = match last (py_sorted sentAt
                  (List.filter
                     (is_new_subscriber_message my_uuid self
                        (last_timestamp self user_uuid))
                     (py_sorted sentAt fetched))) with
    | Some latest => [latest]
    | None => []
    end.
Proof.
  intros Hne Hours. destruct fetched as [|m fetched]; [contradiction|].
  unfold check_for_unanswered_messages. rewrite Hours.
  destruct (last _); reflexivity.
Qed.

Lemma new_message_facts (self : responder) (stored : pystr) (m : message) :
  is_new_subscriber_message my_uuid self stored m = true ->
  sender_uuid m <> my_uuid
  /\ (strip (text m) <> [])
  /\ (uuid m ∉ processed_messages self)
  /\ (stored <> [] -> ltb stored (sentAt m) = true).
Proof.
  unfold is_new_subscriber_message.
  destruct (eqb (sender_uuid m) my_uuid) eqn:Hs; [discriminate|].
  destruct (truthy (strip (text m))) eqn:Ht; [|discriminate].
  destruct (bool_decide (uuid m ∈ processed_messages self)) eqn:Hp; [discriminate|].
  cbn [negb orb].
  destruct (truthy stored && leb (sentAt m) stored) eqn:Hold; [discriminate|].
  intros _. split; [|split; [|split]].
  - intros H. apply eqb_true in H. congruence.
  - intros H. rewrite H in Ht. discriminate.
  - apply bool_decide_eq_false in Hp. exact Hp.
  - intros Hstored. rewrite ltb_leb.
    destruct stored; [contradiction|]. simpl in Hold. rewrite Hold. reflexivity.
Qed.

Lemma filter_elem {A} (f : A -> bool) (l : list A) (x : A) :
  x ∈ List.filter f l <-> x ∈ l /\ f x = true.
Proof. rewrite !list_elem_of_In. apply filter_In. Qed.

Lemma check_target_inv (fetched : list message) (self : responder) (target : message) :
  target ∈ fst (check_for_unanswered_messages my_uuid user_uuid fetched self) ->
  fst (check_for_unanswered_messages my_uuid user_uuid fetched self) = [target]
  /\ target ∈ fetched
  /\ is_new_subscriber_message my_uuid self (last_timestamp self user_uuid) target
     = true
  /\ forall m, m ∈ fetched ->
       is_new_subscriber_message my_uuid self (last_timestamp self user_uuid) m = true ->
       leb (sentAt m) (sentAt target) = true.
Proof.
  intros Hin.
  destruct (decide (fetched = [])) as [->|Hne]; [inversion Hin|].
  destruct (most_recent_is_ours my_uuid (py_sorted sentAt fetched)) eqn:Hours.
  { rewrite check_early_return in Hin by (right; exact Hours). inversion Hin. }
  rewrite (check_returns_latest_new fetched self Hne Hours) in Hin |- *.
  destruct (last _) as [latest|] eqn:Hlast; [|inversion Hin].
  apply list_elem_of_singleton in Hin. subst latest.
  apply last_py_sorted_latest in Hlast as [Hmem Hmax].
  apply filter_elem in Hmem as [Hmem Hnew]. apply py_sorted_elem in Hmem.
  repeat split; try assumption.
  intros m Hm Hmnew. apply Hmax. apply filter_elem. split; [|exact Hmnew].
  apply py_sorted_elem, Hm.
Qed.

(** X1: a message returned by [check_for_unanswered_messages] is the only
    one returned; it is a fetched message of the subscriber with a non-blank
    text, whose id was not yet processed and now is, sent strictly after the
    stored timestamp when one is stored, and no other such message is
    newer. *)
Theorem returned_target_is_latest_new_message
    (fetched : list message) (self : responder) (target : message) :
  let run := check_for_unanswered_messages my_uuid user_uuid fetched self in
  target ∈ fst run ->
  fst run = [target]
  /\ target ∈ fetched
  /\ sender_uuid target <> my_uuid
  /\ (strip (text target) <> [])
  /\ (uuid target ∉ processed_messages self)
  /\ uuid target ∈ processed_messages (snd run)
  /\ (last_timestamp self user_uuid <> [] ->
      ltb (last_timestamp self user_uuid) (sentAt target) = true)
  /\ forall m, m ∈ fetched ->
       is_new_subscriber_message my_uuid self (last_timestamp self user_uuid) m = true ->
       leb (sentAt m) (sentAt target) = true.
Proof.
  intros run Hin. subst run.
  destruct (check_target_inv fetched self target Hin) as (Hfst & Hmem & Hnew & Hmax).
  destruct (new_message_facts _ _ _ Hnew) as (Hs & Ht & Hp & Hts).
  repeat split; try assumption.
  pose proof (check_processed my_uuid user_uuid fetched self) as Hproc.
  destruct (check_for_unanswered_messages my_uuid user_uuid fetched self)
    as [unanswered self']. cbn [fst snd] in *. subst unanswered.
  rewrite Hproc. apply elem_of_union_l, elem_of_singleton. reflexivity.
Qed.

(** X2: resolution returns a target exactly when the chronologically last
    message is not the operator's and some fetched message passes the test
    of the collecting loop. *)
Theorem target_returned_iff_new_message (fetched : list message) (self : responder) :
  (fst (check_for_unanswered_messages my_uuid user_uuid fetched self) <> [])
  <-> (most_recent_is_ours my_uuid (py_sorted sentAt fetched) = false
       /\ exists m, m ∈ fetched
            /\ is_new_subscriber_message my_uuid self
                 (last_timestamp self user_uuid) m = true).
Proof.
  split.
  - intros Hne.
    destruct (fst (check_for_unanswered_messages my_uuid user_uuid fetched self))
      as [|target rest] eqn:Hrun; [contradiction|].
    assert (Hin : target ∈ fst (check_for_unanswered_messages my_uuid user_uuid
                                  fetched self)) by (rewrite Hrun; left).
    destruct (check_target_inv fetched self target Hin) as (_ & Hmem & Hnew & _).
    split; [|eauto].
    destruct (most_recent_is_ours my_uuid (py_sorted sentAt fetched)) eqn:Hours;
      [|reflexivity].
    rewrite check_early_return in Hrun by (right; exact Hours). discriminate.
  - intros (Hours & m & Hm & Hnew).
    assert (Hne : fetched <> []) by (intros ->; inversion Hm).
    rewrite (check_returns_latest_new fetched self Hne Hours).
    destruct (last _) as [latest|] eqn:Hlast; [discriminate|].
    apply last_None, py_sorted_nil_inv in Hlast.
    assert (Hin : m ∈ List.filter
                    (is_new_subscriber_message my_uuid self
                       (last_timestamp self user_uuid))
                    (py_sorted sentAt fetched)).
    { apply filter_elem. split; [apply py_sorted_elem, Hm | exact Hnew]. }
    rewrite Hlast in Hin. inversion Hin.
Qed.

(** X3: a resolution pass for one subscriber leaves the stored timestamp of
    every other subscriber as it was. *)
Theorem other_subscribers_keep_their_timestamp
    (fetched : list message) (self : responder) (other : pystr) :
  other <> user_uuid ->
  last_message_timestamps
    (snd (check_for_unanswered_messages my_uuid user_uuid fetched self)) !! other
  = last_message_timestamps self !! other.
Proof.
  intros Hother.
  destruct (decide (fetched = [])) as [->|Hne]; [reflexivity|].
  destruct (most_recent_is_ours my_uuid (py_sorted sentAt fetched)) eqn:Hours.
  { rewrite check_early_return by (right; exact Hours). reflexivity. }
  destruct (check_updates_timestamp my_uuid user_uuid fetched self Hne Hours)
    as (M & _ & ->).
  apply lookup_insert_ne. congruence.
Qed.

Lemma nodup_keys_inj {A} (key : A -> pystr) (l : list A) (x y : A) :
  NoDup (map key l) -> x ∈ l -> y ∈ l -> key x = key y -> x = y.
Proof.
  induction l as [|z l IH]; intros Hnd Hx Hy Hk; [inversion Hx|].
  cbn [map] in Hnd. apply NoDup_cons in Hnd as [Hz Hnd].
  apply elem_of_cons in Hx as [->|Hx]; apply elem_of_cons in Hy as [->|Hy].
  - reflexivity.
  - exfalso. apply Hz. rewrite Hk. apply list_elem_of_fmap. eauto.
  - exfalso. apply Hz. rewrite <- Hk. apply list_elem_of_fmap. eauto.
  - apply IH; assumption.
Qed.

Lemma py_sorted_order_independent (l1 l2 : list message) :
  l1 ≡ₚ l2 -> NoDup (map sentAt l1) ->
  py_sorted sentAt l1 = py_sorted sentAt l2.
Proof.
  intros Hperm Hnd.
  apply (StronglySorted_unique_strong (key_le sentAt)).
  - intros x1 x2 H1 H2 H12 H21.
    apply py_sorted_elem in H1, H2. rewrite <- Hperm in H2.
    apply (nodup_keys_inj sentAt l1); try assumption.
    apply leb_antisym; assumption.
  - apply py_sorted_sorted.
  - apply py_sorted_sorted.
  - rewrite !py_sorted_perm. exact Hperm.
Qed.

(** X4: when the fetched messages carry pairwise distinct sent-at
    timestamps, the order in which the transport delivers them does not
    matter: any two orders give the same targets and the same state. *)
Theorem fetch_order_is_irrelevant
    (fetched1 fetched2 : list message) (self : responder) :
  fetched1 ≡ₚ fetched2 ->
  NoDup (map sentAt fetched1) ->
  check_for_unanswered_messages my_uuid user_uuid fetched1 self
  = check_for_unanswered_messages my_uuid user_uuid fetched2 self.
Proof.
  intros Hperm Hnd.
  pose proof (py_sorted_order_independent fetched1 fetched2 Hperm Hnd) as Hsorted.
  destruct fetched1 as [|m1 l1], fetched2 as [|m2 l2].
  - reflexivity.
  - apply Permutation_nil_l in Hperm. discriminate.
  - apply Permutation_nil_r in Hperm. discriminate.
  - unfold check_for_unanswered_messages. rewrite Hsorted. reflexivity.
Qed.
End TargetFacts.

Lemma returned_target_is_latest_new_message_witness :
  let fetched := [ Message (str "3") (str "sub") (str "10:02") (str "you there?");
                   Message (str "1") (str "sub") (str "10:00") (str "hi") ] in
  let target := Message (str "3") (str "sub") (str "10:02") (str "you there?") in
  target ∈ fst (check_for_unanswered_messages (str "op") (str "sub") fetched
                  fresh_responder)
  /\ fst (check_for_unanswered_messages (str "op") (str "sub") fetched
            fresh_responder) = [target].
Proof.
  split; [left|].
  apply (returned_target_is_latest_new_message (str "op") (str "sub")). left.
Defined.

Lemma other_subscribers_keep_their_timestamp_witness :
  let self := {| last_message_timestamps := {[ str "bob-id" := str "09:00" ]};
                 processed_messages := ∅ |} in
  str "bob-id" <> str "sub"
  /\ last_message_timestamps
       (snd (check_for_unanswered_messages (str "op") (str "sub")
               [ Message (str "1") (str "sub") (str "10:00") (str "hi") ] self))
       !! str "bob-id"
     = Some (str "09:00").
Proof.
  split; [discriminate|].
  rewrite (other_subscribers_keep_their_timestamp (str "op") (str "sub")).
  - reflexivity.
  - discriminate.
Defined.

Lemma fetch_order_is_irrelevant_witness :
  let a := Message (str "1") (str "sub") (str "10:00") (str "hi") in
  let b := Message (str "2") (str "op") (str "10:01") (str "hello") in
  let c := Message (str "3") (str "sub") (str "10:02") (str "you there?") in
  [c; a; b] ≡ₚ [a; b; c]
  /\ NoDup (map sentAt [c; a; b])
  /\ check_for_unanswered_messages (str "op") (str "sub") [c; a; b] fresh_responder
     = check_for_unanswered_messages (str "op") (str "sub") [a; b; c] fresh_responder.
Proof.
  assert (Hperm : [ Message (str "3") (str "sub") (str "10:02") (str "you there?");
                    Message (str "1") (str "sub") (str "10:00") (str "hi");
                    Message (str "2") (str "op") (str "10:01") (str "hello") ]
                  ≡ₚ [ Message (str "1") (str "sub") (str "10:00") (str "hi");
                       Message (str "2") (str "op") (str "10:01") (str "hello");
                       Message (str "3") (str "sub") (str "10:02") (str "you there?") ]).
  { etransitivity; [apply Permutation_swap|]. apply Permutation_skip, Permutation_swap. }
  assert (Hnd : NoDup (map sentAt
                  [ Message (str "3") (str "sub") (str "10:02") (str "you there?");
                    Message (str "1") (str "sub") (str "10:00") (str "hi");
                    Message (str "2") (str "op") (str "10:01") (str "hello") ])).
  { apply (bool_decide_unpack _). vm_compute. exact I. }
  split; [exact Hperm|]. split; [exact Hnd|].
  apply (fetch_order_is_irrelevant (str "op") (str "sub")); assumption.
Defined.

(* ===================================================================== *)
(** * The state file *)
(* ===================================================================== *)

Lemma list_to_set_iteration_order (iteration_order : list pystr) (X : gset pystr) :
  iteration_order ≡ₚ elements X -> list_to_set iteration_order = X.
Proof. intros ->. apply list_to_set_elements_L. Qed.

Lemma responder_eta (self : responder) :
  {| last_message_timestamps := last_message_timestamps self;
     processed_messages := processed_messages self |} = self.
Proof. destruct self. reflexivity. Qed.

Lemma load_of_save (iteration_order : list pystr) (self previous : responder) :
  iteration_order ≡ₚ elements (processed_messages self) ->
  load_state (Loaded (save_state iteration_order self)) previous = self.
Proof.
  intros Hperm.
  change (load_state (Loaded (save_state iteration_order self)) previous)
    with {| last_message_timestamps := last_message_timestamps self;
            processed_messages := list_to_set iteration_order |}.
  rewrite (list_to_set_iteration_order _ _ Hperm). apply responder_eta.
Qed.

(** X5: what [save_state] writes, [load_state] reads back: whatever order
    the set of processed ids was listed in, and whatever the responder held
    before loading, the loaded timestamps and processed ids are the saved
    ones. *)
Theorem state_survives_save_and_load
    (iteration_order : list pystr) (self previous : responder) :
  iteration_order ≡ₚ elements (processed_messages self) ->
  load_state (Loaded (save_state iteration_order self)) previous = self.
Proof. apply load_of_save. Qed.

Lemma state_survives_save_and_load_witness :
  let self := {| last_message_timestamps := {[ str "sub" := str "10:00" ]};
                 processed_messages := {[ str "1"; str "3" ]} |} in
  elements (processed_messages self) ≡ₚ elements (processed_messages self)
  /\ load_state (Loaded (save_state (elements (processed_messages self)) self))
       fresh_responder = self.
Proof.
  split; [reflexivity|].
  apply (state_survives_save_and_load
           (elements (processed_messages
              {| last_message_timestamps := {[ str "sub" := str "10:00" ]};
                 processed_messages := {[ str "1"; str "3" ]} |}))).
  reflexivity.
Defined.

Lemma cleanup_size (iteration_order : list pystr) (self : responder) :
  iteration_order ≡ₚ elements (processed_messages self) ->
  size (processed_messages (cleanup_old_processed_messages iteration_order self))
  = Nat.min (size (processed_messages self)) max_processed.
Proof.
  intros Hperm. unfold cleanup_old_processed_messages.
  destruct (Nat.ltb_spec max_processed (size (processed_messages self)));
    cbn [processed_messages]; [|lia].
  assert (Hnodup : NoDup iteration_order)
    by (rewrite Hperm; apply NoDup_elements).
  assert (Hlen : length iteration_order = size (processed_messages self)).
  { rewrite Hperm. reflexivity. }
  rewrite size_list_to_set.
  - unfold last_n. rewrite length_drop. lia.
  - unfold last_n. exact (sublist_NoDup _ _ Hnodup (sublist_drop _ _)).
Qed.

(** X6: a restart keeps what was saved, up to the bound: a responder
    constructed from the file another wrote has the saved timestamps, and of
    the saved processed ids all when they are at most 1000, and otherwise
    exactly 1000 of them. *)
Theorem restart_restores_saved_state
    (saved_order loaded_order : list pystr) (self : responder) :
  saved_order ≡ₚ elements (processed_messages self) ->
  loaded_order ≡ₚ elements (processed_messages self) ->
  let restarted := init (Loaded (save_state saved_order self)) loaded_order in
  last_message_timestamps restarted = last_message_timestamps self
  /\ processed_messages restarted ⊆ processed_messages self
  /\ size (processed_messages restarted)
     = Nat.min (size (processed_messages self)) max_processed
  /\ (size (processed_messages self) <= max_processed -> restarted = self).
Proof.
  intros Hsaved Hloaded restarted. subst restarted. unfold init.
  rewrite (load_of_save saved_order self fresh_responder Hsaved).
  split; [|split; [|split]].
  - unfold cleanup_old_processed_messages. destruct (_ <? _)%nat; reflexivity.
  - apply cleanup_subset, Hloaded.
  - apply cleanup_size, Hloaded.
  - intros Hsmall. unfold cleanup_old_processed_messages.
    destruct (Nat.ltb_spec max_processed (size (processed_messages self)));
      [lia | reflexivity].
Qed.

Lemma restart_restores_saved_state_witness :
  let self := after_one_message_each 1001 in
  let order := elements (processed_messages self) in
  order ≡ₚ elements (processed_messages self)
  /\ size (processed_messages (init (Loaded (save_state order self)) order))
     = Nat.min (size (processed_messages self)) max_processed.
Proof.
  split; [reflexivity|].
  exact (proj1 (proj2 (proj2
           (restart_restores_saved_state
              (elements (processed_messages (after_one_message_each 1001)))
              (elements (processed_messages (after_one_message_each 1001)))
              (after_one_message_each 1001)
              (reflexivity _) (reflexivity _))))).
Defined.

(* ===================================================================== *)
(** * Further properties of the account monitor *)
(* ===================================================================== *)

Module AccountMonitorInvariants.
Import AccountMonitor.

Lemma monitor_from_invariant (outcomes : list cycle_outcome) (m : monitor) :
  stopped m = false ->
  consecutive_errors m < max_consecutive_errors ->
  let m' := monitor_from outcomes m in
  consecutive_errors m' <= max_consecutive_errors
  /\ (stopped m' = true <-> consecutive_errors m' = max_consecutive_errors)
  /\ cycles_run m' <= cycles_run m + length outcomes
  /\ (stopped m' = false -> cycles_run m' = cycles_run m + length outcomes)
  /\ consecutive_errors m' <= consecutive_errors m + failures outcomes.
Proof.
  revert m. unfold max_consecutive_errors.
  induction outcomes as [|o rest IH]; intros m Hrun Hlt; cbv zeta.
  - cbn [monitor_from length]. rewrite Hrun.
    split; [lia|]. split; [split; [discriminate | lia]|].
    split; [lia|]. split; [lia | lia].
  - cbn [monitor_from]. destruct o as [message_count|].
    + (* the cycle returned *)
      cbn [monitor_cycle stopped].
      set (m1 := {| consecutive_errors := _; stopped := false; cycles_run := _ |}).
      assert (Hc1 : consecutive_errors m1 <= consecutive_errors m).
      { subst m1. destruct message_count; cbn; lia. }
      assert (Hr1 : cycles_run m1 = S (cycles_run m)) by reflexivity.
      destruct (IH m1 eq_refl ltac:(lia)) as (H1 & H2 & H3 & H4 & H5).
      change (failures (Returned message_count :: rest)) with (failures rest).
      cbn [length].
      split; [exact H1|]. split; [exact H2|]. split; [lia|].
      split; [intros Hs; rewrite (H4 Hs); lia | lia].
    + (* the cycle raised *)
      cbn [monitor_cycle stopped].
      change (failures (Raised :: rest)) with (S (failures rest)).
      destruct (Nat.leb_spec max_consecutive_errors (S (consecutive_errors m)))
        as [Hstop|Hgo]; unfold max_consecutive_errors in *.
      * cbn [consecutive_errors stopped cycles_run length].
        split; [lia|]. split; [split; [lia | reflexivity]|].
        split; [lia|]. split; [discriminate | lia].
      * set (m1 := {| consecutive_errors := S (consecutive_errors m);
                      stopped := false; cycles_run := S (cycles_run m) |}).
        assert (Hc1 : consecutive_errors m1 = S (consecutive_errors m)) by reflexivity.
        assert (Hr1 : cycles_run m1 = S (cycles_run m)) by reflexivity.
        destruct (IH m1 eq_refl ltac:(lia)) as (H1 & H2 & H3 & H4 & H5).
        cbn [length].
        split; [exact H1|]. split; [exact H2|]. split; [lia|].
        split; [intros Hs; rewrite (H4 Hs); lia | lia].
Qed.

(** X7: with fewer than 5 exceptions in all, however they are spread, the
    monitor never stops by itself: every cycle runs. *)
Theorem fewer_than_five_failures_never_stop (outcomes : list cycle_outcome) :
  failures outcomes < max_consecutive_errors ->
  stopped (monitor_account_continuously outcomes) = false
  /\ cycles_run (monitor_account_continuously outcomes) = length outcomes.
Proof.
  intros Hfew. unfold monitor_account_continuously.
  destruct (monitor_from_invariant outcomes initial eq_refl)
    as (H1 & H2 & H3 & H4 & H5); [unfold max_consecutive_errors; cbn; lia|].
  cbn [initial cycles_run consecutive_errors Nat.add] in *.
  assert (Hs : stopped (monitor_from outcomes initial) = false).
  { destruct (stopped (monitor_from outcomes initial)) eqn:Hs; [|reflexivity].
    destruct H2 as [H2 _]. specialize (H2 eq_refl). lia. }
  split; [exact Hs | apply H4, Hs].
Qed.

Lemma fewer_than_five_failures_never_stop_witness :
  failures [Raised; Raised; Returned 0; Raised; Raised; Returned 0]
    < max_consecutive_errors
  /\ stopped (monitor_account_continuously
               [Raised; Raised; Returned 0; Raised; Raised; Returned 0]) = false.
Proof.
  split; [unfold max_consecutive_errors; cbn; lia|].
  apply (fewer_than_five_failures_never_stop
           [Raised; Raised; Returned 0; Raised; Raised; Returned 0]).
  unfold max_consecutive_errors. cbn. lia.
Defined.

(** X8: whatever the cycles do, the counter never passes 5; the monitor has
    stopped exactly when the counter reads 5; it never runs more cycles than
    there are, and runs them all unless it stopped; and the counter never
    exceeds the number of exceptions. *)
Theorem monitor_counter_invariant (outcomes : list cycle_outcome) :
  let m := monitor_account_continuously outcomes in
  consecutive_errors m <= max_consecutive_errors
  /\ (stopped m = true <-> consecutive_errors m = max_consecutive_errors)
  /\ cycles_run m <= length outcomes
  /\ (stopped m = false -> cycles_run m = length outcomes)
  /\ consecutive_errors m <= failures outcomes.
Proof.
  unfold monitor_account_continuously.
  apply (monitor_from_invariant outcomes initial eq_refl).
  unfold max_consecutive_errors. cbn. lia.
Qed.

End AccountMonitorInvariants.

(* ===================================================================== *)
(** * The fetching loops *)
(* ===================================================================== *)

Module TransportFacts.
Import Transport.

Lemma get_chat_messages_from_spec (answers : list (res (list message)))
    (retry_count : nat) :
  max_retries <= retry_count + length answers ->
  retry_count <= max_retries ->
  exists (k : nat) (messages : list message) (steps : list step),
    get_chat_messages_from answers retry_count = (Some messages, steps)
    /\ retry_count + k <= max_retries
    /\ take k answers = replicate k (Raise (HTTPError 429))
    /\ slept steps = replicate k 60%Z
    /\ length (requested steps) = Nat.min (S k) (max_retries - retry_count)
    /\ ((retry_count + k = max_retries /\ messages = [])
        \/ (retry_count + k < max_retries
            /\ (answers !! k = Some (Ret messages)
                \/ exists e, e <> HTTPError 429
                     /\ answers !! k = Some (Raise e) /\ messages = []))).
Proof.
  revert retry_count.
  induction answers as [|answer rest IH]; intros retry_count Hlen Hle;
    cbn [get_chat_messages_from length] in *;
    destruct (Nat.ltb_spec retry_count max_retries) as [Hlt|Hge];
    unfold max_retries in *; try lia.
  - (* no answer is needed: the retries are used up *)
    exists 0, [], []. split; [reflexivity|]. split; [lia|].
    split; [reflexivity|]. split; [reflexivity|]. split; [simpl (length _); lia|].
    left. split; [lia | reflexivity].
  - destruct answer as [data|[status_code|what]].
    + exists 0, data, [Requested 1]. split; [reflexivity|]. split; [lia|].
      split; [reflexivity|]. split; [reflexivity|]. split; [simpl (length _); lia|].
      right. split; [lia|]. left. reflexivity.
    + destruct (Z.eqb_spec status_code 429) as [->|Hne].
      * destruct (IH (S retry_count)) as (k & messages & steps & Hrun & Hk & Htake
                                          & Hslept & Hreq & Hcases); [lia | lia |].
        rewrite Hrun. exists (S k), messages, (Requested 1 :: Slept 60 :: steps).
        split; [reflexivity|]. split; [lia|].
        split; [cbn [take replicate]; rewrite Htake; reflexivity|].
        split; [change (slept (Requested 1 :: Slept 60 :: steps))
                  with (60%Z :: slept steps); rewrite Hslept; reflexivity|].
        split; [change (requested (Requested 1 :: Slept 60 :: steps))
                  with (1 :: requested steps); cbn [length]; rewrite Hreq; lia|].
        change ((Raise (HTTPError 429) :: rest) !! S k) with (rest !! k).
        destruct Hcases as [[H1 H2]|[H1 H2]]; [left | right]; (split; [lia | exact H2]).
      * exists 0, [], [Requested 1]. split; [reflexivity|]. split; [lia|].
        split; [reflexivity|]. split; [reflexivity|]. split; [simpl (length _); lia|].
        right. split; [lia|]. right.
        exists (HTTPError status_code). split; [congruence|]. split; reflexivity.
    + exists 0, [], [Requested 1]. split; [reflexivity|]. split; [lia|].
      split; [reflexivity|]. split; [reflexivity|]. split; [simpl (length _); lia|].
      right. split; [lia|]. right.
      exists (OtherException what). split; [discriminate|]. split; reflexivity.
  - exists 0, [], []. split; [reflexivity|]. split; [lia|].
    split; [reflexivity|]. split; [reflexivity|]. split; [simpl (length _); lia|].
    left. split; [lia | reflexivity].
Qed.

(** X9: given the answers to three requests, [get_chat_messages] returns
    after at most three requests, each but the last followed by a sleep of 60
    seconds and each repeated only after a rate-limit answer; it returns the
    messages of the first answer that is not a rate limit when that answer
    is a page, and the empty list when it is an error or when all three were
    rate-limited: a failed fetch looks like an empty conversation. *)
Theorem get_chat_messages_retries_then_returns_empty
    (answers : list (res (list message))) :
  max_retries <= length answers ->
  exists (k : nat) (messages : list message) (steps : list step),
    get_chat_messages answers = (Some messages, steps)
    /\ k <= max_retries
    /\ take k answers = replicate k (Raise (HTTPError 429))
    /\ slept steps = replicate k 60%Z
    /\ length (requested steps) = Nat.min (S k) max_retries
    /\ ((k = max_retries /\ messages = [])
        \/ (k < max_retries
            /\ (answers !! k = Some (Ret messages)
                \/ exists e, e <> HTTPError 429
                     /\ answers !! k = Some (Raise e) /\ messages = []))).
Proof.
  intros Hlen. unfold get_chat_messages.
  destruct (get_chat_messages_from_spec answers 0)
    as (k & messages & steps & Hrun & Hk & Htake & Hslept & Hreq & Hcases);
    [lia | lia |].
  exists k, messages, steps. rewrite Nat.sub_0_r in Hreq.
  repeat split; try assumption.
Qed.

Lemma get_chat_messages_retries_then_returns_empty_witness :
  let answers := [ Raise (HTTPError 429); Raise (HTTPError 429);
                   Raise (HTTPError 429) ] in
  max_retries <= length answers
  /\ exists (k : nat) (messages : list message) (steps : list step),
       get_chat_messages answers = (Some messages, steps) /\ k <= max_retries.
Proof.
  split; [reflexivity|].
  destruct (get_chat_messages_retries_then_returns_empty
              [ Raise (HTTPError 429); Raise (HTTPError 429); Raise (HTTPError 429) ])
    as (k & messages & steps & Hrun & Hk & _); [reflexivity|].
  exists k, messages, steps. split; assumption.
Defined.

(** Three rate-limit answers in a row: three requests, three sleeps, and the
    empty list. *)
Example get_chat_messages_three_rate_limits :
  get_chat_messages [ Raise (HTTPError 429); Raise (HTTPError 429);
                      Raise (HTTPError 429) ]
  = (Some [], [ Requested 1; Slept 60; Requested 1; Slept 60;
                Requested 1; Slept 60 ]).
Proof. reflexivity. Qed.

Lemma get_subscribers_from_pages (pages : list subscribers_page)
    (final : subscribers_page) (rest : list (res subscribers_page))
    (page : nat) (all_subscribers : list subscriber) :
  Forall (fun p => has_more p = true) pages ->
  has_more final = false ->
  get_subscribers_from (map Ret (pages ++ [final]) ++ rest) page all_subscribers
  = (Some (all_subscribers ++ concat (map page_data (pages ++ [final]))),
     map Requested (seq page (S (length pages)))).
Proof.
  intros Hmore Hfinal. revert page all_subscribers.
  induction Hmore as [|p pages Hp _ IH]; intros page all_subscribers.
  - cbn. rewrite Hfinal, app_nil_r. reflexivity.
  - cbn [app map get_subscribers_from]. rewrite Hp, IH.
    cbn [concat map length seq]. rewrite <- app_assoc. reflexivity.
Qed.

(** X10: when the server answers with pages that all announce more and then
    one that does not, [get_subscribers] requests pages 1, 2, ... once each,
    without sleeping, and returns the subscribers of all of them in page
    order; whatever the server would answer afterwards is not asked for. *)
Theorem get_subscribers_collects_every_page
    (pages : list subscribers_page) (final : subscribers_page)
    (rest : list (res subscribers_page)) :
  Forall (fun p => has_more p = true) pages ->
  has_more final = false ->
  get_subscribers (map Ret (pages ++ [final]) ++ rest)
  = (Some (concat (map page_data (pages ++ [final]))),
     map Requested (seq 1 (S (length pages)))).
Proof.
  intros Hmore Hfinal. unfold get_subscribers.
  rewrite (get_subscribers_from_pages pages final rest 1 [] Hmore Hfinal).
  reflexivity.
Qed.

Lemma get_subscribers_collects_every_page_witness :
  let p1 := SubscribersPage [alice] true in
  let p2 := SubscribersPage [bob] false in
  Forall (fun p => has_more p = true) [p1]
  /\ has_more p2 = false
  /\ get_subscribers (map Ret ([p1] ++ [p2]) ++ [])
     = (Some [alice; bob], [Requested 1; Requested 2]).
Proof.
  assert (H1 : Forall (fun p => has_more p = true) [SubscribersPage [alice] true])
    by (repeat constructor).
  split; [exact H1|]. split; [reflexivity|].
  exact (get_subscribers_collects_every_page
           [SubscribersPage [alice] true] (SubscribersPage [bob] false) []
           H1 eq_refl).
Defined.

(** The loop asks for the page it was entered with, whatever the answer. *)
Lemma get_subscribers_from_first_step
    (answers : list (res subscribers_page)) (page : nat)
    (all_subscribers : list subscriber) :
  match snd (get_subscribers_from answers page all_subscribers) with
  | [] => True
  | first :: _ => first = Requested page
  end.
Proof.
  destruct answers as [|[data|[status_code|what]] rest];
    cbn [get_subscribers_from snd]; try reflexivity.
  - destruct (has_more data); [|reflexivity].
    destruct (get_subscribers_from rest _ _). reflexivity.
  - destruct (status_code =? 429)%Z; [|reflexivity].
    destruct (get_subscribers_from rest _ _). reflexivity.
Qed.

Lemma without_retries_request (page : nat) (steps : list step) :
  match steps with
  | [] => True
  | first :: _ => exists next, first = Requested next
  end ->
  without_retries (Requested page :: steps) = Requested page :: without_retries steps
  /\ (each_retry_repeats (Requested page :: steps) <-> each_retry_repeats steps).
Proof.
  destruct steps as [|[next|seconds] steps]; intros H.
  - split; reflexivity.
  - split; reflexivity.
  - destruct H as [next H]. discriminate.
Qed.

Lemma get_subscribers_from_skips_rate_limits
    (answers : list (res subscribers_page)) (page : nat)
    (all_subscribers : list subscriber) :
  let run := get_subscribers_from answers page all_subscribers in
  let clean := get_subscribers_from
                 (List.filter (fun a => negb (rate_limited a)) answers)
                 page all_subscribers in
  fst run = fst clean
  /\ Forall (fun seconds => seconds = 60%Z) (slept (snd run))
  /\ without_retries (snd run) = snd clean
  /\ each_retry_repeats (snd run)
  /\ length (slept (snd run))
     = length (List.filter rate_limited
                 (take (length (requested (snd run))) answers)).
Proof.
  cbv zeta. revert page all_subscribers.
  induction answers as [|answer rest IH]; intros page all_subscribers.
  - repeat split. constructor.
  - destruct answer as [data|[status_code|what]];
      cbn [get_subscribers_from List.filter rate_limited negb].
    + destruct (has_more data) eqn:Hmore.
      * specialize (IH (S page) (all_subscribers ++ page_data data)).
        pose proof (get_subscribers_from_first_step rest (S page)
                      (all_subscribers ++ page_data data)) as Hfirst.
        cbv iota.
        destruct (get_subscribers_from rest _ _) as [r steps].
        destruct (get_subscribers_from (List.filter _ rest) _ _) as [r' steps'].
        cbn [fst snd] in *.
        destruct IH as (IH1 & IH2 & IH3 & IH4 & IH5).
        destruct (without_retries_request page steps) as [Hdrop Hrepeat].
        { destruct steps as [|first steps]; [exact I|]. eauto. }
        split; [exact IH1|]. split; [exact IH2|].
        split; [rewrite Hdrop, IH3; reflexivity|].
        split; [apply Hrepeat, IH4|].
        cbn [requested omap list_omap length take List.filter rate_limited].
        exact IH5.
      * cbv iota. repeat split. constructor.
    + destruct (Z.eqb_spec status_code 429) as [->|Hne]; cbn [negb].
      * specialize (IH page all_subscribers).
        pose proof (get_subscribers_from_first_step rest page all_subscribers)
          as Hfirst.
        destruct (get_subscribers_from rest _ _) as [r steps].
        cbn [fst snd] in *.
        destruct IH as (IH1 & IH2 & IH3 & IH4 & IH5).
        split; [exact IH1|].
        split; [cbn; constructor; [reflexivity | exact IH2]|].
        split; [exact IH3|].
        split; [cbn [each_retry_repeats]; split; [reflexivity|];
                split; [exact Hfirst | exact IH4]|].
        cbn [requested slept omap list_omap length take List.filter rate_limited].
        change (429 =? 429)%Z with true. cbn [length]. f_equal. exact IH5.
      * cbn [get_subscribers_from].
        destruct (Z.eqb_spec status_code 429); [contradiction|].
        repeat split; [constructor|].
        cbn. destruct (Z.eqb_spec status_code 429); [contradiction | reflexivity].
    + repeat split. constructor.
Qed.

(** X11: rate-limit answers are invisible in what [get_subscribers]
    returns: the result is the one it would return had the server never
    rate-limited, every such answer costing a sleep of 60 seconds and a
    repeat of the same page: there are as many sleeps as rate-limit answers
    received, each between two requests for the same page, and without the
    retried requests and their sleeps the steps are those of the run that
    was never rate-limited. *)
Theorem get_subscribers_result_ignores_rate_limits
    (answers : list (res subscribers_page)) :
  let run := get_subscribers answers in
  let clean := get_subscribers (List.filter (fun a => negb (rate_limited a)) answers) in
  fst run = fst clean
  /\ Forall (fun seconds => seconds = 60%Z) (slept (snd run))
  /\ without_retries (snd run) = snd clean
  /\ each_retry_repeats (snd run)
  /\ length (slept (snd run))
     = length (List.filter rate_limited
                 (take (length (requested (snd run))) answers)).
Proof. apply get_subscribers_from_skips_rate_limits. Qed.

(** Two rate limits on page 2: the page is asked for three times. *)
Example get_subscribers_repeats_the_page :
  snd (get_subscribers
         [ Ret (SubscribersPage [alice] true);
           Raise (HTTPError 429); Raise (HTTPError 429);
           Ret (SubscribersPage [bob] false) ])
  = [ Requested 1; Requested 2; Slept 60; Requested 2; Slept 60; Requested 2 ].
Proof. reflexivity. Qed.

Lemma get_subscribers_from_rate_limited (n page : nat)
    (all_subscribers : list subscriber) :
  get_subscribers_from (replicate n (Raise (HTTPError 429))) page all_subscribers
  = (None, concat (replicate n [Requested page; Slept 60])).
Proof.
  induction n as [|n IH]; [reflexivity|].
  cbn [replicate get_subscribers_from concat]. rewrite IH. reflexivity.
Qed.

(** X12: [get_subscribers] has no bound on its retries: as long as the
    server answers with status 429 it asks for page 1 again, 60 seconds
    later, and does not return, however many answers that is. *)
Theorem get_subscribers_never_gives_up_on_rate_limit (n : nat) :
  get_subscribers (replicate n (Raise (HTTPError 429)))
  = (None, concat (replicate n [Requested 1; Slept 60])).
Proof. apply get_subscribers_from_rate_limited. Qed.

Lemma get_subscribers_from_error (pages : list subscribers_page) (e : exn)
    (rest : list (res subscribers_page)) (page : nat)
    (all_subscribers : list subscriber) :
  Forall (fun p => has_more p = true) pages ->
  e <> HTTPError 429 ->
  get_subscribers_from (map Ret pages ++ Raise e :: rest) page all_subscribers
  = (Some [], map Requested (seq page (S (length pages)))).
Proof.
  intros Hmore He. revert page all_subscribers.
  induction Hmore as [|p pages Hp _ IH]; intros page all_subscribers.
  - cbn [map app get_subscribers_from length seq].
    destruct e as [status_code|what]; [|reflexivity].
    destruct (Z.eqb_spec status_code 429) as [->|]; [contradiction | reflexivity].
  - cbn [map app get_subscribers_from]. rewrite Hp, IH. reflexivity.
Qed.

(** X13: an error other than a rate limit, on whatever page it comes, makes
    [get_subscribers] return the empty list: the subscribers of the pages
    already fetched are dropped, and no further page is requested. *)
Theorem get_subscribers_error_drops_fetched_pages
    (pages : list subscribers_page) (e : exn) (rest : list (res subscribers_page)) :
  Forall (fun p => has_more p = true) pages ->
  e <> HTTPError 429 ->
  get_subscribers (map Ret pages ++ Raise e :: rest)
  = (Some [], map Requested (seq 1 (S (length pages)))).
Proof. intros. apply get_subscribers_from_error; assumption. Qed.

Lemma get_subscribers_error_drops_fetched_pages_witness :
  let p1 := SubscribersPage [alice; bob] true in
  Forall (fun p => has_more p = true) [p1]
  /\ HTTPError 500 <> HTTPError 429
  /\ get_subscribers (map Ret [p1] ++ Raise (HTTPError 500) :: [])
     = (Some [], [Requested 1; Requested 2]).
Proof.
  assert (H1 : Forall (fun p => has_more p = true) [SubscribersPage [alice; bob] true])
    by (repeat constructor).
  assert (H2 : HTTPError 500 <> HTTPError 429) by discriminate.
  split; [exact H1|]. split; [exact H2|].
  exact (get_subscribers_error_drops_fetched_pages
           [SubscribersPage [alice; bob] true] (HTTPError 500) [] H1 H2).
Defined.

End TransportFacts.

(* ===================================================================== *)
(** * The manager's task table *)
(* ===================================================================== *)

Module ManagerFacts.
Import Manager.

(** The tasks a step created: what it appended to [created]. *)
Lemma refresh_created (current_accounts : list pystr) (t : tasks) :
  created (periodic_account_refresh current_accounts t)
  = created t
    ++ List.filter (fun id => bool_decide (id ∉ running_tasks t)) current_accounts.
Proof.
  unfold periodic_account_refresh. cbn [created]. f_equal.
  apply filter_ext_in. intros id Hin.
  apply bool_decide_ext. rewrite elem_of_difference, elem_of_list_to_set.
  apply list_elem_of_In in Hin. tauto.
Qed.

(** X14: one pass of the periodic refresh reconciles the task table with
    the accounts loaded: afterwards every loaded account has a task; a task
    is created for exactly the loaded accounts that had none; exactly the
    tasks of accounts no longer loaded are cancelled; and every task that
    was in the table is still there (a cancelled one leaves when it
    exits). *)
Theorem refresh_reconciles_tasks_with_accounts
    (current_accounts : list pystr) (t : tasks) :
  let t' := periodic_account_refresh current_accounts t in
  let started := drop (length (created t)) (created t') in
  (forall id, id ∈ current_accounts -> id ∈ running_tasks t')
  /\ (forall id, id ∈ started <-> id ∈ current_accounts /\ id ∉ running_tasks t)
  /\ (forall id, id ∈ cancelled t'
                 <-> id ∈ cancelled t \/ (id ∈ running_tasks t /\ id ∉ current_accounts))
  /\ running_tasks t ⊆ running_tasks t'.
Proof.
  intros t' started.
  assert (Hstarted : started
            = List.filter (fun id => bool_decide (id ∉ running_tasks t))
                current_accounts).
  { subst started t'. rewrite refresh_created, drop_app_length. reflexivity. }
  assert (Hstarted_iff : forall id,
            id ∈ started <-> id ∈ current_accounts /\ id ∉ running_tasks t).
  { intros id. rewrite Hstarted, filter_elem, bool_decide_eq_true. reflexivity. }
  assert (Hrunning : forall id,
            id ∈ running_tasks t' <-> id ∈ current_accounts \/ id ∈ running_tasks t).
  { intros id. subst t'. unfold periodic_account_refresh. cbn [running_tasks].
    rewrite elem_of_union, elem_of_list_to_set, filter_elem, bool_decide_eq_true,
      elem_of_difference, elem_of_list_to_set.
    destruct (decide (id ∈ running_tasks t)); tauto. }
  split; [|split; [|split]].
  - intros id Hid. apply Hrunning. left. exact Hid.
  - exact Hstarted_iff.
  - intros id. subst t'. unfold periodic_account_refresh. cbn [cancelled].
    rewrite elem_of_union, elem_of_intersection, elem_of_difference,
      !elem_of_union, !elem_of_list_to_set, filter_elem.
    tauto.
  - intros id Hid. apply Hrunning. right. exact Hid.
Qed.

(** X15: whether a monitor that has ended is started again depends on how
    it ended.  When it had entered its [try] (and was cancelled by a
    refresh, or its loop ended), its [finally] clause removed its id from
    the task table, and the next refresh that loads its account creates a
    task for it again.  When it returned before the [try], because no
    responder could be created, its id stays in the table and the refresh
    does not start it again. *)
Theorem ended_monitor_restarts_iff_it_left_its_try
    (how : monitor_end) (account_id : pystr) (current_accounts : list pystr)
    (t : tasks) :
  account_id ∈ current_accounts ->
  account_id ∈ running_tasks t ->
  let t' := periodic_account_refresh current_accounts
              (monitor_exit how account_id t) in
  (account_id ∈ drop (length (created t)) (created t') <-> how = LeftTry)
  /\ account_id ∈ running_tasks t'.
Proof.
  intros Hin Hran t'. subst t'. rewrite refresh_created.
  assert (Hcreated : created (monitor_exit how account_id t) = created t)
    by (destruct how; reflexivity).
  rewrite Hcreated, drop_app_length, filter_elem, bool_decide_eq_true.
  destruct how; cbn [monitor_exit].
  - (* returned before the try: the entry is still there *)
    split.
    + split; [intros [_ Hout]; contradiction | discriminate].
    + unfold periodic_account_refresh. cbn [running_tasks].
      apply elem_of_union_r. exact Hran.
  - (* left the try: the finally clause removed the entry *)
    assert (Hout : account_id ∉ running_tasks t ∖ {[ account_id ]}).
    { intros [_ Hout]%elem_of_difference. apply Hout, elem_of_singleton.
      reflexivity. }
    cbn [running_tasks]. split.
    + split; [reflexivity | intros _; split; [exact Hin | exact Hout]].
    + unfold periodic_account_refresh. cbn [running_tasks].
      apply elem_of_union_l, elem_of_list_to_set, filter_elem.
      split; [exact Hin|].
      apply bool_decide_eq_true, elem_of_difference.
      split; [apply elem_of_list_to_set, Hin | exact Hout].
Qed.

(** An account leaves the database and comes back: the refresh that misses
    it cancels its monitor, the monitor leaves its [try], and the refresh
    that finds it again starts a new one. *)
Lemma ended_monitor_restarts_iff_it_left_its_try_witness :
  let started := start_monitoring_all_accounts [str "acct-1"; str "acct-2"] no_tasks in
  let t := periodic_account_refresh [str "acct-2"] started in
  let t' := periodic_account_refresh [str "acct-1"; str "acct-2"]
              (monitor_exit LeftTry (str "acct-1") t) in
  str "acct-1" ∈ [str "acct-1"; str "acct-2"]
  /\ str "acct-1" ∈ running_tasks t
  /\ (str "acct-1" ∈ drop (length (created t)) (created t') <-> LeftTry = LeftTry)
  /\ str "acct-1" ∈ running_tasks t'.
Proof.
  assert (Hran : str "acct-1"
                 ∈ running_tasks
                     (periodic_account_refresh [str "acct-2"]
                        (start_monitoring_all_accounts
                           [str "acct-1"; str "acct-2"] no_tasks))).
  { unfold periodic_account_refresh, start_monitoring_all_accounts.
    cbn [running_tasks].
    apply elem_of_union_r, elem_of_union_l, elem_of_list_to_set. left. }
  split; [left|]. split; [exact Hran|].
  apply (ended_monitor_restarts_iff_it_left_its_try LeftTry (str "acct-1")
           [str "acct-1"; str "acct-2"]); [left | exact Hran].
Defined.

(** X16: an error of the database during a refresh is taken for an empty
    list of accounts: no task is created and the task of every account in
    the table is cancelled. *)
Theorem database_error_cancels_every_monitor (e : exn) (t : tasks) :
  let t' := periodic_account_refresh (load_accounts_from_database (Raise e)) t in
  created t' = created t
  /\ cancelled t' = cancelled t ∪ running_tasks t
  /\ running_tasks t' = running_tasks t.
Proof.
  cbn [load_accounts_from_database]. unfold periodic_account_refresh.
  cbn [List.filter list_to_set created cancelled running_tasks].
  split; [apply app_nil_r|]. split.
  - f_equal. apply set_eq. intros id.
    rewrite elem_of_intersection, elem_of_difference, elem_of_union.
    set_unfold. tauto.
  - apply set_eq. intros id. set_unfold. tauto.
Qed.

End ManagerFacts.

(* ===================================================================== *)
(** * The resolver of the enhanced responder *)
(* ===================================================================== *)

Module EnhancedFacts.
Import Enhanced.

Section ScanFacts.
Variables my_uuid user_uuid : pystr.

Local Abbreviation scan := (scan my_uuid).
Local Abbreviation answered := (is_answered my_uuid).

Lemma scan_grows (l : list message) (p : gset pystr) : p ⊆ snd (scan l p).
Proof.
  revert p. induction l as [|m later IH]; intros p; cbn [Enhanced.scan];
    [reflexivity|].
  destruct (_ || _); [apply IH|]. destruct (answered m later); [apply IH|].
  specialize (IH ({[uuid m]} ∪ p)).
  destruct (scan later ({[uuid m]} ∪ p)) as [u p']. cbn [snd] in *.
  etransitivity; [|exact IH]. apply union_subseteq_r.
Qed.

(** A message the scan returns sits somewhere in the list, is not ours, was
    not processed, now is, and nothing after it answers it. *)
Lemma scan_returned (l : list message) (p : gset pystr) (m : message) :
  m ∈ fst (scan l p) ->
  sender_uuid m <> my_uuid
  /\ (uuid m ∉ p)
  /\ uuid m ∈ snd (scan l p)
  /\ exists before later, l = before ++ m :: later /\ answered m later = false.
Proof.
  revert p. induction l as [|x later IH]; intros p; cbn [Enhanced.scan];
    [intros H; inversion H|].
  assert (Hlift : forall q, m ∈ fst (scan later q) ->
            sender_uuid m <> my_uuid /\ (uuid m ∉ q) /\ uuid m ∈ snd (scan later q)
            /\ exists before later', x :: later = before ++ m :: later'
                 /\ answered m later' = false).
  { intros q Hq. destruct (IH q Hq) as (H1 & H2 & H3 & before & later' & -> & H4).
    repeat split; try assumption. exists (x :: before), later'. split; [reflexivity | exact H4]. }
  destruct (eqb (sender_uuid x) my_uuid) eqn:Hs; cbn [orb]; [apply Hlift|].
  destruct (bool_decide (uuid x ∈ p)) eqn:Hp; [apply Hlift|].
  destruct (answered x later) eqn:Ha; [apply Hlift|].
  specialize (Hlift ({[uuid x]} ∪ p)).
  pose proof (scan_grows later ({[uuid x]} ∪ p)) as Hgrow.
  destruct (scan later ({[uuid x]} ∪ p)) as [u p'] eqn:Hscan. cbn [fst snd] in *.
  intros Hm. apply elem_of_cons in Hm as [->|Hm].
  - split; [intros H; apply eqb_true in H; congruence|].
    split; [apply bool_decide_eq_false in Hp; exact Hp|].
    split; [apply Hgrow, elem_of_union_l, elem_of_singleton; reflexivity|].
    exists [], later. split; [reflexivity | exact Ha].
  - destruct (Hlift Hm) as (H1 & H2 & H3 & H4).
    repeat split; try assumption.
    intros Hin. apply H2, elem_of_union_r, Hin.
Qed.

(** Once every id the scan would add is processed, the scan returns
    nothing and adds nothing. *)
Lemma scan_again (l : list message) (p q : gset pystr) :
  snd (scan l p) ⊆ q -> scan l q = ([], q).
Proof.
  revert p q. induction l as [|m later IH]; intros p q; cbn [Enhanced.scan];
    [reflexivity|].
  destruct (eqb (sender_uuid m) my_uuid) eqn:Hs; cbn [orb]; [apply IH|].
  destruct (answered m later) eqn:Ha.
  - destruct (bool_decide (uuid m ∈ p)), (bool_decide (uuid m ∈ q)); apply IH.
  - intros Hsub.
    assert (Hq : uuid m ∈ q).
    { apply Hsub. destruct (bool_decide (uuid m ∈ p)) eqn:Hp.
      - apply scan_grows. apply bool_decide_eq_true in Hp. exact Hp.
      - pose proof (scan_grows later ({[uuid m]} ∪ p)) as Hgrow.
        destruct (scan later ({[uuid m]} ∪ p)) as [u p']. cbn [snd] in *.
        apply Hgrow, elem_of_union_l, elem_of_singleton. reflexivity. }
    rewrite (bool_decide_eq_true_2 _ Hq).
    destruct (bool_decide (uuid m ∈ p)); [exact (IH p q Hsub)|].
    apply (IH ({[uuid m]} ∪ p)).
    destruct (scan later ({[uuid m]} ∪ p)) as [u p']. exact Hsub.
Qed.

Lemma answered_app (m : message) (l1 l2 : list message) :
  answered m (l1 ++ l2) = answered m l1 || answered m l2.
Proof. apply existsb_app. Qed.

Lemma not_answered_by_older (m : message) (l : list message) :
  Forall (fun x => leb (sentAt x) (sentAt m) = true) l -> answered m l = false.
Proof.
  induction 1 as [|x l Hx _ IH]; [reflexivity|].
  cbn [is_answered existsb]. rewrite ltb_leb, Hx. cbn [negb].
  rewrite andb_false_r. exact IH.
Qed.

Lemma sorted_before (before later : list message) (m : message) :
  StronglySorted (key_le sentAt) (before ++ m :: later) ->
  Forall (fun x => leb (sentAt x) (sentAt m) = true) before.
Proof.
  induction before as [|x before IH]; cbn [app]; intros Hs; [constructor|].
  apply StronglySorted_inv in Hs as [Hs Hx]. constructor; [|apply IH, Hs].
  rewrite Forall_forall in Hx. apply Hx.
  apply elem_of_app. right. left.
Qed.

(** In a sorted list, being answered by something later in the list is
    being answered by something in the list. *)
Lemma answered_in_sorted (before later : list message) (m : message) :
  StronglySorted (key_le sentAt) (before ++ m :: later) ->
  answered m (before ++ m :: later) = answered m later.
Proof.
  intros Hs. rewrite answered_app.
  rewrite (not_answered_by_older m before (sorted_before before later m Hs)).
  change (m :: later) with ([m] ++ later). rewrite answered_app.
  rewrite (not_answered_by_older m [m]); [reflexivity|].
  repeat constructor. apply leb_refl.
Qed.

Lemma answered_perm (m : message) (l1 l2 : list message) :
  l1 ≡ₚ l2 -> answered m l1 = answered m l2.
Proof.
  intros Hperm. apply eq_true_iff_eq. unfold is_answered.
  rewrite !existsb_exists. split; intros (x & Hx & H); exists x; split; auto.
  - apply list_elem_of_In. rewrite <- Hperm. apply list_elem_of_In, Hx.
  - apply list_elem_of_In. rewrite Hperm. apply list_elem_of_In, Hx.
Qed.

(** The whole scan, when ids are pairwise distinct: the messages returned
    are those of the list that are not ours, not processed before the scan,
    and not answered. *)
Lemma scan_filter (before l : list message) (p0 p : gset pystr) :
  StronglySorted (key_le sentAt) (before ++ l) ->
  NoDup (map uuid (before ++ l)) ->
  p0 ⊆ p ->
  (forall id, id ∈ p -> id ∈ p0 \/ id ∈ map uuid before) ->
  fst (scan l p)
  = List.filter
      (fun m => negb (eqb (sender_uuid m) my_uuid)
                && negb (bool_decide (uuid m ∈ p0))
                && negb (answered m (before ++ l)))
      l.
Proof.
  revert before p. induction l as [|m later IH]; intros before p Hs Hnd Hsub Hp;
    [reflexivity|].
  assert (Hmem : bool_decide (uuid m ∈ p) = bool_decide (uuid m ∈ p0)).
  { apply bool_decide_ext. split; [|apply Hsub].
    intros Hin. destruct (Hp _ Hin) as [H|H]; [exact H|]. exfalso.
    rewrite map_app in Hnd. apply NoDup_app in Hnd as (_ & Hdisj & _).
    apply (Hdisj (uuid m) H). left. }
  assert (Hrest : forall q,
            p0 ⊆ q -> (forall id, id ∈ q -> id ∈ p0 \/ id ∈ map uuid (before ++ [m])) ->
            fst (scan later q)
            = List.filter
                (fun x => negb (eqb (sender_uuid x) my_uuid)
                          && negb (bool_decide (uuid x ∈ p0))
                          && negb (answered x (before ++ m :: later)))
                later).
  { intros q Hq1 Hq2.
    rewrite (IH (before ++ [m]) q); rewrite <- ?app_assoc; try assumption.
    reflexivity. }
  assert (Hkeep : forall id, id ∈ p -> id ∈ p0 \/ id ∈ map uuid (before ++ [m])).
  { intros id Hin. destruct (Hp id Hin) as [H|H]; [left; exact H|].
    right. rewrite map_app. apply elem_of_app. left. exact H. }
  cbn [Enhanced.scan List.filter]. rewrite Hmem, (answered_in_sorted before later m Hs).
  destruct (eqb (sender_uuid m) my_uuid); cbn [orb negb andb];
    [apply Hrest; assumption|].
  destruct (bool_decide (uuid m ∈ p0)); cbn [negb andb]; [apply Hrest; assumption|].
  destruct (answered m later); cbn [negb]; [apply Hrest; assumption|].
  specialize (Hrest ({[uuid m]} ∪ p)).
  destruct (scan later ({[uuid m]} ∪ p)) as [u p']. cbn [fst] in *.
  f_equal. apply Hrest.
  - etransitivity; [exact Hsub | apply union_subseteq_r].
  - intros id [Hid|Hid]%elem_of_union; [|apply Hkeep, Hid].
    apply elem_of_singleton in Hid. subst id. right.
    rewrite map_app. apply elem_of_app. right. left.
Qed.
End ScanFacts.

Lemma check_unfold (my_uuid user_uuid : pystr) (fetched : list message)
    (self : responder) :
  fetched <> [] ->
  fst (check_for_unanswered_messages my_uuid user_uuid fetched self)
  = fst (scan my_uuid (py_sorted sentAt fetched) (processed_messages self))
  /\ processed_messages (snd (check_for_unanswered_messages my_uuid user_uuid fetched self))
     = snd (scan my_uuid (py_sorted sentAt fetched) (processed_messages self)).
Proof.
  intros Hne. destruct fetched as [|m fetched]; [contradiction|].
  unfold check_for_unanswered_messages.
  destruct (scan my_uuid _ _) as [u p]. split; reflexivity.
Qed.

(** X17: the resolver of the enhanced responder is idempotent on every
    history, timestamps or not: a second pass on the same history with the
    state the first pass left returns no message. *)
Theorem enhanced_resolution_is_idempotent
    (my_uuid user_uuid : pystr) (fetched : list message) (self : responder) :
  let updated :=
    snd (check_for_unanswered_messages my_uuid user_uuid fetched self) in
  fst (check_for_unanswered_messages my_uuid user_uuid fetched updated) = [].
Proof.
  intros updated. destruct (decide (fetched = [])) as [->|Hne]; [reflexivity|].
  destruct (check_unfold my_uuid user_uuid fetched self Hne) as [_ Hp].
  destruct (check_unfold my_uuid user_uuid fetched updated Hne) as [Hf _].
  rewrite Hf. fold updated in Hp. rewrite Hp.
  rewrite (scan_again my_uuid _ (processed_messages self)); reflexivity.
Qed.

(** X18: a message the enhanced resolver returns is a fetched message that
    the operator did not send, whose id was not processed before and is
    processed afterwards, and that no message of the operator with a
    strictly later timestamp follows. *)
Theorem enhanced_target_is_unanswered
    (my_uuid user_uuid : pystr) (fetched : list message) (self : responder)
    (m : message) :
  let run := check_for_unanswered_messages my_uuid user_uuid fetched self in
  m ∈ fst run ->
  m ∈ fetched
  /\ sender_uuid m <> my_uuid
  /\ (uuid m ∉ processed_messages self)
  /\ uuid m ∈ processed_messages (snd run)
  /\ is_answered my_uuid m fetched = false.
Proof.
  intros run Hin. subst run.
  destruct (decide (fetched = [])) as [->|Hne]; [inversion Hin|].
  destruct (check_unfold my_uuid user_uuid fetched self Hne) as [Hf Hp].
  rewrite Hf in Hin. rewrite Hp.
  destruct (scan_returned my_uuid _ _ _ Hin)
    as (H1 & H2 & H3 & before & later & Hsplit & Ha).
  assert (Hsorted := py_sorted_sorted sentAt fetched). rewrite Hsplit in Hsorted.
  split; [|repeat split; try assumption].
  - apply (py_sorted_elem sentAt). rewrite Hsplit.
    apply elem_of_app. right. left.
  - rewrite <- (answered_perm my_uuid m _ _ (py_sorted_perm sentAt fetched)).
    rewrite Hsplit, (answered_in_sorted my_uuid before later m Hsorted). exact Ha.
Qed.

Lemma enhanced_target_is_unanswered_witness :
  let fetched := burst 3 in
  let m := Message (str "0") (str "sub") (str "10:00") (str "message 0") in
  m ∈ fst (check_for_unanswered_messages (str "op") (str "sub") fetched
             fresh_responder)
  /\ is_answered (str "op") m fetched = false.
Proof.
  split; [left|].
  apply (enhanced_target_is_unanswered (str "op") (str "sub") (burst 3)
           fresh_responder). left.
Defined.

(** X19: when the fetched messages carry pairwise distinct ids, the
    enhanced resolver returns, oldest first, every fetched message that the
    operator did not send, whose id was not processed and that no later
    operator message follows: a burst is answered message by message, not
    only by its latest. *)
Theorem enhanced_resolution_returns_every_unanswered_message
    (my_uuid user_uuid : pystr) (fetched : list message) (self : responder) :
  NoDup (map uuid fetched) ->
  fst (check_for_unanswered_messages my_uuid user_uuid fetched self)
  = List.filter
      (fun m => negb (eqb (sender_uuid m) my_uuid)
                && negb (bool_decide (uuid m ∈ processed_messages self))
                && negb (is_answered my_uuid m fetched))
      (py_sorted sentAt fetched).
Proof.
  intros Hnd. destruct (decide (fetched = [])) as [->|Hne]; [reflexivity|].
  destruct (check_unfold my_uuid user_uuid fetched self Hne) as [-> _].
  rewrite (scan_filter my_uuid [] (py_sorted sentAt fetched)
             (processed_messages self) (processed_messages self)).
  - apply filter_ext. intros m. cbn [app].
    rewrite (answered_perm my_uuid m _ _ (py_sorted_perm sentAt fetched)).
    reflexivity.
  - apply py_sorted_sorted.
  - cbn [app]. rewrite (py_sorted_perm sentAt fetched). exact Hnd.
  - reflexivity.
  - intros id Hid. left. exact Hid.
Qed.

Lemma enhanced_resolution_returns_every_unanswered_message_witness :
  NoDup (map uuid (burst 3))
  /\ fst (check_for_unanswered_messages (str "op") (str "sub") (burst 3)
            fresh_responder) = burst 3.
Proof.
  assert (Hnd : NoDup (map uuid (burst 3)))
    by (apply (bool_decide_unpack _); vm_compute; exact I).
  split; [exact Hnd|].
  rewrite (enhanced_resolution_returns_every_unanswered_message
             (str "op") (str "sub") (burst 3) fresh_responder Hnd).
  reflexivity.
Defined.

End EnhancedFacts.

(* ===================================================================== *)
(** * Reply generation, seen from its log *)
(* ===================================================================== *)

Section GenerationFacts.
Context {World : Type}.
Variable respond : forall A : Type, call A -> World -> A * World.
Variable self_account : account.

Local Ltac performed :=
  repeat match goal with
         | H : perform _ _ _ = (_, _) |- _ =>
             apply perform_inv in H; destruct H as [? ?]
         | u : unit |- _ => destruct u
         end.

Lemma polls_app (e1 e2 : list event) : polls (e1 ++ e2) = polls e1 + polls e2.
Proof. unfold polls. rewrite List.filter_app, length_app. reflexivity. Qed.

Lemma total_sleep_app (e1 e2 : list event) :
  total_sleep (e1 ++ e2) = (total_sleep e1 + total_sleep e2)%Z.
Proof.
  unfold total_sleep. induction e1 as [|ev e1 IH]; [reflexivity|].
  cbn [app map fold_right]. rewrite IH. lia.
Qed.

Lemma pending_app (e1 e2 : list event) :
  length (List.filter pending_poll (e1 ++ e2))
  = length (List.filter pending_poll e1) + length (List.filter pending_poll e2).
Proof. rewrite List.filter_app, length_app. reflexivity. Qed.

(** An event that is no poll, no sleep, delivers nothing and fails nothing
    leaves [faithful] as it is. *)
Lemma faithful_after_silent (ev : event) (w : nat) (r : res pystr) (evs : list event) :
  status_poll ev = false -> seconds_slept ev = 0%Z -> delivered ev = None ->
  failure_event ev = false ->
  faithful w r evs -> faithful w r (ev :: evs).
Proof.
  intros Hpoll Hsleep Hdeliv Hfail (H1 & H2 & H3).
  assert (Hpolls : polls (ev :: evs) = polls evs).
  { unfold polls. cbn [List.filter]. rewrite Hpoll. reflexivity. }
  assert (Hpending : pending_poll ev = false).
  { unfold pending_poll, status_poll in *. destruct ev as [T c a].
    cbn [ev_call ev_answer] in *. destruct c; try reflexivity. discriminate. }
  unfold faithful. rewrite Hpolls. split; [exact H1|]. split.
  - unfold total_sleep in *. cbn [map fold_right]. rewrite Hsleep. lia.
  - destruct r as [reply|e].
    + cbn [omap list_omap]. change (omap delivered (ev :: evs))
        with (match delivered ev with
              | Some o => o :: omap delivered evs
              | None => omap delivered evs
              end).
      rewrite Hdeliv. exact H3.
    + cbn [existsb List.filter]. rewrite Hfail, Hpending. exact H3.
Qed.

Lemma faithful_failure (ev : event) (w : nat) (e : exn) :
  failure_event ev = true -> seconds_slept ev = 0%Z ->
  (status_poll ev = true -> w < max_wait_time) ->
  faithful w (Raise e) [ev].
Proof.
  intros Hfail Hsleep Hpoll. unfold faithful, polls, total_sleep.
  cbn [List.filter map fold_right length existsb]. rewrite Hfail, Hsleep.
  destruct (status_poll ev); cbn [length].
  - specialize (Hpoll eq_refl). unfold poll_interval, max_wait_time in *.
    split; [right; lia|]. split; [lia | left; reflexivity].
  - split; [left; reflexivity|]. split; [lia | left; reflexivity].
Qed.

Lemma fal_fetch_result_faithful (request_id : pystr) (w : nat) :
  extends (fal_fetch_result respond request_id) (faithful w).
Proof.
  intros s. unfold fal_fetch_result, bind.
  destruct (perform respond (FalResult request_id) s) as [r s1] eqn:Hr.
  performed. destruct r as [final_result|e]; cbn [ret fst snd].
  - destruct (truthy (fal_error final_result)) eqn:Herr.
    { eexists. split; [eassumption|]. apply faithful_failure; try reflexivity;
        [|discriminate].
      unfold failure_event. cbn. rewrite Herr. reflexivity. }
    destruct (fal_output final_result) as [output|] eqn:Hout; cbn [ret fst snd];
      eexists; (split; [eassumption|]).
    + unfold faithful, polls, total_sleep. cbn [List.filter map fold_right length].
      change (status_poll (Event (FalResult request_id) (Ret final_result))) with false.
      change (seconds_slept (Event (FalResult request_id) (Ret final_result)))
        with 0%Z.
      cbn [length]. split; [left; reflexivity|]. split; [lia|].
      exists output. split; [|reflexivity].
      unfold delivered. cbn. rewrite Herr, Hout. reflexivity.
    + apply faithful_failure; try reflexivity; [|discriminate].
      unfold failure_event. cbn. rewrite Herr, Hout. reflexivity.
  - eexists. split; [eassumption|].
    apply faithful_failure; try reflexivity. discriminate.
Qed.

(** One more poll in front of a faithful log. *)
Lemma faithful_after_poll (request_id status : pystr) (w : nat) (r : res pystr)
    (evs : list event) :
  w < max_wait_time ->
  eqb status (str "FAILED") = false ->
  polls evs = 0 ->
  (total_sleep evs = 0)%Z ->
  List.filter pending_poll evs = [] ->
  (match r with
   | Ret reply => exists output, omap delivered evs = [output] /\ reply = strip output
   | Raise _ => existsb failure_event evs = true
   end) ->
  faithful w r (Event (FalStatus request_id) (Ret status) :: evs).
Proof.
  intros Hw Hfailed Hpolls Hsleep Hpending Hr. unfold faithful.
  assert (Hp : polls (Event (FalStatus request_id) (Ret status) :: evs) = 1).
  { unfold polls in *. cbn [List.filter].
    change (status_poll (Event (FalStatus request_id) (Ret status))) with true.
    cbn [length]. rewrite Hpolls. reflexivity. }
  rewrite Hp. unfold poll_interval, max_wait_time in *.
  split; [right; lia|]. split.
  - unfold total_sleep in *. cbn [map fold_right].
    change (seconds_slept (Event (FalStatus request_id) (Ret status))) with 0%Z.
    rewrite Hsleep. lia.
  - destruct r as [reply|e].
    + change (omap delivered (Event (FalStatus request_id) (Ret status) :: evs))
        with (omap delivered evs). exact Hr.
    + left. cbn [existsb]. rewrite Hr. apply orb_true_r.
Qed.

Lemma fal_poll_from_faithful (request_id : pystr) (waited_time : nat) :
  extends (fal_poll_from respond request_id waited_time) (faithful waited_time).
Proof.
  intros s. funelim (fal_poll_from respond request_id waited_time s);
    cbn [fst snd]; performed.
  - (* the time is up *)
    exists []. split; [symmetry; apply app_nil_r|].
    unfold faithful, polls, total_sleep. cbn.
    split; [left; reflexivity|]. split; [lia|]. right. lia.
  - (* the poll raised *)
    eexists. split; [eassumption|].
    apply faithful_failure; try reflexivity. intros _. assumption.
  - (* COMPLETED *)
    match goal with
    | H : eqb ?status (str "COMPLETED") = true |- _ =>
        apply eqb_true in H; subst status
    end.
    match goal with
    | H : log ?s1 = log ?s0 ++ _ |- context [fal_fetch_result _ _ ?s1] =>
        destruct (fal_fetch_result_faithful request_id waited_time s1)
          as (evs & Hlog & Hs);
        eexists; split; [rewrite Hlog, H, <- app_assoc; reflexivity|]
    end.
    clear Heqcall. revert Hlog Hs. unfold fal_fetch_result, bind.
    destruct (perform respond (FalResult request_id) s1) as [r s2] eqn:Hr.
    performed.
    assert (Hone : forall ev : event,
              status_poll ev = false -> seconds_slept ev = 0%Z ->
              pending_poll ev = false ->
              polls [ev] = 0 /\ total_sleep [ev] = 0%Z
              /\ List.filter pending_poll [ev] = []).
    { intros ev Hev1 Hev2 Hev3. unfold polls, total_sleep.
      cbn [List.filter map fold_right]. rewrite Hev1, Hev2, Hev3. repeat split. }
    destruct r as [final_result|e]; cbn [ret fst snd].
    + destruct (truthy (fal_error final_result)) eqn:Herr;
        [|destruct (fal_output final_result) as [output|] eqn:Hout];
        cbn [ret fst snd]; intros Hlog _;
        match goal with
        | Hl : log ?s2 = log ?s1 ++ ?evs, Hs : log ?s2 = log ?s1 ++ [?ev] |- _ =>
            assert (evs = [ev]) as -> by
              (rewrite Hs in Hl; apply app_inv_head in Hl; symmetry; exact Hl)
        end;
        destruct (Hone (Event (FalResult request_id) (Ret final_result))
                    eq_refl eq_refl eq_refl) as (Hp1 & Hp2 & Hp3);
        apply faithful_after_poll; try assumption; try reflexivity.
      * cbn [existsb]. unfold failure_event. cbn. rewrite Herr. reflexivity.
      * exists output. split; [|reflexivity].
        unfold delivered. cbn. rewrite Herr, Hout. reflexivity.
      * cbn [existsb]. unfold failure_event. cbn. rewrite Herr, Hout. reflexivity.
    + intros Hlog _.
      match goal with
      | Hl : log ?s2 = log ?s1 ++ ?evs, Hs : log ?s2 = log ?s1 ++ [?ev] |- _ =>
          assert (evs = [ev]) as -> by
            (rewrite Hs in Hl; apply app_inv_head in Hl; symmetry; exact Hl)
      end.
      destruct (Hone (Event (FalResult request_id) (Raise e))
                  eq_refl eq_refl eq_refl) as (Hp1 & Hp2 & Hp3).
      apply faithful_after_poll; try assumption; reflexivity.
  - (* FAILED *)
    eexists. split; [eassumption|].
    apply faithful_failure; try reflexivity; [|intros _; assumption].
    unfold failure_event. cbn [failure_answer ev_call ev_answer]. assumption.
  - (* still pending: sleep, then poll again *)
    match goal with IH : exists _, _ |- _ => destruct IH as (evs & Hlog & Hs) end.
    eexists. split.
    + rewrite Hlog.
      repeat match goal with H : log _ = _ |- _ => rewrite H; clear H end.
      rewrite <- !app_assoc. reflexivity.
    + clear Heqcall.
      destruct (fal_poll_from respond request_id (waited_time + poll_interval) s2)
        as [r s3]; cbn [fst snd] in *.
      destruct Hs as (Hfit & Hslept & Hres).
      match goal with
      | Hc : eqb ?st (str "COMPLETED") = false,
        Hf : eqb ?st (str "FAILED") = false |- _ =>
          assert (Hpend : pending_poll (Event (FalStatus request_id) (Ret st)) = true)
            by (unfold pending_poll; cbn [pending_answer ev_call ev_answer];
                rewrite Hc, Hf; reflexivity);
          assert (Hnofail : failure_event (Event (FalStatus request_id) (Ret st)) = false)
            by (unfold failure_event; cbn [failure_answer ev_call ev_answer];
                exact Hf)
      end.
      unfold faithful. cbn [app].
      assert (Hp : forall ev1 ev2 : event,
                status_poll ev1 = true -> status_poll ev2 = false ->
                polls (ev1 :: ev2 :: evs) = S (polls evs)).
      { intros ev1 ev2 Hev1 Hev2. unfold polls. cbn [List.filter].
        rewrite Hev1, Hev2. reflexivity. }
      match goal with
      | |- context [polls (?ev1 :: ?ev2 :: evs)] =>
          rewrite (Hp ev1 ev2 eq_refl eq_refl)
      end.
      unfold poll_interval, max_wait_time in *. split; [right; lia|]. split.
      * unfold total_sleep in *. cbn [map fold_right].
        match goal with
        | |- context [seconds_slept (Event (FalStatus ?i) ?a)] =>
            change (seconds_slept (Event (FalStatus i) a)) with 0%Z
        end.
        change (seconds_slept (Event (Sleep (Z.of_nat 2)) tt)) with 2%Z. lia.
      * destruct r as [reply|e].
        -- match goal with
           | |- context [omap delivered (?ev1 :: ?ev2 :: evs)] =>
               change (omap delivered (ev1 :: ev2 :: evs)) with (omap delivered evs)
           end. exact Hres.
        -- cbn [existsb List.filter]. rewrite Hnofail, Hpend.
           change (failure_event (Event (Sleep (Z.of_nat 2)) tt)) with false.
           change (pending_poll (Event (Sleep (Z.of_nat 2)) tt)) with false.
           cbn [orb length].
           destruct Hres as [Hres|Hres]; [left; exact Hres | right; lia].
Qed.

Lemma faithful_delivery (ev : event) (w : nat) (output : pystr) :
  status_poll ev = false -> seconds_slept ev = 0%Z -> delivered ev = Some output ->
  faithful w (Ret (strip output)) [ev].
Proof.
  intros Hpoll Hsleep Hdeliv. unfold faithful, polls, total_sleep.
  cbn [List.filter map fold_right]. rewrite Hpoll, Hsleep. cbn [length].
  split; [left; reflexivity|]. split; [lia|].
  exists output. split; [|reflexivity].
  change (omap delivered [ev])
    with (match delivered ev with Some o => [o] | None => [] end).
  rewrite Hdeliv. reflexivity.
Qed.

Lemma generate_response_with_openai_faithful (user_prompt system_prompt : pystr) :
  extends (generate_response_with_openai respond user_prompt system_prompt)
    (faithful 0).
Proof.
  intros s. unfold generate_response_with_openai, bind.
  destruct (perform respond (OpenAIChat user_prompt system_prompt) s)
    as [response s1] eqn:Hresponse.
  performed.
  destruct response as [[|[content|] choices]|e]; cbn [ret fst snd];
    eexists; (split; [eassumption|]);
    first [ apply faithful_delivery; reflexivity
          | apply faithful_failure; [reflexivity | reflexivity | discriminate] ].
Qed.

(** A request answered before the polling starts. *)
Lemma faithful_after_request {A : Type} (c : call (res A)) (answer : res A)
    (r : res pystr) (evs : list event) :
  status_poll (Event c answer) = false ->
  seconds_slept (Event c answer) = 0%Z ->
  delivered (Event c answer) = None ->
  failure_event (Event c answer)
  = match answer with Raise _ => true | Ret _ => false end ->
  match answer, r with
  | Ret _, _ => faithful 0 r evs
  | Raise _, Raise _ => evs = []
  | Raise _, Ret _ => False
  end ->
  faithful 0 r ([Event c answer] ++ evs).
Proof.
  intros Hpoll Hsleep Hdeliv Hfail H. cbn [app].
  destruct answer as [a|e].
  - apply faithful_after_silent; assumption.
  - destruct r as [reply|e']; [contradiction|]. subst evs.
    apply faithful_failure; [assumption | assumption |].
    rewrite Hpoll. discriminate.
Qed.

Lemma generate_response_with_fal_ai_faithful (user_prompt system_prompt model : pystr) :
  extends (generate_response_with_fal_ai respond user_prompt system_prompt model)
    (faithful 0).
Proof.
  unfold generate_response_with_fal_ai.
  apply (extends_bind _ _
           (fun submit evs => evs = [Event (FalSubmit user_prompt system_prompt model) submit])
           (fun submit r evs =>
              match submit, r with
              | Ret _, _ => faithful 0 r evs
              | Raise _, Raise _ => evs = []
              | Raise _, Ret _ => False
              end)).
  - apply extends_perform. reflexivity.
  - intros [request_id|e]; [apply fal_poll_from_faithful | apply extends_ret; reflexivity].
  - intros submit r e1 e2 -> H.
    apply faithful_after_request; try reflexivity. exact H.
Qed.

Lemma generate_response_attempt_faithful (user_message user_handle context : pystr) :
  extends (generate_response_attempt respond self_account
             user_message user_handle context) (faithful 0).
Proof.
  unfold generate_response_attempt.
  apply (extends_bind _ _
           (fun lookup evs => evs = [Event GetAccountById lookup])
           (fun lookup r evs =>
              match lookup, r with
              | Ret _, _ => faithful 0 r evs
              | Raise _, Raise _ => evs = []
              | Raise _, Ret _ => False
              end)).
  - apply extends_perform. reflexivity.
  - intros [latest_account|e]; [|apply extends_ret; reflexivity].
    destruct latest_account as [latest|]; cbv beta iota;
      match goal with
      | |- extends (if ?b then _ else _) _ => destruct b
      end;
      first [apply generate_response_with_openai_faithful
            | apply generate_response_with_fal_ai_faithful].
  - intros lookup r e1 e2 -> H.
    apply faithful_after_request; try reflexivity. exact H.
Qed.

Lemma faithful_raise_failed (e : exn) (evs : list event) :
  faithful 0 (Raise e) evs -> backend_failed evs = true.
Proof.
  intros (_ & _ & [Hfail|Htime]); unfold backend_failed.
  - rewrite Hfail. reflexivity.
  - apply orb_true_iff. right. apply Nat.leb_le.
    change polls_until_timeout with 30.
    unfold max_wait_time, poll_interval in Htime. lia.
Qed.

(** In an environment whose account look-up answers and in which no backend
    fails, the reply returned by [generate_response_with_llm] is the text
    the backend delivered (the output of the Fal AI result, or the content
    of the first chat-completion choice) with surrounding white space
    stripped, and the log shows exactly one delivery. *)
Lemma generated_reply_is_delivered_text
    (user_message user_handle context : pystr) (s : machine World) :
  let run := generate_response_with_llm respond self_account
               user_message user_handle context s in
  let evs := new_events (log s) (log (snd run)) in
  backend_failed evs = false ->
  exists output, omap delivered evs = [output] /\ fst run = strip output.
Proof.
  intros run evs. subst run evs.
  unfold generate_response_with_llm, bind.
  destruct (generate_response_attempt_faithful user_message user_handle context s)
    as (evs & Hlog & Hfaithful).
  destruct (generate_response_attempt respond self_account
              user_message user_handle context s) as [[reply|e] s1];
    cbn [ret fst snd] in *;
    unfold new_events; rewrite Hlog, drop_app_length; intros Hfailed.
  - destruct Hfaithful as (_ & _ & Hreply). exact Hreply.
  - rewrite (faithful_raise_failed e evs Hfaithful) in Hfailed. discriminate.
Qed.

(** X21: reply generation cannot wait for ever: whatever the backends answer,
    one call of [generate_response_with_llm] polls the request status at
    most 30 times and sleeps at most 60 seconds in total. *)
Theorem generation_wait_is_bounded
    (user_message user_handle context : pystr) (s : machine World) :
  let run := generate_response_with_llm respond self_account
               user_message user_handle context s in
  let evs := new_events (log s) (log (snd run)) in
  polls evs <= polls_until_timeout
  /\ (total_sleep evs <= Z.of_nat max_wait_time)%Z.
Proof.
  intros run evs. subst run evs.
  unfold generate_response_with_llm, bind.
  destruct (generate_response_attempt_faithful user_message user_handle context s)
    as (evs & Hlog & Hfit & Hslept & _).
  assert (Hsame : log (snd (let (attempt, s1) :=
                              generate_response_attempt respond self_account
                                user_message user_handle context s in
                            match attempt with
                            | Ret response => ret response
                            | Raise _ => ret (generic_acknowledgement user_handle)
                            end s1)) = log s ++ evs).
  { destruct (generate_response_attempt respond self_account
                user_message user_handle context s) as [[reply|e] s1];
      exact Hlog. }
  rewrite Hsame. unfold new_events. rewrite drop_app_length.
  change polls_until_timeout with 30.
  unfold max_wait_time, poll_interval in *. lia.
Qed.
End GenerationFacts.

(* ===================================================================== *)
(** * What a cycle posts and saves *)
(* ===================================================================== *)

Section CycleFacts.
Context {World : Type}.
Variable respond : forall A : Type, call A -> World -> A * World.
Variable self_account : account.

Local Ltac performed :=
  repeat match goal with
         | H : perform _ _ _ = (_, _) |- _ =>
             apply perform_inv in H; destruct H as [? ?]
         | u : unit |- _ => destruct u
         end.

Lemma silently_ret {A} (a : A) : silently (World:=World) (ret a).
Proof. apply extends_ret. constructor. Qed.

Lemma silently_perform {A} (c : call A) :
  (forall a, silent_event (Event c a)) -> silently (perform respond c).
Proof. intros H. apply extends_perform. intros a. repeat constructor; apply H. Qed.

Lemma silently_bind {A B} (c : M A) (k : A -> M B) :
  silently c -> (forall a, silently (k a)) -> silently (World:=World) (bind c k).
Proof.
  intros Hc Hk.
  apply (extends_bind c k (fun _ evs => Forall silent_event evs)
           (fun _ _ evs => Forall silent_event evs)); [exact Hc | exact Hk |].
  intros a b e1 e2 H1 H2. apply Forall_app. split; assumption.
Qed.

(** Discharge [silently] goals along the structure of the code. *)
Local Ltac hush :=
  repeat first
    [ solve [auto]
    | apply silently_ret
    | apply silently_perform; intros; split; reflexivity
    | apply silently_bind; [|intros]
    | match goal with
      | |- silently (match ?x with _ => _ end) => destruct x
      | |- silently (if ?b then _ else _) => destruct b
      | |- silently (let '(_, _) := ?x in _) => destruct x
      end ].

Lemma fal_fetch_result_silently (request_id : pystr) :
  silently (fal_fetch_result respond request_id).
Proof. unfold fal_fetch_result. hush. Qed.

Lemma fal_poll_from_silently (request_id : pystr) (waited_time : nat) :
  silently (fal_poll_from respond request_id waited_time).
Proof.
  intros s. funelim (fal_poll_from respond request_id waited_time s);
    cbn [fst snd]; performed;
    try (eexists; split; [eassumption | repeat constructor]).
  - exists []. rewrite app_nil_r. split; [reflexivity | constructor].
  - match goal with
    | H : log ?s1 = log ?s0 ++ _ |- context [fal_fetch_result _ _ ?s1] =>
        destruct (fal_fetch_result_silently request_id s1) as (evs & Hlog & Hq);
        eexists; split; [rewrite Hlog, H, <- app_assoc; reflexivity|]
    end.
    repeat constructor. exact Hq.
  - match goal with IH : exists _, _ |- _ => destruct IH as (evs & Hlog & Hq) end.
    eexists. split.
    + rewrite Hlog.
      repeat match goal with H : log _ = _ |- _ => rewrite H; clear H end.
      rewrite <- !app_assoc. reflexivity.
    + repeat constructor. exact Hq.
Qed.

Lemma generate_response_with_llm_silently (user_message user_handle context : pystr) :
  silently (generate_response_with_llm respond self_account
              user_message user_handle context).
Proof.
  unfold generate_response_with_llm, generate_response_attempt,
    generate_response_with_openai, generate_response_with_fal_ai.
  pose proof fal_poll_from_silently. hush.
Qed.

Lemma build_conversation_context_io_silently
    (chat_history : list message) (user_handle : pystr) :
  silently (build_conversation_context_io respond chat_history user_handle).
Proof. unfold build_conversation_context_io. hush. Qed.

(** ** Counting the posts *)

Lemma silent_dispatches (recipients : list pystr) (evs : list event) :
  Forall silent_event evs -> dispatches recipients 0 evs.
Proof.
  induction 1 as [|ev evs [Hsave Hpost] _ [IH1 IH2]]; split;
    try constructor; try assumption.
  - split; [exact Hsave|]. rewrite Hpost. exact I.
  - change (omap post_attempt (ev :: evs))
      with (match post_attempt ev with
            | Some p => p :: omap post_attempt evs
            | None => omap post_attempt evs
            end).
    rewrite Hpost. exact IH2.
Qed.

Lemma dispatches_app (recipients : list pystr) (n1 n2 : nat) (e1 e2 : list event) :
  dispatches recipients n1 e1 -> dispatches recipients n2 e2 ->
  dispatches recipients (n1 + n2) (e1 ++ e2).
Proof.
  intros [H1 L1] [H2 L2]. split.
  - apply Forall_app. split; assumption.
  - rewrite omap_app, length_app. lia.
Qed.

Lemma dispatches_mono (rs rs' : list pystr) (n n' : nat) (evs : list event) :
  rs ⊆ rs' -> n <= n' -> dispatches rs n evs -> dispatches rs' n' evs.
Proof.
  intros Hsub Hle [H L]. split; [|lia].
  eapply Forall_impl; [exact H|]. intros ev [Hsave Hpost]. split; [exact Hsave|].
  destruct (post_attempt ev) as [[recipient outcome]|]; [|exact I].
  apply Hsub. exact Hpost.
Qed.

Lemma send_log_posted (user_uuid reply : pystr) (retries : nat) (final : list event) :
  Forall (posted_to [user_uuid]) final ->
  Forall (posted_to [user_uuid]) (send_log user_uuid reply retries final).
Proof.
  intros Hfinal. unfold send_log. apply Forall_app. split; [|exact Hfinal].
  induction retries as [|n IH]; [constructor|].
  cbn [replicate concat]. apply Forall_app. split; [|exact IH].
  unfold rate_limited_attempt. repeat constructor.
Qed.

Lemma send_message_dispatches (user_uuid reply : pystr) :
  extends (send_message respond user_uuid reply)
    (fun _ evs => dispatches [user_uuid] max_retries evs).
Proof.
  intros s.
  destruct (send_message_from_shape respond user_uuid reply 0 s)
    as (_ & retries & final & Hlog & Hcases); [unfold max_retries; lia|].
  exists (send_log user_uuid reply retries final). split; [exact Hlog|].
  cbn [Nat.add] in Hcases. split.
  - apply send_log_posted.
    destruct Hcases as [(_ & -> & _)|[(_ & -> & _)|(_ & (e & _ & ->) & _)]];
      repeat constructor.
  - rewrite send_log_attempts. unfold max_retries in *.
    destruct Hcases as [(-> & -> & _)|[(? & -> & _)|(? & (e & _ & ->) & _)]];
      simpl; lia.
Qed.

Lemma dispatches_after_silence {A B} (c : M A) (k : A -> M B)
    (recipients : list pystr) (bound : nat) :
  silently c ->
  (forall a, extends (k a) (fun _ evs => dispatches recipients bound evs)) ->
  extends (World:=World) (bind c k) (fun _ evs => dispatches recipients bound evs).
Proof.
  intros Hc Hk.
  apply (extends_bind c k (fun _ evs => Forall silent_event evs)
           (fun _ _ evs => dispatches recipients bound evs)); [exact Hc | exact Hk |].
  intros a b e1 e2 H1 H2.
  apply (dispatches_app recipients 0 bound); [|exact H2].
  apply silent_dispatches. exact H1.
Qed.

Lemma dispatches_before_silence {A B} (c : M A) (k : A -> M B)
    (recipients : list pystr) (bound : nat) :
  extends c (fun _ evs => dispatches recipients bound evs) ->
  (forall a, silently (k a)) ->
  extends (World:=World) (bind c k) (fun _ evs => dispatches recipients bound evs).
Proof.
  intros Hc Hk.
  apply (extends_bind c k (fun _ evs => dispatches recipients bound evs)
           (fun _ _ evs => Forall silent_event evs)); [exact Hc | exact Hk |].
  intros a b e1 e2 H1 H2.
  eapply dispatches_mono;
    [reflexivity | | apply (dispatches_app recipients bound 0);
                      [exact H1 | apply silent_dispatches; exact H2]].
  lia.
Qed.

Lemma respond_to_message_dispatches
    (sub : subscriber) (chat_history : list message) (msg : message) :
  extends (respond_to_message respond self_account sub chat_history msg)
    (fun _ evs =>
       dispatches [sub_uuid sub] (max_retries * length (with_text [msg])) evs).
Proof.
  unfold respond_to_message, with_text. cbn [List.filter].
  destruct (truthy (text msg)); cbn [negb length].
  - apply dispatches_after_silence;
      [apply build_conversation_context_io_silently | intros conversation_context].
    apply dispatches_after_silence;
      [apply generate_response_with_llm_silently | intros response_text].
    apply dispatches_before_silence.
    + eapply extends_mono; [|apply send_message_dispatches].
      intros sent evs H. eapply dispatches_mono; [reflexivity | | exact H]. lia.
    + intros sent. hush.
  - apply extends_ret. apply silent_dispatches. constructor.
Qed.

Lemma with_text_cons (msg : message) (rest : list message) :
  length (with_text (msg :: rest)) = length (with_text [msg]) + length (with_text rest).
Proof.
  unfold with_text. cbn [List.filter]. destruct (truthy (text msg)); reflexivity.
Qed.

Lemma respond_to_messages_dispatches (sub : subscriber) (new_messages : list message) :
  extends (respond_to_messages respond self_account sub new_messages)
    (fun _ evs =>
       dispatches [sub_uuid sub] (max_retries * length (with_text new_messages)) evs).
Proof.
  unfold respond_to_messages. apply dispatches_after_silence.
  { apply silently_perform. intros; split; reflexivity. }
  intros chat_history.
  induction new_messages as [|msg rest IH]; cbn [for_each].
  { apply extends_ret. apply silent_dispatches. constructor. }
  apply (extends_bind _ _
           (fun _ evs =>
              dispatches [sub_uuid sub] (max_retries * length (with_text [msg])) evs)
           (fun _ _ evs =>
              dispatches [sub_uuid sub] (max_retries * length (with_text rest)) evs)).
  - apply respond_to_message_dispatches.
  - intros _. exact IH.
  - intros a b e1 e2 H1 H2. rewrite with_text_cons, Nat.mul_add_distr_l.
    apply dispatches_app; assumption.
Qed.

(** X22: [respond_to_messages] posts to nobody but the subscriber it was
    called for, makes at most three posts for each new message that has a
    text (none for a message without text), and does not write the state
    file. *)
Theorem replies_go_to_the_subscriber_only
    (sub : subscriber) (new_messages : list message) (s : machine World) :
  let run := respond_to_messages respond self_account sub new_messages s in
  let evs := new_events (log s) (log (snd run)) in
  Forall (fun ev => match post_attempt ev with
                    | Some (recipient, _) => recipient = sub_uuid sub
                    | None => True
                    end) evs
  /\ length (omap post_attempt evs) <= max_retries * length (with_text new_messages)
  /\ omap saved_state evs = [].
Proof.
  intros run evs. subst run evs.
  destruct (respond_to_messages_dispatches sub new_messages s)
    as (evs & Hlog & Hposted & Hcount).
  unfold new_events. rewrite Hlog, drop_app_length.
  split; [|split; [exact Hcount|]].
  - eapply Forall_impl; [exact Hposted|]. intros ev [_ Hpost].
    destruct (post_attempt ev) as [[recipient outcome]|]; [|exact I].
    apply list_elem_of_singleton in Hpost. exact Hpost.
  - clear Hlog Hcount. induction Hposted as [|ev evs [Hsave _] _ IH]; [reflexivity|].
    change (omap saved_state (ev :: evs))
      with (match saved_state ev with
            | Some r => r :: omap saved_state evs
            | None => omap saved_state evs
            end).
    rewrite Hsave. exact IH.
Qed.

(** ** What responding leaves alone *)

Lemma keeps_self_ret {A} (a : A) : keeps_self (World:=World) (ret a).
Proof. intros s. reflexivity. Qed.

Lemma keeps_self_perform {A} (c : call A) : keeps_self (perform respond c).
Proof.
  intros s. unfold perform. destruct (respond A c (world s)). reflexivity.
Qed.

Lemma keeps_self_bind {A B} (c : M A) (k : A -> M B) :
  keeps_self c -> (forall a, keeps_self (k a)) -> keeps_self (World:=World) (bind c k).
Proof.
  intros Hc Hk s. unfold bind. specialize (Hc s).
  destruct (c s) as [a s1]. cbn [snd] in Hc. rewrite (Hk a s1). exact Hc.
Qed.

Local Ltac kept :=
  repeat first
    [ solve [auto]
    | apply keeps_self_ret
    | apply keeps_self_perform
    | apply keeps_self_bind; [|intros]
    | match goal with
      | |- keeps_self (match ?x with _ => _ end) => destruct x
      | |- keeps_self (if ?b then _ else _) => destruct b
      | |- keeps_self (let '(_, _) := ?x in _) => destruct x
      end ].

Lemma fal_poll_from_keeps_self (request_id : pystr) (waited_time : nat) :
  keeps_self (fal_poll_from respond request_id waited_time).
Proof.
  intros s. funelim (fal_poll_from respond request_id waited_time s);
    cbn [fst snd]; performed; try congruence.
  match goal with
  | |- self (snd (fal_fetch_result _ _ ?s1)) = _ =>
      assert (Hfetch : keeps_self (fal_fetch_result respond request_id))
        by (unfold fal_fetch_result; kept);
      rewrite (Hfetch s1)
  end.
  assumption.
Qed.

Lemma send_message_keeps_self (user_uuid reply : pystr) :
  keeps_self (send_message respond user_uuid reply).
Proof.
  intros s.
  destruct (send_message_from_shape respond user_uuid reply 0 s) as [Hself _];
    [unfold max_retries; lia | exact Hself].
Qed.

Lemma generate_response_with_llm_keeps_self
    (user_message user_handle context : pystr) :
  keeps_self (generate_response_with_llm respond self_account
                user_message user_handle context).
Proof.
  unfold generate_response_with_llm, generate_response_attempt,
    generate_response_with_openai, generate_response_with_fal_ai.
  pose proof fal_poll_from_keeps_self. kept.
Qed.

(** X23: [respond_to_messages] leaves the timestamps and the processed set
    as [check_for_unanswered_messages] set them, whatever the backends and
    the sends answer: a message stays marked as processed also when its
    reply could not be sent. *)
Theorem responding_keeps_the_tracking_state
    (sub : subscriber) (new_messages : list message) (s : machine World) :
  self (snd (respond_to_messages respond self_account sub new_messages s)) = self s.
Proof.
  revert s. change (keeps_self (respond_to_messages respond self_account
                                  sub new_messages)).
  unfold respond_to_messages. apply keeps_self_bind; [apply keeps_self_perform|].
  intros chat_history.
  induction new_messages as [|msg rest IH]; cbn [for_each]; [apply keeps_self_ret|].
  apply keeps_self_bind; [|intros; exact IH].
  unfold respond_to_message, build_conversation_context_io.
  pose proof generate_response_with_llm_keeps_self.
  pose proof send_message_keeps_self. kept.
Qed.

(** ** The loop over the subscribers *)

Lemma check_for_unanswered_messages_io_silent (sub : subscriber) :
  extends (check_for_unanswered_messages_io respond sub)
    (fun unanswered evs => length unanswered <= 1 /\ Forall silent_event evs).
Proof.
  intros s. unfold check_for_unanswered_messages_io, bind.
  destruct (perform respond (GetChatMessages (sub_uuid sub) 20) s)
    as [messages s1] eqn:Hfetch.
  performed. destruct messages as [|m messages].
  { cbn [ret fst snd]. eexists. split; [eassumption|].
    split; [simpl; lia | repeat constructor]. }
  destruct (perform respond GetCurrentUser s1) as [my_uuid s2] eqn:Hme.
  performed. unfold get_self.
  pose proof (check_at_most_one my_uuid (sub_uuid sub) (m :: messages) (self s2))
    as Hone.
  destruct (check_for_unanswered_messages my_uuid (sub_uuid sub) (m :: messages)
              (self s2)) as [unanswered me'].
  cbn [put_self ret fst snd log] in *. eexists. split.
  - match goal with
    | H2 : log s2 = _, H1 : log s1 = _ |- _ =>
        rewrite H2, H1, <- app_assoc; reflexivity
    end.
  - split; [exact Hone | repeat constructor].
Qed.

Lemma check_each_subscriber_dispatches
    (subscribers : list subscriber) (count : nat) :
  extends (check_each_subscriber respond self_account subscribers count)
    (fun count' evs =>
       count <= count' <= count + length subscribers
       /\ dispatches (map sub_uuid subscribers) (max_retries * (count' - count)) evs).
Proof.
  revert count. induction subscribers as [|sub rest IH]; intros count;
    cbn [check_each_subscriber].
  { apply extends_ret. split; [simpl; lia|].
    apply (dispatches_mono [] _ 0); [intros u Hu; inversion Hu | lia |].
    apply silent_dispatches. constructor. }
  assert (Hrest : map sub_uuid rest ⊆ map sub_uuid (sub :: rest)).
  { intros u Hu. cbn [map]. apply list_elem_of_further. exact Hu. }
  assert (Hsub : [sub_uuid sub] ⊆ map sub_uuid (sub :: rest)).
  { intros u Hu. apply list_elem_of_singleton in Hu as ->. cbn [map].
    apply list_elem_of_here. }
  apply (extends_bind _ _
           (fun unanswered evs => length unanswered <= 1 /\ Forall silent_event evs)
           (fun unanswered count' evs =>
              count + length unanswered <= count'
              /\ count' <= count + length unanswered + length rest
              /\ dispatches (map sub_uuid (sub :: rest))
                   (max_retries * (count' - count)) evs)).
  - apply check_for_unanswered_messages_io_silent.
  - intros [|m unanswered].
    + eapply extends_mono; [|apply (IH count)].
      intros count' evs [Hcount H]. cbn [length].
      split; [lia|]. split; [lia|].
      eapply dispatches_mono; [exact Hrest | | exact H]. lia.
    + apply (extends_bind _ _
               (fun _ evs =>
                  dispatches [sub_uuid sub]
                    (max_retries * length (with_text (m :: unanswered))) evs)
               (fun _ count' evs =>
                  count + length (m :: unanswered) <= count'
                  <= count + length (m :: unanswered) + length rest
                  /\ dispatches (map sub_uuid rest)
                       (max_retries * (count' - (count + length (m :: unanswered))))
                       evs)).
      * apply respond_to_messages_dispatches.
      * intros _. apply IH.
      * intros a count' e1 e2 H1 [Hcount H2].
        split; [lia|]. split; [lia|].
        assert (Htext : length (with_text (m :: unanswered))
                        <= length (m :: unanswered)).
        { unfold with_text. apply List.filter_length_le. }
        pose proof (dispatches_mono _ _ _ _ e1 Hsub (Nat.le_refl _) H1) as H1'.
        pose proof (dispatches_mono _ _ _ _ e2 Hrest (Nat.le_refl _) H2) as H2'.
        pose proof (dispatches_app _ _ _ e1 e2 H1' H2') as H.
        eapply dispatches_mono; [reflexivity | | exact H].
        unfold max_retries in *. lia.
  - intros unanswered count' e1 e2 [Hlen Hsilent] (Hlow & Hhigh & H).
    split; [cbn [length]; lia|].
    apply (dispatches_app _ 0 _ e1 e2); [|exact H].
    apply silent_dispatches. exact Hsilent.
Qed.

Lemma omap_saved_state_posted (recipients : list pystr) (evs : list event) :
  Forall (posted_to recipients) evs -> omap saved_state evs = [].
Proof.
  induction 1 as [|ev evs [Hsave _] _ IH]; [reflexivity|].
  change (omap saved_state (ev :: evs))
    with (match saved_state ev with
          | Some r => r :: omap saved_state evs
          | None => omap saved_state evs
          end).
  rewrite Hsave. exact IH.
Qed.

(** The log of a cycle: the fetch of the subscribers, then, when there are
    any, the events of the loop and the save. *)
Lemma monitor_single_cycle_log (s : machine World) :
  let run := monitor_single_cycle respond self_account s in
  let subscribers := fst (respond _ GetSubscribers (world s)) in
  exists evs,
    fst run <= length subscribers
    /\ dispatches (map sub_uuid subscribers) (max_retries * fst run) evs
    /\ new_events (log s) (log (snd run))
       = Event GetSubscribers subscribers
         :: match subscribers with
            | [] => []
            | _ :: _ => evs ++ [Event (SaveState (self (snd run))) tt]
            end.
Proof.
  cbv zeta. unfold monitor_single_cycle, bind, get_self.
  destruct (perform respond GetSubscribers s) as [subscribers s1] eqn:Hsubs.
  assert (Hfst : fst (respond _ GetSubscribers (world s)) = subscribers).
  { unfold perform in Hsubs. destruct (respond _ GetSubscribers (world s)).
    injection Hsubs as -> _. reflexivity. }
  apply perform_inv in Hsubs as [_ Hlog1]. rewrite Hfst.
  destruct subscribers as [|sub rest].
  { cbn [ret fst snd]. exists []. split; [simpl; lia|]. split.
    - apply (dispatches_mono [] _ 0); [intros u Hu; inversion Hu | lia |].
      apply silent_dispatches. constructor.
    - unfold new_events. rewrite Hlog1, drop_app_length. reflexivity. }
  destruct (check_each_subscriber_dispatches (sub :: rest) 0 s1)
    as (evs & Hlog2 & Hcount & Hdispatch).
  destruct (check_each_subscriber respond self_account (sub :: rest) 0 s1)
    as [count s2]. cbn [fst snd] in *.
  destruct (perform respond (SaveState (self s2)) s2) as [u s3] eqn:Hsave.
  apply perform_inv in Hsave as [Hself Hlog3]. destruct u. cbn [ret fst snd].
  exists evs. split; [lia|]. split.
  - rewrite Nat.sub_0_r in Hdispatch. exact Hdispatch.
  - unfold new_events.
    rewrite Hlog3, Hlog2, Hlog1, <- !app_assoc, drop_app_length, Hself.
    reflexivity.
Qed.

(** X24: the number [monitor_single_cycle] returns is at most the number of
    subscribers it fetched; the cycle makes at most three posts for each
    message it counts, and every post goes to one of the fetched
    subscribers. *)
Theorem cycle_count_bounds_the_posts (s : machine World) :
  let run := monitor_single_cycle respond self_account s in
  let subscribers := fst (respond _ GetSubscribers (world s)) in
  let evs := new_events (log s) (log (snd run)) in
  fst run <= length subscribers
  /\ length (omap post_attempt evs) <= max_retries * fst run
  /\ Forall (fun ev => match post_attempt ev with
                       | Some (recipient, _) => recipient ∈ map sub_uuid subscribers
                       | None => True
                       end) evs.
Proof.
  intros run subscribers evs. subst run subscribers evs.
  destruct (monitor_single_cycle_log s) as (evs & Hcount & [Hposted Hposts] & ->).
  split; [exact Hcount|].
  assert (Hweaken : Forall (fun ev =>
            match post_attempt ev with
            | Some (recipient, _) =>
                recipient ∈ map sub_uuid (fst (respond _ GetSubscribers (world s)))
            | None => True
            end) evs).
  { eapply Forall_impl; [exact Hposted|]. intros ev [_ H]. exact H. }
  destruct (fst (respond _ GetSubscribers (world s))) as [|sub rest].
  - split; [simpl; lia|]. repeat constructor.
  - split.
    + change (omap post_attempt (?ev :: ?l)) with (omap post_attempt l).
      rewrite omap_app, length_app. simpl (length (omap post_attempt [_])). lia.
    + constructor; [exact I|]. apply Forall_app. split; [exact Hweaken|].
      repeat constructor.
Qed.

(** X25: a cycle that fetched no subscriber writes no state file; any other
    cycle writes it exactly once, as its last action, and what it writes is
    the tracking state the cycle ends with. *)
Theorem cycle_saves_state_once_at_its_end (s : machine World) :
  let run := monitor_single_cycle respond self_account s in
  let subscribers := fst (respond _ GetSubscribers (world s)) in
  let evs := new_events (log s) (log (snd run)) in
  match subscribers with
  | [] => omap saved_state evs = []
  | _ :: _ =>
      omap saved_state evs = [self (snd run)]
      /\ last evs = Some (Event (SaveState (self (snd run))) tt)
  end.
Proof.
  intros run subscribers evs. subst run subscribers evs.
  destruct (monitor_single_cycle_log s) as (evs & _ & [Hposted _] & ->).
  destruct (fst (respond _ GetSubscribers (world s))) as [|sub rest];
    [reflexivity|].
  split.
  - change (omap saved_state (?ev :: ?l)) with (omap saved_state l).
    rewrite omap_app, (omap_saved_state_posted _ evs Hposted). reflexivity.
  - rewrite app_comm_cons. apply last_snoc.
Qed.
End CycleFacts.

(* ===================================================================== *)
(** * Replies without the account look-up *)
(* ===================================================================== *)

Section AcknowledgementFacts.
Context {World : Type}.
Variable respond : forall A : Type, call A -> World -> A * World.
Variable self_account : account.

Local Ltac performed :=
  repeat match goal with
         | H : perform _ _ _ = (_, _) |- _ =>
             apply perform_inv in H; destruct H as [? ?]
         | u : unit |- _ => destruct u
         end.

Lemma emits_ret {A} (P : event -> Prop) (a : A) : emits (World:=World) P (ret a).
Proof. apply extends_ret. constructor. Qed.

Lemma emits_perform {A} (P : event -> Prop) (c : call A) :
  (forall a, P (Event c a)) -> emits P (perform respond c).
Proof. intros H. apply extends_perform. intros a. repeat constructor. apply H. Qed.

Lemma emits_bind {A B} (P : event -> Prop) (c : M A) (k : A -> M B) :
  emits P c -> (forall a, emits P (k a)) -> emits (World:=World) P (bind c k).
Proof.
  intros Hc Hk.
  apply (extends_bind c k (fun _ evs => Forall P evs)
           (fun _ _ evs => Forall P evs)); [exact Hc | exact Hk |].
  intros a b e1 e2 H1 H2. apply Forall_app. split; assumption.
Qed.

Lemma perform_answer {A} (c : call A) (s : machine World) :
  fst (perform respond c s) = fst (respond A c (world s)).
Proof. unfold perform. destruct (respond A c (world s)). reflexivity. Qed.

(** With the look-up raising, generation asks no backend and returns the
    acknowledgement. *)
Lemma generate_response_with_llm_acknowledges
    (user_message user_handle context text : pystr) :
  lookup_raises respond ->
  extends (generate_response_with_llm respond self_account
             user_message user_handle context)
    (fun reply evs =>
       reply = generic_acknowledgement user_handle /\ Forall (carries text) evs).
Proof.
  intros Hlookup s.
  unfold generate_response_with_llm, generate_response_attempt, bind.
  pose proof (perform_answer GetAccountById s) as Hanswer.
  destruct (Hlookup (world s)) as [e He]. rewrite He in Hanswer.
  destruct (perform respond GetAccountById s) as [lookup s1] eqn:Hperform.
  cbn [fst] in Hanswer. subst lookup. performed. cbn [ret fst snd].
  eexists. split; [eassumption|]. split; [reflexivity|].
  repeat constructor.
Qed.

Lemma send_log_carries (user_uuid reply : pystr) (retries : nat) (final : list event) :
  Forall (carries reply) final ->
  Forall (carries reply) (send_log user_uuid reply retries final).
Proof.
  intros Hfinal. unfold send_log. apply Forall_app. split; [|exact Hfinal].
  induction retries as [|n IH]; [constructor|].
  cbn [replicate concat]. apply Forall_app. split; [|exact IH].
  unfold rate_limited_attempt. repeat constructor.
Qed.

(** [send_message] posts the reply it was given, at least once. *)
Lemma send_message_carries (user_uuid reply : pystr) :
  extends (send_message respond user_uuid reply)
    (fun _ evs =>
       Forall (carries reply) evs /\ 1 <= length (omap post_attempt evs)).
Proof.
  intros s.
  destruct (send_message_from_shape respond user_uuid reply 0 s)
    as (_ & retries & final & Hlog & Hcases); [unfold max_retries; lia|].
  exists (send_log user_uuid reply retries final). split; [exact Hlog|].
  cbn [Nat.add] in Hcases. split.
  - apply send_log_carries.
    destruct Hcases as [(_ & -> & _)|[(_ & -> & _)|(_ & (e & _ & ->) & _)]];
      repeat constructor.
  - rewrite send_log_attempts. unfold max_retries in *.
    destruct Hcases as [(-> & -> & _)|[(? & -> & _)|(? & (e & _ & ->) & _)]];
      simpl; lia.
Qed.

Lemma respond_to_message_acknowledges
    (sub : subscriber) (chat_history : list message) (msg : message) :
  lookup_raises respond ->
  extends (respond_to_message respond self_account sub chat_history msg)
    (fun _ evs =>
       Forall (carries (generic_acknowledgement (sub_handle sub))) evs
       /\ length (with_text [msg]) <= length (omap post_attempt evs)).
Proof.
  intros Hlookup. unfold respond_to_message, with_text. cbn [List.filter].
  destruct (truthy (text msg)); cbn [negb length].
  2: { apply extends_ret. split; [constructor | simpl; lia]. }
  set (ack := generic_acknowledgement (sub_handle sub)).
  apply (extends_bind _ _
           (fun _ evs => Forall (carries ack) evs)
           (fun _ _ evs =>
              Forall (carries ack) evs /\ 1 <= length (omap post_attempt evs))).
  - unfold build_conversation_context_io.
    destruct chat_history; [apply emits_ret|].
    apply emits_bind; [|intros; apply emits_ret].
    apply emits_perform. intros; split; reflexivity.
  - intros conversation_context.
    apply (extends_bind _ _
             (fun reply evs => reply = ack /\ Forall (carries ack) evs)
             (fun reply _ evs =>
                Forall (carries reply) evs
                /\ 1 <= length (omap post_attempt evs))).
    + apply generate_response_with_llm_acknowledges. exact Hlookup.
    + intros reply.
      apply (extends_bind _ _
               (fun _ evs =>
                  Forall (carries reply) evs
                  /\ 1 <= length (omap post_attempt evs))
               (fun _ _ evs => Forall (carries reply) evs)).
      * apply send_message_carries.
      * intros sent. apply emits_bind; [|intros; apply emits_ret].
        apply emits_perform. intros; split; reflexivity.
      * intros sent u e1 e2 [H1 L1] H2. split.
        -- apply Forall_app. split; assumption.
        -- rewrite omap_app, length_app. lia.
    + intros reply u e1 e2 [-> H1] [H2 L2]. split.
      * apply Forall_app. split; assumption.
      * rewrite omap_app, length_app. lia.
  - intros conversation_context u e1 e2 H1 [H2 L2]. split.
    + apply Forall_app. split; assumption.
    + rewrite omap_app, length_app. lia.
Qed.

(** X20: when the account look-up raises, as it does with the repository's
    [DatabaseManager] (which has no [get_fanvue_account_by_id]),
    [respond_to_messages] asks no generation backend: every text it posts is
    the generic acknowledgement addressed to the subscriber's handle, and
    every new message with a text gets at least one post. *)
Theorem replies_are_acknowledgements_when_lookup_raises
    (sub : subscriber) (new_messages : list message) (s : machine World) :
  lookup_raises respond ->
  let run := respond_to_messages respond self_account sub new_messages s in
  let evs := new_events (log s) (log (snd run)) in
  Forall (carries (generic_acknowledgement (sub_handle sub))) evs
  /\ length (with_text new_messages) <= length (omap post_attempt evs).
Proof.
  intros Hlookup run evs. subst run evs.
  set (ack := generic_acknowledgement (sub_handle sub)).
  assert (H : extends (respond_to_messages respond self_account sub new_messages)
                (fun _ evs =>
                   Forall (carries ack) evs
                   /\ length (with_text new_messages)
                      <= length (omap post_attempt evs))).
  { unfold respond_to_messages.
    apply (extends_bind _ _
             (fun _ evs => Forall (carries ack) evs)
             (fun _ _ evs =>
                Forall (carries ack) evs
                /\ length (with_text new_messages)
                   <= length (omap post_attempt evs))).
    - apply emits_perform. intros; split; reflexivity.
    - intros chat_history.
      induction new_messages as [|msg rest IH]; cbn [for_each].
      { apply extends_ret. split; [constructor | simpl; lia]. }
      apply (extends_bind _ _
               (fun _ evs =>
                  Forall (carries ack) evs
                  /\ length (with_text [msg]) <= length (omap post_attempt evs))
               (fun _ _ evs =>
                  Forall (carries ack) evs
                  /\ length (with_text rest) <= length (omap post_attempt evs))).
      + apply respond_to_message_acknowledges. exact Hlookup.
      + intros u. exact IH.
      + intros u v e1 e2 [H1 L1] [H2 L2]. split.
        * apply Forall_app. split; assumption.
        * rewrite with_text_cons, omap_app, length_app. lia.
    - intros chat_history u e1 e2 H1 [H2 L2]. split.
      + apply Forall_app. split; assumption.
      + rewrite omap_app, length_app. lia. }
  destruct (H s) as (evs & Hlog & Hcarries & Hposts).
  unfold new_events. rewrite Hlog, drop_app_length. split; assumption.
Qed.
End AcknowledgementFacts.

(** The environment whose look-up raises [AttributeError]: the message of
    alice is answered with the acknowledgement. *)
Lemma replies_are_acknowledgements_when_lookup_raises_witness :
  let new_messages :=
    [ Message (str "m-1") (str "alice-id") (str "10:00") (str "hi") ] in
  let run := respond_to_messages rate_limiting_world no_account alice new_messages
               (start fresh_responder) in
  let evs := new_events [] (log (snd run)) in
  lookup_raises rate_limiting_world
  /\ Forall (carries (generic_acknowledgement (str "alice"))) evs
  /\ length (with_text new_messages) <= length (omap post_attempt evs).
Proof.
  assert (Hlookup : lookup_raises rate_limiting_world).
  { intros w. eexists. reflexivity. }
  split; [exact Hlookup|].
  exact (replies_are_acknowledgements_when_lookup_raises rate_limiting_world
           no_account alice
           [ Message (str "m-1") (str "alice-id") (str "10:00") (str "hi") ]
           (start fresh_responder) Hlookup).
Defined.
